(** * Chor-Dakat-Babu-Police: the two game servers, embedded and verified

    The repository holds two Socket.IO servers for the same four-player game:

    - [src/server.js]: the richer variant.  Babu 900 (granted at assignment),
      Police 800, Chor 400, Dakat 600 (pending); the Police must find the Chor
      on odd rounds and the Dakat on even rounds; rounds are started by an
      explicit [shuffle] event.  It is embedded in [Module Parity].
    - [src/server/index.js]: the simplest variant.  Babu 1000, Police 500,
      Dakat 300, Chor 0, all granted at assignment; the Police must find the
      Chor; rounds are started by timers.  It is embedded in [Module Simple].

    Every handler is a run-to-completion function on an explicit server state.
    A handler that would raise an uncaught [TypeError] (reading a property of
    [undefined]) returns [None].  Outbound Socket.IO notifications are appended
    to the [out] log of the state. *)

From stdpp Require Import gmap strings list.
From Stdlib Require Import ZArith Lia Ascii.

Local Open Scope Z_scope.

(** ** Roles *)

Inductive Role := Babu | Police | Chor | Dakat.

#[global] Instance Role_eq_dec : EqDecision Role.
Proof. solve_decision. Defined.

Definition role_name (r : Role) : string :=
  match r with
  | Babu => "Babu"
  | Police => "Police"
  | Chor => "Chor"
  | Dakat => "Dakat"
  end.

(** ** The randomness source and the engine's [Array.prototype.sort]

    Both servers shuffle the role array with [roles.sort(cmp)] where [cmp]
    ignores its two arguments and returns [Math.random() - 0.5]
    (resp. [0.5 - Math.random()]).

    [Math.random()] returns a double in [0, 1); such a draw is modelled by the
    integer [k] with [0 <= k < 2^53] that stands for [k / 2^53].  The sign of
    [k/2^53 - 1/2] is exact in floating point. *)

Definition RESOLUTION : Z := 2 ^ 53.
Definition HALF : Z := 2 ^ 52.

(** [() => Math.random() - 0.5] of src/server.js, as a function of the draw. *)
Definition random_minus_half (k : Z) : comparison := Z.compare k HALF.

(** [() => 0.5 - Math.random()] of src/server/index.js. *)
Definition half_minus_random (k : Z) : comparison := Z.compare HALF k.

(** The sort itself is the engine's, not the repository's.  Whatever the
    engine does, on an array of fixed length it is a finite procedure that
    calls the comparator and moves elements around; since this comparator
    ignores its arguments, only the result of each call matters.  A
    [SortPlan] is such a procedure: [Compare] calls the comparator once and
    continues by the sign of its result, [Exchange i j] swaps two slots. *)
Inductive SortPlan :=
| Done
| Exchange (i j : nat) (rest : SortPlan)
| Compare (neg zero pos : SortPlan).

Definition exchange {A} (i j : nat) (arr : list A) : list A :=
  match arr !! i, arr !! j with
  | Some x, Some y => <[j := x]> (<[i := y]> arr)
  | _, _ => arr
  end.

(** Runs a plan: [rand n] is the n-th result of [Math.random()], [cursor]
    the number of results already consumed. *)
Fixpoint run_plan {A} (plan : SortPlan) (cmp : Z → comparison)
    (rand : nat → Z) (cursor : nat) (arr : list A) : list A * nat :=
  match plan with
  | Done => (arr, cursor)
  | Exchange i j rest => run_plan rest cmp rand cursor (exchange i j arr)
  | Compare neg zero pos =>
      match cmp (rand cursor) with
      | Lt => run_plan neg cmp rand (S cursor) arr
      | Eq => run_plan zero cmp rand (S cursor) arr
      | Gt => run_plan pos cmp rand (S cursor) arr
      end
  end.

(** A textbook engine: insertion sort by adjacent exchanges.  The element
    at slot [k] sinks to the left while the comparator answers with a
    positive number.  This is not the sort of Node.js (see [v8_plan] below):
    on the same draws the two engines may deal differently.  The example
    runs use [insertion_plan]; the deals they go through are those [v8_plan]
    makes on other draws. *)
Fixpoint sink (k : nat) (cont : SortPlan) : SortPlan :=
  match k with
  | O => cont
  | S j => Compare cont cont (Exchange j (S j) (sink j cont))
  end.

Definition insertion_plan : SortPlan := sink 1 (sink 2 (sink 3 Done)).

(** The engine of Node.js is V8, whose [Array.prototype.sort] is TimSort.
    On an array of [n] elements with [2 <= n < 64] it makes one pass:
    [CountAndMakeRun] counts the run that starts at slot 0, reversing it
    when it is descending, and [BinaryInsertionSort] inserts the remaining
    slots one by one. *)

(** [ReverseRange]: the slots from [low] to [high] are reversed by
    exchanging the two ends and moving inwards. *)
Fixpoint reverse_range (fuel : nat) (low high : nat) (cont : SortPlan)
    : SortPlan :=
  match fuel with
  | O => cont
  | S f =>
      if decide (low < high)%nat
      then Exchange low high (reverse_range f (S low) (pred high) cont)
      else cont
  end.

(** The move loop of [BinaryInsertionSort]: the pivot at slot [start] goes
    down to slot [left] and the elements in between move up by one. *)
Fixpoint move_pivot (start left : nat) (cont : SortPlan) : SortPlan :=
  match start with
  | O => cont
  | S p =>
      if decide (left < start)%nat
      then Exchange p start (move_pivot p left cont)
      else cont
  end.

(** The binary search of [BinaryInsertionSort] for the pivot at [start]: a
    negative comparison continues on the left of [mid], any other on its
    right. *)
Fixpoint find_slot (fuel : nat) (left right start : nat) (cont : SortPlan)
    : SortPlan :=
  match fuel with
  | O => move_pivot start left cont
  | S f =>
      if decide (left < right)%nat then
        let mid := (left + (right - left) / 2)%nat in
        Compare (find_slot f left mid start cont)
                (find_slot f (S mid) right start cont)
                (find_slot f (S mid) right start cont)
      else move_pivot start left cont
  end.

(** [BinaryInsertionSort(0, start, high)], where [count] is [high - start]. *)
Fixpoint binary_insertion (count start : nat) : SortPlan :=
  match count with
  | O => Done
  | S k => find_slot start 0 start start (binary_insertion k (S start))
  end.

(** The loop of [CountAndMakeRun(0, high)] from slot [idx] on: the run goes
    on while the comparisons keep the direction of the first one.  Then a
    descending run is reversed and the rest of the array is inserted. *)
Fixpoint extend_run (fuel : nat) (descending : bool) (idx high : nat)
    : SortPlan :=
  let finish :=
    (if descending then reverse_range idx 0 (pred idx) else λ k, k)
      (binary_insertion (high - idx) idx) in
  match fuel with
  | O => finish
  | S f =>
      if decide (idx < high)%nat then
        let further := extend_run f descending (S idx) high in
        if descending then Compare further finish finish
        else Compare finish further further
      else finish
  end.

(** The first comparison decides whether the run is descending. *)
Definition v8_sort (n : nat) : SortPlan :=
  Compare (extend_run n true 2 n) (extend_run n false 2 n) (extend_run n false 2 n).

Definition v8_plan : SortPlan := v8_sort 4.

(** ** Counting draws

    The draws of a resolution [R] are [0, 1, ..., R-1], all equally likely;
    [tapes R d] lists all sequences of [d] draws. *)

Definition draws (R : Z) : list Z := Z.of_nat <$> seq 0 (Z.to_nat R).

Fixpoint tapes (R : Z) (d : nat) : list (list Z) :=
  match d with
  | O => [[]]
  | S d' => k ← draws R; (cons k <$> tapes R d')
  end.

Definition tape_fn (tape : list Z) : nat → Z := λ n, default 0 (tape !! n).

(** The plan, fed with [tape], finishes within the tape and leaves [target]. *)
Definition finishes {A} `{EqDecision A} (plan : SortPlan) (cmp : Z → comparison)
    (arr target : list A) (tape : list Z) : bool :=
  let '(a, c) := run_plan plan cmp (tape_fn tape) 0 arr in
  bool_decide (a = target) && bool_decide (c ≤ length tape)%nat.

(** Number of sequences of [d] draws on which [arr.sort(cmp)] gives [target]. *)
Definition hits {A} `{EqDecision A} (R : Z) (cmp : Z → comparison) (d : nat)
    (plan : SortPlan) (arr target : list A) : nat :=
  length (filter (λ t, finishes plan cmp arr target t = true) (tapes R d)).

(** The same number in closed form: [lt], [eq] and [gt] are the numbers of
    draws on which the comparator is negative, zero and positive. *)
Fixpoint ways {A} `{EqDecision A} (lt eq gt : Z) (d : nat) (plan : SortPlan)
    (arr target : list A) : Z :=
  match plan with
  | Done => if decide (arr = target) then (lt + eq + gt) ^ Z.of_nat d else 0
  | Exchange i j rest => ways lt eq gt d rest (exchange i j arr) target
  | Compare neg zero pos =>
      match d with
      | O => 0
      | S d' => lt * ways lt eq gt d' neg arr target
                + eq * ways lt eq gt d' zero arr target
                + gt * ways lt eq gt d' pos arr target
      end
  end.

Definition count_sign (cmp : Z → comparison) (R : Z) (c : comparison) : Z :=
  Z.of_nat (length (filter (λ k, cmp k = c) (draws R))).

(** The role array both servers shuffle, in the order of src/server.js. *)
Definition ROLES : list Role := [Babu; Police; Chor; Dakat].

(** ** JavaScript helpers shared by the two servers *)

(** [list.forEach(f)] where [f] may throw. *)
Fixpoint forEach {St A} (f : A → St → option St) (l : list A) (s : St) : option St :=
  match l with
  | [] => Some s
  | x :: l' => s' ← f x s; forEach f l' s'
  end.

(** [list.forEach((x, idx) => ...)], the index starting at [i]. *)
Fixpoint forEachIdx {St A} (f : A → nat → St → option St) (i : nat) (l : list A)
    (s : St) : option St :=
  match l with
  | [] => Some s
  | x :: l' => s' ← f x i s; forEachIdx f (S i) l' s'
  end.

(** [list.map(f)] where [f] may throw. *)
Fixpoint mapM {A B} (f : A → option B) (l : list A) : option (list B) :=
  match l with
  | [] => Some []
  | x :: l' => y ← f x; (cons y <$> mapM f l')
  end.

(** [list.filter(p)] where [p] may throw. *)
Fixpoint filterM {A} (p : A → option bool) (l : list A) : option (list A) :=
  match l with
  | [] => Some []
  | x :: l' => b ← p x; ((λ ys, if b : bool then x :: ys else ys) <$> filterM p l')
  end.

(** [list.find(p)] where [p] may throw; [Some None] is [undefined]. *)
Fixpoint findM {A} (p : A → option bool) (l : list A) : option (option A) :=
  match l with
  | [] => Some None
  | x :: l' => b ← p x; if b : bool then Some (Some x) else findM p l'
  end.

(** [list.includes(x)]. *)
Definition includes (l : list string) (x : string) : bool := bool_decide (x ∈ l).

(** Truthiness of a string: only the empty string is falsy. *)
Definition truthy (s : string) : bool := negb (bool_decide (s = "")).

(** [String.prototype.trim] removes the [WhiteSpace] and [LineTerminator]
    code points of ECMAScript from both ends of a string.  Strings are held
    in UTF-8, where such a code point takes one to three bytes:

    - one byte: U+0009 to U+000D and U+0020;
    - two bytes: U+00A0 (C2 A0);
    - three bytes: U+1680 (E1 9A 80), U+2000 to U+200A (E2 80 80 to
      E2 80 8A), U+2028, U+2029 and U+202F (E2 80 A8, E2 80 A9, E2 80 AF),
      U+205F (E2 81 9F), U+3000 (E3 80 80) and U+FEFF (EF BB BF). *)
Definition is_white (c : Ascii.ascii) : bool :=
  bool_decide (c ∈ [" "; "009"; "010"; "011"; "012"; "013"]%char).

Definition is_white2 (c1 c2 : Ascii.ascii) : bool :=
  bool_decide ((c1, c2) = ("194", "160")%char).

Definition is_white3 (c1 c2 c3 : Ascii.ascii) : bool :=
  bool_decide ((c1, c2, c3) ∈
    [("225", "154", "128");
     ("226", "128", "128"); ("226", "128", "129"); ("226", "128", "130");
     ("226", "128", "131"); ("226", "128", "132"); ("226", "128", "133");
     ("226", "128", "134"); ("226", "128", "135"); ("226", "128", "136");
     ("226", "128", "137"); ("226", "128", "138");
     ("226", "128", "168"); ("226", "128", "169"); ("226", "128", "175");
     ("226", "129", "159");
     ("227", "128", "128");
     ("239", "187", "191")]%char).

Fixpoint trim_start (s : string) : string :=
  match s with
  | String c1 s1 =>
      if is_white c1 then trim_start s1 else
      match s1 with
      | String c2 s2 =>
          if is_white2 c1 c2 then trim_start s2 else
          match s2 with
          | String c3 s3 => if is_white3 c1 c2 c3 then trim_start s3 else s
          | EmptyString => s
          end
      | EmptyString => s
      end
  | EmptyString => EmptyString
  end.

(** The same on the reversed string, where the bytes of a code point arrive
    last byte first. *)
Fixpoint trim_start_rev (s : string) : string :=
  match s with
  | String c1 s1 =>
      if is_white c1 then trim_start_rev s1 else
      match s1 with
      | String c2 s2 =>
          if is_white2 c2 c1 then trim_start_rev s2 else
          match s2 with
          | String c3 s3 => if is_white3 c3 c2 c1 then trim_start_rev s3 else s
          | EmptyString => s
          end
      | EmptyString => s
      end
  | EmptyString => EmptyString
  end.

Definition trim_end (s : string) : string :=
  String.rev (trim_start_rev (String.rev s)).

Definition trim (s : string) : string := trim_end (trim_start s).

(** [Math.max(...xs)]; [None] stands for [-Infinity]. *)
Definition max_list (xs : list Z) : option Z :=
  foldr (λ x acc, Some (match acc with Some y => Z.max x y | None => x end)) None xs.

(** * src/server.js: the variant with parity-dependent targets *)

Module Parity.

Definition MAX_ROUNDS : Z := 10.

Definition rolePoints (r : Role) : Z :=
  match r with
  | Babu => 900
  | Police => 800
  | Chor => 400
  | Dakat => 600
  end.

(** An entry of [players].  The [role] field holds a role name or the empty
    string; [None] stands for the empty string. *)
Record Player := mkPlayer {
  id : string;
  name : string;
  score : Z;
  role : option Role;
  pending : Z
}.

Record ScoreRow := mkScoreRow {
  row_id : string;
  row_name : string;
  row_role : option Role;
  row_score : Z
}.

Record Gain := mkGain {
  gain_id : string;
  gain_name : string;
  points : Z
}.

Record HistoryEntry := mkHistoryEntry {
  round : Z;
  message : string;
  gains : list Gain;
  correct : bool
}.

Record RoundResult := mkRoundResult {
  rr_round : Z;
  rr_correct : bool;
  rr_message : string;
  rr_scoreboard : list ScoreRow;
  rr_history : list HistoryEntry;
  targetRole : Role;
  policeName : string;
  chorName : string;
  dakatName : string
}.

Inductive Event :=
| updatePlayers (names : list string)
| enableShuffle
| rolesAssigned (rnd maxRounds : Z) (scoreboard : list ScoreRow)
    (hist : list HistoryEntry)
| policeTurn (guessTarget : Role) (suspects : list (string * string))
| roundResult (result : RoundResult)
| gameOver (winners : list string) (scoreboard : list ScoreRow)
    (hist : list HistoryEntry)
| playerLeft (msg : string)
| gameReset.

(** [io.to(id).emit(...)] has [to = Some id]; [io.emit(...)], which reaches
    every connected socket, has [to = None]. *)
Record Emit := mkEmit { to : option string; event : Event }.

(** The module-level variables of the server, the randomness source
    ([rand n] is the n-th result of [Math.random()], [cursor] the number of
    results consumed so far) and the log of notifications sent. *)
Record State := mkState {
  players : gmap string Player;
  waiting : list string;
  currentPlayers : list string;
  gameStarted : bool;
  awaitingShuffle : bool;
  currentRound : Z;
  history : list HistoryEntry;
  rand : nat → Z;
  cursor : nat;
  out : list Emit
}.

Definition set_players (v : gmap string Player) (s : State) : State :=
  mkState v (waiting s) (currentPlayers s) (gameStarted s) (awaitingShuffle s)
    (currentRound s) (history s) (rand s) (cursor s) (out s).
Definition set_waiting (v : list string) (s : State) : State :=
  mkState (players s) v (currentPlayers s) (gameStarted s) (awaitingShuffle s)
    (currentRound s) (history s) (rand s) (cursor s) (out s).
Definition set_currentPlayers (v : list string) (s : State) : State :=
  mkState (players s) (waiting s) v (gameStarted s) (awaitingShuffle s)
    (currentRound s) (history s) (rand s) (cursor s) (out s).
Definition set_gameStarted (v : bool) (s : State) : State :=
  mkState (players s) (waiting s) (currentPlayers s) v (awaitingShuffle s)
    (currentRound s) (history s) (rand s) (cursor s) (out s).
Definition set_awaitingShuffle (v : bool) (s : State) : State :=
  mkState (players s) (waiting s) (currentPlayers s) (gameStarted s) v
    (currentRound s) (history s) (rand s) (cursor s) (out s).
Definition set_currentRound (v : Z) (s : State) : State :=
  mkState (players s) (waiting s) (currentPlayers s) (gameStarted s)
    (awaitingShuffle s) v (history s) (rand s) (cursor s) (out s).
Definition set_history (v : list HistoryEntry) (s : State) : State :=
  mkState (players s) (waiting s) (currentPlayers s) (gameStarted s)
    (awaitingShuffle s) (currentRound s) v (rand s) (cursor s) (out s).
Definition set_cursor (v : nat) (s : State) : State :=
  mkState (players s) (waiting s) (currentPlayers s) (gameStarted s)
    (awaitingShuffle s) (currentRound s) (history s) (rand s) v (out s).
Definition set_out (v : list Emit) (s : State) : State :=
  mkState (players s) (waiting s) (currentPlayers s) (gameStarted s)
    (awaitingShuffle s) (currentRound s) (history s) (rand s) (cursor s) v.

(** The state of a freshly started process. *)
Definition init (rnd : nat → Z) : State :=
  mkState ∅ [] [] false false 0 [] rnd 0 [].

(** [players[id].field = ...]: a [TypeError] when [players[id]] is undefined. *)
Definition modify_player (i : string) (f : Player → Player) (s : State)
    : option State :=
  p ← players s !! i; Some (set_players (<[i := f p]> (players s)) s).

Definition emit (recipient : option string) (e : Event) (s : State) : State :=
  set_out (out s ++ [mkEmit recipient e]) s.

(** [currentPlayers.forEach(id => io.to(id).emit(e))]. *)
Definition emit_each (ids : list string) (e : Event) (s : State) : State :=
  foldl (λ st i, emit (Some i) e st) s ids.

(** A property key: [obj[undefined]] reads the key ["undefined"]. *)
Definition key_of (i : option string) : string := default "undefined" i.

(** [players[id].score = 0; players[id].role = ''; players[id].pending = 0]. *)
Definition clear_player (p : Player) : Player :=
  mkPlayer (id p) (name p) 0 None 0.

(** [waiting.map(id => players[id].name).filter(Boolean)]. *)
Definition lobby_names (s : State) : option (list string) :=
  names ← mapM (λ i, name <$> players s !! i) (waiting s);
  Some (List.filter truthy names).

(** [currentPlayers.map(id => ({ id, name, role, score }))]. *)
Definition scoreboard_of (s : State) : option (list ScoreRow) :=
  mapM (λ i, p ← players s !! i; Some (mkScoreRow i (name p) (role p) (score p)))
    (currentPlayers s).

(** [currentPlayers.find(id => players[id].role === r)]. *)
Definition find_role (r : Role) (s : State) : option (option string) :=
  findM (λ i, p ← players s !! i; Some (bool_decide (role p = Some r)))
    (currentPlayers s).

(** [(currentRound % 2 === 1) ? 'Chor' : 'Dakat']. *)
Definition guessTarget_of (s : State) : Role :=
  if Z.rem (currentRound s) 2 =? 1 then Chor else Dakat.

(** The body of the loop of [assignRoles]: the role and its pending points
    are stored, and the Babu's points are added to the score at once. *)
Definition assign_role (r : Role) (p : Player) : Player :=
  mkPlayer (id p) (name p)
    (if decide (r = Babu) then score p + rolePoints Babu else score p)
    (Some r) (rolePoints r).

(** [players[id].score += v]. *)
Definition add_score (v : Z) (p : Player) : Player :=
  mkPlayer (id p) (name p) (score p + v) (role p) (pending p).

Section with_engine.
Variable engine : SortPlan.

(** [assignRoles()], lines 71-86.  [shuffled[idx]] with [idx >= 4] would be
    [undefined]; [currentPlayers] never holds more than four ids, and the
    model stops there. *)
Definition assignRoles (s : State) : option State :=
  let '(shuffled, c) :=
    run_plan engine random_minus_half (rand s) (cursor s) ROLES in
  s' ← forEachIdx (λ i idx st,
          r ← shuffled !! idx; modify_player i (assign_role r) st)
        0 (currentPlayers s) (set_cursor c s);
  Some (set_awaitingShuffle false s').

(** [startRound()], lines 93-126. *)
Definition startRound (s : State) : option State :=
  s1 ← assignRoles (set_currentRound (currentRound s + 1) s);
  let s2 := set_awaitingShuffle true s1 in
  scoreboard ← scoreboard_of s2;
  let s3 := emit_each (currentPlayers s2)
              (rolesAssigned (currentRound s2) MAX_ROUNDS scoreboard (history s2)) s2 in
  policeId ← find_role Police s3;
  match policeId with
  | Some pid =>
      if truthy pid then
        suspects ← filterM (λ i,
            if bool_decide (i ≠ pid)
            then p ← players s3 !! i; Some (bool_decide (role p ≠ Some Babu))
            else Some false) (currentPlayers s3);
        rows ← mapM (λ i, p ← players s3 !! i; Some (i, name p)) suspects;
        Some (emit (Some pid) (policeTurn (guessTarget_of s3) rows) s3)
      else Some s3
  | None => Some s3
  end.

(** The [gains] object of [resolveRound].  [gains[k] += v] on a key that was
    never initialised would store [NaN] under that key; such a key is not a
    current player and is never read, so the model leaves it absent. *)
Definition add_gain (k : option string) (v : Z) (g : gmap string Z)
    : gmap string Z :=
  alter (Z.add v) (key_of k) g.

Definition gain_of (g : gmap string Z) (i : string) : Z := default 0 (g !! i).

(** The winners of [gameOver]: the names of the current players whose score
    is [Math.max] of all scores. *)
Definition winners_of (s : State) : option (list string) :=
  scores ← mapM (λ i, score <$> players s !! i) (currentPlayers s);
  ws ← filterM (λ i, p ← players s !! i;
                     Some (bool_decide (Some (score p) = max_list scores)))
         (currentPlayers s);
  mapM (λ i, name <$> players s !! i) ws.

(** [resolveRound(policeId, guessedId)], lines 137-254. *)
Definition resolveRound (policeId guessedId : string) (s : State)
    : option State :=
  let guessTarget := guessTarget_of s in
  let policePlayer := players s !! policeId in
  chorId ← find_role Chor s;
  dakatId ← find_role Dakat s;
  let gains0 : gmap string Z :=
    foldl (λ g i, <[i := 0]> g) ∅ (currentPlayers s) in
  babuId ← find_role Babu s;
  let gains1 :=
    match babuId with
    | Some b => <[b := rolePoints Babu]> gains0
    | None => gains0
    end in
  '(ok, msg, gains2) ←
    match guessTarget with
    | Chor =>
        if decide (Some guessedId = chorId) then
          pp ← policePlayer; cp ← players s !! key_of chorId;
          Some (true,
                name pp +:+ " guessed correctly: " +:+ name cp +:+ " is the Chor.",
                add_gain dakatId (rolePoints Dakat)
                  (add_gain (Some policeId) (rolePoints Police) gains1))
        else
          pp ← policePlayer; cp ← players s !! key_of chorId;
          dp ← players s !! key_of dakatId;
          Some (false,
                name pp +:+ " guessed incorrectly. " +:+ name cp
                  +:+ " was the Chor, and " +:+ name dp +:+ " was the Dakat.",
                add_gain chorId (rolePoints Chor)
                  (add_gain dakatId (rolePoints Dakat) gains1))
    | _ =>
        if decide (Some guessedId = dakatId) then
          pp ← policePlayer; dp ← players s !! key_of dakatId;
          Some (true,
                name pp +:+ " guessed correctly: " +:+ name dp +:+ " is the Dakat.",
                add_gain chorId (rolePoints Chor)
                  (add_gain (Some policeId) (rolePoints Police) gains1))
        else
          pp ← policePlayer; dp ← players s !! key_of dakatId;
          cp ← players s !! key_of chorId;
          Some (false,
                name pp +:+ " guessed incorrectly. " +:+ name dp
                  +:+ " was the Dakat, and " +:+ name cp +:+ " was the Chor.",
                add_gain chorId (rolePoints Chor)
                  (add_gain dakatId (rolePoints Dakat) gains1))
    end;
  (* apply the gains to the cumulative scores, the Babu excepted *)
  s1 ← forEach (λ i st,
          p ← players st !! i;
          if decide (role p ≠ Some Babu)
          then modify_player i (add_score (gain_of gains2 i)) st
          else Some st)
        (currentPlayers s) s;
  entry_gains ← mapM (λ i, p ← players s1 !! i;
                           Some (mkGain i (name p) (gain_of gains2 i)))
                  (currentPlayers s1);
  let s2 := set_history
              (history s1 ++ [mkHistoryEntry (currentRound s1) msg entry_gains ok]) s1 in
  scoreboard ← scoreboard_of s2;
  s3 ← forEach (λ i st,
          pp ← policePlayer; cp ← players st !! key_of chorId;
          dp ← players st !! key_of dakatId;
          Some (emit (Some i)
                  (roundResult (mkRoundResult (currentRound st) ok msg scoreboard
                     (history st) guessTarget (name pp) (name cp) (name dp))) st))
        (currentPlayers s2) s2;
  if bool_decide (MAX_ROUNDS ≤ currentRound s3) then
    winners ← winners_of s3;
    Some (set_awaitingShuffle false
            (emit_each (currentPlayers s3)
               (gameOver winners scoreboard (history s3)) s3))
  else
    Some (emit_each (currentPlayers s3) enableShuffle
            (set_awaitingShuffle false s3)).

(** ** The socket handlers, lines 257-383 *)

(** [io.on('connection', socket => ...)]. *)
Definition connection (sid : string) (s : State) : option State :=
  let s1 := set_players (<[sid := mkPlayer sid "" 0 None 0]> (players s)) s in
  let s2 := set_waiting (waiting s1 ++ [sid]) s1 in
  names ← lobby_names s2;
  Some (emit None (updatePlayers names) s2).

(** [socket.on('join', name => ...)]; the payload is a string. *)
Definition join (sid : string) (nm : string) (s : State) : option State :=
  if negb (truthy nm) then Some s else
  s1 ← modify_player sid (λ p,
          mkPlayer (id p) (trim nm) (score p) (role p) (pending p)) s;
  names ← lobby_names s1;
  let s2 := emit None (updatePlayers names) s1 in
  ready ← filterM (λ i, p ← players s2 !! i; Some (truthy (name p))) (waiting s2);
  if negb (gameStarted s2) && bool_decide (4 ≤ length ready)%nat then
    let cur := take 4 ready in
    let s3 := set_currentPlayers cur s2 in
    let s4 := set_waiting (List.filter (λ i, negb (includes cur i)) (waiting s3)) s3 in
    let s5 := set_awaitingShuffle false
                (set_history [] (set_currentRound 0 (set_gameStarted true s4))) in
    s6 ← forEach (λ i st, modify_player i clear_player st) (currentPlayers s5) s5;
    Some (emit_each (currentPlayers s6) enableShuffle s6)
  else Some s2.

(** [socket.on('shuffle', () => ...)]. *)
Definition shuffle (sid : string) (s : State) : option State :=
  if negb (gameStarted s) || awaitingShuffle s
     || negb (includes (currentPlayers s) sid)
  then Some s
  else startRound s.

(** The payload of a [guess] event: an object with an optional [id] and an
    optional [name], both strings.  [None] is a missing payload or field. *)
Record GuessData := mkGuessData { g_id : option string; g_name : option string }.

(** [socket.on('guess', data => ...)]. *)
Definition guess (sid : string) (data : option GuessData) (s : State)
    : option State :=
  if negb (gameStarted s) || negb (awaitingShuffle s) then Some s else
  let policeId := sid in
  pp ← players s !! policeId;
  if decide (role pp ≠ Some Police) then Some s else
  targetId ←
    match data ≫= g_id with
    | Some i =>
        if truthy i && includes (currentPlayers s) i then Some (Some i)
        else
          match data ≫= g_name with
          | Some n =>
              if truthy n then
                findM (λ j, p ← players s !! j; Some (bool_decide (name p = n)))
                  (currentPlayers s)
              else Some None
          | None => Some None
          end
    | None =>
        match data ≫= g_name with
        | Some n =>
            if truthy n then
              findM (λ j, p ← players s !! j; Some (bool_decide (name p = n)))
                (currentPlayers s)
            else Some None
        | None => Some None
        end
    end;
  match targetId with
  | Some t => if truthy t then resolveRound policeId t s else Some s
  | None => Some s
  end.

(** [socket.on('disconnect', () => ...)]. *)
Definition disconnect (sid : string) (s : State) : option State :=
  if includes (waiting s) sid then
    let s1 := set_waiting (filter (λ i, i ≠ sid) (waiting s)) s in
    let s2 := set_players (delete sid (players s1)) s1 in
    names ← lobby_names s2;
    Some (emit None (updatePlayers names) s2)
  else if includes (currentPlayers s) sid then
    let s1 := set_currentPlayers
                (filter (λ i, i ≠ sid) (currentPlayers s)) s in
    let s2 := set_gameStarted false
                (set_awaitingShuffle false (set_currentRound 0 (set_history [] s1))) in
    s3 ← forEach (λ i st, modify_player i clear_player st) (currentPlayers s2) s2;
    let s4 := set_waiting (waiting s3 ++ currentPlayers s3) s3 in
    leaver ← players s4 !! sid;
    let s5 := emit None
                (playerLeft ((if truthy (name leaver) then name leaver else "A player")
                             +:+ " left. Game reset.")) s4 in
    names ← lobby_names s5;
    let s6 := emit None (updatePlayers names) s5 in
    Some (set_players (delete sid (players s6)) s6)
  else
    let s1 := set_players (delete sid (players s)) s in
    names ← lobby_names s1;
    Some (emit None (updatePlayers names) s1).

(** [socket.on('restart', () => ...)]. *)
Definition restart (sid : string) (s : State) : option State :=
  if bool_decide (length (currentPlayers s) = 0%nat) then Some s else
  let s1 := set_waiting (waiting s ++ currentPlayers s) s in
  s2 ← forEach (λ i st, modify_player i clear_player st) (currentPlayers s1) s1;
  let s3 := set_gameStarted false
              (set_awaitingShuffle false
                 (set_currentRound 0 (set_history [] (set_currentPlayers [] s2)))) in
  let s4 := emit None gameReset s3 in
  names ← lobby_names s4;
  Some (emit None (updatePlayers names) s4).

(** ** Inbound events and runs *)

Inductive Input :=
| Connect (sid : string)
| Join (sid : string) (nm : string)
| Shuffle (sid : string)
| Guess (sid : string) (data : option GuessData)
| Disconnect (sid : string)
| Restart (sid : string).

Definition handle (i : Input) (s : State) : option State :=
  match i with
  | Connect sid => connection sid s
  | Join sid nm => join sid nm s
  | Shuffle sid => shuffle sid s
  | Guess sid data => guess sid data s
  | Disconnect sid => disconnect sid s
  | Restart sid => restart sid s
  end.

Definition run (inputs : list Input) (s : State) : option State :=
  forEach handle inputs s.

End with_engine.

(** A state is reachable when a run of the server from its start leads to it. *)
Definition reachable (engine : SortPlan) (s : State) : Prop :=
  ∃ rnd inputs, run engine inputs (init rnd) = Some s.

Definition score_of (s : State) (i : string) : option Z := score <$> players s !! i.
Definition role_of (s : State) (i : string) : option Role := players s !! i ≫= role.

End Parity.

(** * src/server/index.js: the simplest variant *)

(** ** A JavaScript object used as an ordered map

    [resetGame] rebuilds the waiting queue from [Object.keys(players)], whose
    order is the order in which the keys were first inserted (socket ids are
    not integer-like keys), so [players] is kept as an association list in
    insertion order. *)

Fixpoint obj_get {V} (o : list (string * V)) (k : string) : option V :=
  match o with
  | [] => None
  | (k', v) :: o' => if decide (k = k') then Some v else obj_get o' k
  end.

(** [o[k] = v]: an existing key keeps its place, a new key goes last. *)
Fixpoint obj_set {V} (k : string) (v : V) (o : list (string * V))
    : list (string * V) :=
  match o with
  | [] => [(k, v)]
  | (k', v') :: o' =>
      if decide (k = k') then (k, v) :: o' else (k', v') :: obj_set k v o'
  end.

(** [delete o[k]]. *)
Fixpoint obj_delete {V} (k : string) (o : list (string * V))
    : list (string * V) :=
  match o with
  | [] => []
  | (k', v') :: o' =>
      if decide (k = k') then obj_delete k o' else (k', v') :: obj_delete k o'
  end.

Definition obj_keys {V} (o : list (string * V)) : list string := o.*1.

Module Simple.

Definition MAX_ROUNDS : Z := 10.

Definition ROLE_POINTS (r : Role) : Z :=
  match r with
  | Babu => 1000
  | Police => 500
  | Dakat => 300
  | Chor => 0
  end.

(** The role array of this variant, in its own order. *)
Definition ROLES : list Role := [Babu; Police; Dakat; Chor].

(** An entry of [players]; [None] is [null]. *)
Record Player := mkPlayer {
  id : string;
  name : option string;
  score : Z;
  role : option Role
}.

(** A row of the scoreboard: [{ id, name, score }] in [roleAssigned],
    [{ id, name, role, score }] in [roundResult] and [gameOver]. *)
Record ScoreRow := mkScoreRow {
  row_id : string;
  row_name : option string;
  row_score : Z
}.

Record ResultRow := mkResultRow {
  res_id : string;
  res_name : option string;
  res_role : option Role;
  res_score : Z
}.

Inductive Event :=
| waitingList (names : list (string * option string))
| roleAssigned (r : option Role) (rnd maxRounds : Z) (scores : list ScoreRow)
| requestGuess (targets : list (string * option string))
| roundResult (message : string) (correct : bool) (scores : list ResultRow)
| gameOver (winners : list (option string)) (scores : list ResultRow)
| playerLeft (message : string)
| gameReset.

Record Emit := mkEmit { to : option string; event : Event }.

(** The two callbacks the server hands to [setTimeout]. *)
Inductive Timer :=
| FirstRound   (* [() => startRound()], 1000 ms after the game is formed *)
| NextRound.   (* the cooldown callback of [handleGuess], 4000 ms *)

(** The module-level variables, the clock in milliseconds with the pending
    timers (sorted by due time, earlier calls first among equal due times),
    the randomness source and the log of notifications sent. *)
Record State := mkState {
  players : list (string * Player);
  waitingQueue : list string;
  gameInProgress : bool;
  currentRound : Z;
  currentPlayers : list string;
  now : Z;
  timers : list (Z * Timer);
  rand : nat → Z;
  cursor : nat;
  out : list Emit
}.

Definition set_players (v : list (string * Player)) (s : State) : State :=
  mkState v (waitingQueue s) (gameInProgress s) (currentRound s)
    (currentPlayers s) (now s) (timers s) (rand s) (cursor s) (out s).
Definition set_waitingQueue (v : list string) (s : State) : State :=
  mkState (players s) v (gameInProgress s) (currentRound s)
    (currentPlayers s) (now s) (timers s) (rand s) (cursor s) (out s).
Definition set_gameInProgress (v : bool) (s : State) : State :=
  mkState (players s) (waitingQueue s) v (currentRound s)
    (currentPlayers s) (now s) (timers s) (rand s) (cursor s) (out s).
Definition set_currentRound (v : Z) (s : State) : State :=
  mkState (players s) (waitingQueue s) (gameInProgress s) v
    (currentPlayers s) (now s) (timers s) (rand s) (cursor s) (out s).
Definition set_currentPlayers (v : list string) (s : State) : State :=
  mkState (players s) (waitingQueue s) (gameInProgress s) (currentRound s)
    v (now s) (timers s) (rand s) (cursor s) (out s).
Definition set_now (v : Z) (s : State) : State :=
  mkState (players s) (waitingQueue s) (gameInProgress s) (currentRound s)
    (currentPlayers s) v (timers s) (rand s) (cursor s) (out s).
Definition set_timers (v : list (Z * Timer)) (s : State) : State :=
  mkState (players s) (waitingQueue s) (gameInProgress s) (currentRound s)
    (currentPlayers s) (now s) v (rand s) (cursor s) (out s).
Definition set_cursor (v : nat) (s : State) : State :=
  mkState (players s) (waitingQueue s) (gameInProgress s) (currentRound s)
    (currentPlayers s) (now s) (timers s) (rand s) v (out s).
Definition set_out (v : list Emit) (s : State) : State :=
  mkState (players s) (waitingQueue s) (gameInProgress s) (currentRound s)
    (currentPlayers s) (now s) (timers s) (rand s) (cursor s) v.

Definition init (rnd : nat → Z) : State :=
  mkState [] [] false 0 [] 0 [] rnd 0 [].

Definition modify_player (i : string) (f : Player → Player) (s : State)
    : option State :=
  p ← obj_get (players s) i; Some (set_players (obj_set i (f p) (players s)) s).

Definition emit (recipient : option string) (e : Event) (s : State) : State :=
  set_out (out s ++ [mkEmit recipient e]) s.

Definition emit_each (ids : list string) (e : Event) (s : State) : State :=
  foldl (λ st i, emit (Some i) e st) s ids.

Definition key_of (i : option string) : string := default "undefined" i.

(** Truthiness of a name: [null] and the empty string are falsy. *)
Definition named (n : option string) : bool :=
  match n with Some x => truthy x | None => false end.

(** A value inside a template literal. *)
Definition show_name (n : option string) : string := default "null" n.
Definition show_role (r : option Role) : string :=
  match r with Some x => role_name x | None => "null" end.

(** [setTimeout(cb, delay)]. *)
Fixpoint schedule (due : Z) (cb : Timer) (ts : list (Z * Timer))
    : list (Z * Timer) :=
  match ts with
  | [] => [(due, cb)]
  | (d, c) :: ts' =>
      if bool_decide (d ≤ due) then (d, c) :: schedule due cb ts'
      else (due, cb) :: ts
  end.

Definition setTimeout (cb : Timer) (delay : Z) (s : State) : State :=
  set_timers (schedule (now s + delay) cb (timers s)) s.

(** The body of the loop of [assignRoles]: the role is stored and its points
    are added to the score. *)
Definition assign_role (r : Role) (p : Player) : Player :=
  mkPlayer (id p) (name p) (score p + ROLE_POINTS r) (Some r).

(** [p.score += v]. *)
Definition add_score (v : Z) (p : Player) : Player :=
  mkPlayer (id p) (name p) (score p + v) (role p).

(** [p.role = null]. *)
Definition clear_role (p : Player) : Player :=
  mkPlayer (id p) (name p) (score p) None.

Section with_engine.
Variable engine : SortPlan.

(** [assignRoles()], lines 61-73 (the returned [assignments] object is not
    used by the caller).  As in the other variant, the model stops at a
    fifth current player. *)
Definition assignRoles (s : State) : option State :=
  let '(shuffled, c) :=
    run_plan engine half_minus_random (rand s) (cursor s) ROLES in
  forEachIdx (λ i idx st, r ← shuffled !! idx; modify_player i (assign_role r) st)
    0 (currentPlayers s) (set_cursor c s).

(** [resetGame()], lines 78-88. *)
Definition resetGame (s : State) : State :=
  let s1 := set_currentPlayers [] (set_currentRound 0 (set_gameInProgress false s)) in
  let s2 := set_waitingQueue (obj_keys (players s1)) s1 in
  let s3 := set_players (prod_map (λ k, k) clear_role <$> players s2) s2 in
  emit None gameReset s3.

(** [startRound()], lines 93-121.  [players[policeId]] with an undefined
    [policeId] reads the key ["undefined"], which no socket id equals. *)
Definition startRound (s : State) : option State :=
  s1 ← assignRoles (set_currentRound (currentRound s + 1) s);
  s2 ← forEach (λ i st,
          player ← obj_get (players st) i;
          scoreBoard ← mapM (λ pid, p ← obj_get (players st) pid;
                                    Some (mkScoreRow pid (name p) (score p)))
                         (currentPlayers st);
          Some (emit (Some i)
                  (roleAssigned (role player) (currentRound st) MAX_ROUNDS scoreBoard)
                  st))
        (currentPlayers s1) s1;
  policeId ← findM (λ i, p ← obj_get (players s2) i;
                         Some (bool_decide (role p = Some Police)))
               (currentPlayers s2);
  match obj_get (players s2) (key_of policeId) with
  | Some police =>
      targets ← mapM (λ i, p ← obj_get (players s2) i; Some (i, name p))
                 (List.filter (λ i, negb (bool_decide (Some i = policeId)))
                    (currentPlayers s2));
      Some (emit (Some (key_of policeId)) (requestGuess targets) s2)
  | None => Some s2
  end.

(** [handleGuess(policeId, guessedId)], lines 131-192.  [policePlayer] and
    [guessedPlayer] are references into [players]: when both ids are the
    same, the two score updates hit the same entry. *)
Definition handleGuess (policeId guessedId : string) (s : State)
    : option State :=
  match obj_get (players s) guessedId, obj_get (players s) policeId with
  | Some guessedPlayer, Some policePlayer =>
      '(ok, resultMessage, s1) ←
        (if decide (role guessedPlayer = Some Chor) then
           Some (true,
                 show_name (name policePlayer) +:+ " correctly guessed that "
                   +:+ show_name (name guessedPlayer) +:+ " is the Chor.",
                 s)
         else
           let pointsToTransfer := ROLE_POINTS Police in
           sa ← modify_player policeId (add_score (- pointsToTransfer)) s;
           sb ← modify_player guessedId (add_score pointsToTransfer) sa;
           Some (false,
                 show_name (name policePlayer) +:+ " guessed incorrectly; "
                   +:+ show_name (name guessedPlayer) +:+ " was the "
                   +:+ show_role (role guessedPlayer) +:+ ".",
                 sb));
      scoreBoard ← mapM (λ pid, p ← obj_get (players s1) pid;
                                Some (mkResultRow pid (name p) (role p) (score p)))
                     (currentPlayers s1);
      let s2 := emit_each (currentPlayers s1)
                  (roundResult resultMessage ok scoreBoard) s1 in
      if bool_decide (currentRound s2 < MAX_ROUNDS) then
        Some (setTimeout NextRound 4000 s2)
      else
        let s3 := set_gameInProgress false s2 in
        scores ← mapM (λ i, score <$> obj_get (players s3) i) (currentPlayers s3);
        winners ← filterM (λ i, p ← obj_get (players s3) i;
                                Some (bool_decide (Some (score p) = max_list scores)))
                    (currentPlayers s3);
        winnerNames ← mapM (λ i, name <$> obj_get (players s3) i) winners;
        Some (resetGame (emit_each (currentPlayers s3)
                           (gameOver winnerNames scoreBoard) s3))
  | _, _ => Some s
  end.

(** The cooldown callback, lines 166-172. *)
Definition nextRound (s : State) : option State :=
  s1 ← forEach (λ i st, modify_player i clear_role st) (currentPlayers s) s;
  startRound s1.

Definition fire (cb : Timer) (s : State) : option State :=
  match cb with
  | FirstRound => startRound s
  | NextRound => nextRound s
  end.

(** ** The socket handlers, lines 194-269 *)

(** [io.on('connection', socket => ...)]. *)
Definition connection (sid : string) (s : State) : option State :=
  let s1 := set_players (obj_set sid (mkPlayer sid None 0 None) (players s)) s in
  Some (set_waitingQueue (waitingQueue s1 ++ [sid]) s1).

(** [socket.on('joinGame', name => ...)]; the payload is a string. *)
Definition joinGame (sid : string) (nm : string) (s : State) : option State :=
  if negb (bool_decide (0 < String.length (trim nm))%nat) then Some s else
  s1 ← modify_player sid (λ p,
          mkPlayer (id p) (Some (trim nm)) (score p) (role p)) s;
  rows ← mapM (λ i, p ← obj_get (players s1) i; Some (i, name p)) (waitingQueue s1);
  let waitingNames := List.filter (λ r, named r.2) rows in
  let s2 := foldl (λ st r, emit (Some r.1) (waitingList waitingNames) st) s1
              waitingNames in
  if negb (gameInProgress s2) then
    readyPlayers ← filterM (λ i, p ← obj_get (players s2) i; Some (named (name p)))
                     (waitingQueue s2);
    if bool_decide (4 ≤ length readyPlayers)%nat then
      let cur := take 4 readyPlayers in
      let s3 := set_currentPlayers cur s2 in
      let s4 := set_waitingQueue
                  (List.filter (λ i, negb (includes cur i)) (waitingQueue s3)) s3 in
      Some (setTimeout FirstRound 1000
              (set_currentRound 0 (set_gameInProgress true s4)))
    else Some s2
  else Some s2.

(** [socket.on('guess', guessedId => ...)]; the payload is a string. *)
Definition guess (sid : string) (guessedId : string) (s : State)
    : option State :=
  if negb (gameInProgress s) then Some s else
  let policeId := sid in
  match obj_get (players s) policeId with
  | Some p =>
      if decide (role p = Some Police) then
        if includes (currentPlayers s) guessedId
        then handleGuess policeId guessedId s
        else Some s
      else Some s
  | None => Some s
  end.

(** [socket.on('disconnect', () => ...)]. *)
Definition disconnect (sid : string) (s : State) : option State :=
  let wasCurrent := includes (currentPlayers s) sid in
  let s1 := set_players (obj_delete sid (players s)) s in
  let s2 := set_waitingQueue
              (filter (λ i, i ≠ sid) (waitingQueue s1)) s1 in
  let s3 := set_currentPlayers
              (filter (λ i, i ≠ sid) (currentPlayers s2)) s2 in
  if wasCurrent then
    Some (resetGame
            (emit_each (currentPlayers s3)
               (playerLeft "A player left the game. The game has been reset.") s3))
  else Some s3.

(** Time passes: the clock advances by [ms] and the timers that fall due
    run, in the order of their due times. *)
Fixpoint fire_due (t : Z) (ts : list (Z * Timer)) (s : State) : option State :=
  match ts with
  | [] => Some s
  | (d, cb) :: ts' =>
      if bool_decide (d ≤ t)
      then s' ← fire cb (set_timers ts' s); fire_due t ts' s'
      else Some s
  end.

Definition elapse (ms : Z) (s : State) : option State :=
  let t := now s + ms in
  s' ← fire_due t (timers s) s; Some (set_now t s').

(** ** Inbound events and runs *)

Inductive Input :=
| Connect (sid : string)
| JoinGame (sid : string) (nm : string)
| Guess (sid : string) (guessedId : string)
| Disconnect (sid : string)
| Elapse (ms : Z).

Definition handle (i : Input) (s : State) : option State :=
  match i with
  | Connect sid => connection sid s
  | JoinGame sid nm => joinGame sid nm s
  | Guess sid g => guess sid g s
  | Disconnect sid => disconnect sid s
  | Elapse ms => elapse ms s
  end.

Definition run (inputs : list Input) (s : State) : option State :=
  forEach handle inputs s.

End with_engine.

Definition score_of (s : State) (i : string) : option Z :=
  score <$> obj_get (players s) i.
Definition role_of (s : State) (i : string) : option Role :=
  obj_get (players s) i ≫= role.

End Simple.

(** * The role bijection

    [onto_roles roster role_of]: the participants of [roster] are distinct,
    every one of them holds a role, and every role has exactly one holder
    among them. *)
Definition onto_roles (roster : list string) (role_of : string → option Role)
    : Prop :=
  NoDup roster
  ∧ (∀ i, i ∈ roster → is_Some (role_of i))
  ∧ (∀ r : Role, ∃ i, i ∈ roster ∧ role_of i = Some r
                     ∧ ∀ j, j ∈ roster → role_of j = Some r → j = i).

(** * Vocabulary of the statements

    The predicates, closed forms and example runs the theorems are stated
    with. *)

(** The 24 arrangements of the role array. *)
Definition all_shuffles : list (list Role) :=
  Eval vm_compute in permutations ROLES.

Module ParitySpec.
Import Parity.

(** Four distinct, registered players sit at the table. *)
Record Table (s : State) (a b c d : string) (pa pb pc pd : Player) : Prop := {
  table_roster : currentPlayers s = [a; b; c; d];
  table_distinct : NoDup [a; b; c; d];
  table_a : players s !! a = Some pa;
  table_b : players s !! b = Some pb;
  table_c : players s !! c = Some pc;
  table_d : players s !! d = Some pd
}.

(** Each role has its holder among the current players. *)
Record Seated (s : State) (babu police chor dakat : string) : Prop := {
  seated_roster : currentPlayers s ≡ₚ [babu; police; chor; dakat];
  seated_distinct : NoDup [babu; police; chor; dakat];
  seated_babu : role_of s babu = Some Babu;
  seated_police : role_of s police = Some Police;
  seated_chor : role_of s chor = Some Chor;
  seated_dakat : role_of s dakat = Some Dakat
}.

(** The id that sits at the slot of role [r]. *)
Fixpoint holder (r : Role) (rs : list Role) (ids : list string) : string :=
  match rs, ids with
  | r' :: rs', i :: ids' => if decide (r = r') then i else holder r rs' ids'
  | _, _ => ""
  end.

(** What [resolveRound] computes, in closed form: the entries of the gains
    table and the players after the gains are applied. *)
Definition gains_table (s : State) (babu police chor dakat t : string)
    : gmap string Z :=
  let g1 := <[babu := rolePoints Babu]>
              (foldl (λ g i, <[i := 0]> g) ∅ (currentPlayers s)) in
  match guessTarget_of s with
  | Chor =>
      if decide (t = chor)
      then add_gain (Some dakat) (rolePoints Dakat)
             (add_gain (Some police) (rolePoints Police) g1)
      else add_gain (Some chor) (rolePoints Chor)
             (add_gain (Some dakat) (rolePoints Dakat) g1)
  | _ =>
      if decide (t = dakat)
      then add_gain (Some chor) (rolePoints Chor)
             (add_gain (Some police) (rolePoints Police) g1)
      else add_gain (Some chor) (rolePoints Chor)
             (add_gain (Some dakat) (rolePoints Dakat) g1)
  end.

(** The player whom the Police must name this round. *)
Definition wanted (s : State) (chor dakat : string) : string :=
  match guessTarget_of s with Chor => chor | _ => dakat end.

(** One step of the loop that applies the gains: the Babu is skipped. *)
Definition apply_gain (g : gmap string Z) (i : string) (q : Player) : Player :=
  if decide (role q ≠ Some Babu) then add_score (gain_of g i) q else q.

(** [players[i].name]; the empty string when [i] is not registered. *)
Definition name_of (s : State) (i : string) : string :=
  default "" (name <$> players s !! i).

(** The points the round brings to player [i], as recorded in the history. *)
Definition round_gain (s : State) (babu police chor dakat t i : string) : Z :=
  let ok := bool_decide (t = wanted s chor dakat) in
  if decide (i = babu) then rolePoints Babu
  else if decide (i = police) then (if ok then rolePoints Police else 0)
  else if decide (i = chor) then
    (if ok && bool_decide (guessTarget_of s = Chor) then 0 else rolePoints Chor)
  else if decide (i = dakat) then
    (if ok && bool_decide (guessTarget_of s = Dakat) then 0 else rolePoints Dakat)
  else 0.

(** The payload [data] of a guess designates the current player [t]: by its
    [id] field, or else by the [name] fallback, which picks the first current
    player of that name. *)
Definition designates (s : State) (data : GuessData) (t : string) : Prop :=
  (g_id data = Some t ∧ t ∈ currentPlayers s)
  ∨ ((g_id data = None
      ∨ ∃ i, g_id data = Some i ∧ (i = "" ∨ i ∉ currentPlayers s))
     ∧ ∃ n l1 l2, g_name data = Some n ∧ n ≠ ""
         ∧ currentPlayers s = l1 ++ t :: l2
         ∧ name_of s t = n ∧ ∀ j, j ∈ l1 → name_of s j ≠ n).

(** The run of the server used to instantiate the theorems: every draw is
    0, so the comparator is always negative and insertion sort leaves the
    role array as it is. *)
Definition calm : nat → Z := λ _, 0.

Definition four_join : list Input :=
  [Connect "a"; Connect "b"; Connect "c"; Connect "d";
   Join "a" "Ann"; Join "b" "Bob"; Join "c" "Cy"; Join "d" "Dee"].

(** The game is formed and waits for the first shuffle. *)
Definition four_ready : State :=
  default (init calm) (run insertion_plan four_join (init calm)).

(** Round 1 awaits its guess: ["a"] is the Babu, ["b"] the Police, ["c"] the
    Chor and ["d"] the Dakat. *)
Definition four_seated : State :=
  default (init calm) (run insertion_plan (four_join ++ [Shuffle "a"]) (init calm)).

(** The Police ["b"] names ["c"]. *)
Definition guess_c : Input := Guess "b" (Some (mkGuessData (Some "c") None)).

(** Ten rounds of the example run: ["a"] shuffles, the Police ["b"] names
    ["c"]. *)
Definition ten_rounds : list Input :=
  four_join ++ mjoin (replicate 10 [Shuffle "a"; guess_c]).

(** The game is over: [gameOver] has been sent. *)
Definition after_ten_rounds : State :=
  default (init calm) (run insertion_plan ten_rounds (init calm)).

(** One more [shuffle] after the game is over. *)
Definition eleventh_round : State :=
  default (init calm) (run insertion_plan (ten_rounds ++ [Shuffle "a"]) (init calm)).

(** A roster on which one player sits twice: the first and the last seat
    belong to [b]. *)
Record DoubleSeat (s : State) (b c d : string) (pb pc pd : Player) : Prop := {
  double_roster : currentPlayers s = [b; c; d; b];
  double_distinct : NoDup [b; c; d];
  double_b : players s !! b = Some pb;
  double_c : players s !! c = Some pc;
  double_d : players s !! d = Some pd
}.

(** The run that seats a player twice: a game of four is formed, ["a"]
    leaves, ["b"] asks for a restart and joins again. *)
Definition reseat : list Input :=
  four_join ++ [Disconnect "a"; Restart "b"; Join "b" "Bob"].

(** The state after [reseat].  No round has started yet: neither the engine
    nor the draws have played a part. *)
Definition double_seated (rnd : nat → Z) : State :=
  default (init rnd) (run Done reseat (init rnd)).

(** Draws on which the comparator of src/server.js is always zero, and
    draws on which it is always positive. *)
Definition steady : nat → Z := λ _, HALF.
Definition stormy : nat → Z := λ _, HALF + 1.

(** Round 1 on the double seat when the sort leaves the role array as it
    is: ["b"] is dealt the Babu at the first seat and the Dakat at the last. *)
Definition babu_lost : State :=
  default (init calm) (run insertion_plan (reseat ++ [Shuffle "b"]) (init calm)).

(** The Police ["c"] names ["b"]. *)
Definition guess_b : Input := Guess "c" (Some (mkGuessData (Some "b") None)).

Definition babu_lost_resolved : State :=
  default (init calm)
    (run insertion_plan (reseat ++ [Shuffle "b"; guess_b]) (init calm)).

(** Round 1 on the double seat when the sort reverses the role array:
    ["b"] is dealt the Dakat at the first seat and the Babu at the last. *)
Definition dakat_lost : State :=
  default (init stormy)
    (run insertion_plan (reseat ++ [Shuffle "b"]) (init stormy)).

(** What a run shows of the server: the state without the source of draws. *)
Definition shown (s : State) :=
  (players s, waiting s, currentPlayers s, gameStarted s, awaitingShuffle s,
   currentRound s, history s, out s).

(** Two players of the game leave in turn: the second one is removed from
    [players] but stays in [currentPlayers]. *)
Definition two_left : State :=
  default (init calm)
    (run insertion_plan (four_join ++ [Disconnect "a"; Disconnect "b"]) (init calm)).

(** A player of the game has left: the three others are in [waiting] and
    in [currentPlayers]. *)
Definition one_left : State :=
  default (init calm)
    (run insertion_plan (four_join ++ [Disconnect "a"]) (init calm)).

End ParitySpec.

Module SimpleSpec.
Import Simple.

(** Four distinct, registered players sit at the table. *)
Record Table (s : State) (a b c d : string) (pa pb pc pd : Player) : Prop := {
  table_roster : currentPlayers s = [a; b; c; d];
  table_distinct : NoDup [a; b; c; d];
  table_a : obj_get (players s) a = Some pa;
  table_b : obj_get (players s) b = Some pb;
  table_c : obj_get (players s) c = Some pc;
  table_d : obj_get (players s) d = Some pd
}.

(** The message of a wrong guess names the accused and the accused's role. *)
Definition wrong_guess_message (pp gp : Player) : string :=
  show_name (name pp) +:+ " guessed incorrectly; "
    +:+ show_name (name gp) +:+ " was the " +:+ show_role (role gp) +:+ ".".

(** What a wrong guess moves: 500 points to the accused, 500 points away
    from the Police. *)
Definition transfer (policeId guessedId i : string) : Z :=
  (if decide (i = guessedId) then ROLE_POINTS Police else 0)
  - (if decide (i = policeId) then ROLE_POINTS Police else 0).

(** The scoreboard sent with the result: every current player with name,
    role and new score. *)
Definition result_rows (s : State) (policeId guessedId : string)
    : list ResultRow :=
  (λ i, mkResultRow i (default None (name <$> obj_get (players s) i))
          (role_of s i)
          (default 0 (score_of s i) + transfer policeId guessedId i))
    <$> currentPlayers s.

(** The notice the remaining players receive. *)
Definition left_message : string :=
  "A player left the game. The game has been reset.".

(** The runs used to instantiate the theorems: every draw is 0. *)
Definition calm : nat → Z := ParitySpec.calm.

Definition four_join : list Input :=
  [Connect "a"; Connect "b"; Connect "c"; Connect "d";
   JoinGame "a" "Ann"; JoinGame "b" "Bob"; JoinGame "c" "Cy"; JoinGame "d" "Dee"].

(** The state the server reaches on [inputs]. *)
Definition after (inputs : list Input) : State :=
  default (init calm) (run insertion_plan inputs (init calm)).

(** The game is formed; its first round has not started yet. *)
Definition four_ready : State := after four_join.

(** Round 1 is awaiting the guess of the Police.  With every draw 0 the
    comparator of this variant is always positive and insertion sort
    reverses the role array: ["a"] is the Chor, ["b"] the Dakat, ["c"] the
    Police and ["d"] the Babu. *)
Definition round_one : State := after (four_join ++ [Elapse 1000]).

(** What a run shows of the server: the state without the source of draws. *)
Definition shown (s : State) :=
  (players s, waitingQueue s, gameInProgress s, currentRound s,
   currentPlayers s, now s, timers s, out s).

(** Draws on which the comparator of src/server/index.js is always
    negative. *)
Definition falling : nat → Z := λ _, HALF + 1.

(** An inbound event that a Socket.IO client can cause in state [s]: a
    connection brings a socket id that is not registered yet, and [joinGame]
    comes from a registered socket. *)
Definition admissible (s : State) (i : Input) : bool :=
  match i with
  | Connect sid => bool_decide (obj_get (players s) sid = None)
  | JoinGame sid _ => bool_decide (is_Some (obj_get (players s) sid))
  | _ => true
  end.

(** Every event of the run is admissible in the state in which it arrives. *)
Fixpoint admissible_run (engine : SortPlan) (inputs : list Input) (s : State)
    : bool :=
  match inputs with
  | [] => true
  | i :: rest =>
      admissible s i
      && match handle engine i s with
         | Some s' => admissible_run engine rest s'
         | None => true
         end
  end.

(** The registered sockets are split between the waiting queue and the
    current game, and a game in progress has four players. *)
Record Orderly (s : State) : Prop := {
  orderly_keys : NoDup (obj_keys (players s));
  orderly_split : waitingQueue s ++ currentPlayers s ≡ₚ obj_keys (players s);
  orderly_game : if gameInProgress s then length (currentPlayers s) = 4%nat
                 else currentPlayers s = []
}.

(** Two states with the same sockets, lists and game flag. *)
Definition same_frame (s s' : State) : Prop :=
  obj_keys (players s') = obj_keys (players s)
  ∧ waitingQueue s' = waitingQueue s
  ∧ currentPlayers s' = currentPlayers s
  ∧ gameInProgress s' = gameInProgress s.

(** A run that forms a game, plays a round, loses a player during the
    cooldown and lets the cooldown timer fire. *)
Definition eventful : list Input :=
  four_join ++ [Connect "e"; Elapse 1000; Guess "c" "d"; JoinGame "e" "Eve";
                Disconnect "a"; Elapse 5000].

(** The sum of the scores of the players [ids]. *)
Definition total_score (s : State) (ids : list string) : Z :=
  foldr (λ i acc, default 0 (score_of s i) + acc) 0 ids.

(** The message of a correct guess. *)
Definition correct_guess_message (pp gp : Player) : string :=
  show_name (name pp) +:+ " correctly guessed that "
    +:+ show_name (name gp) +:+ " is the Chor.".

(** What a guess moves: nothing when the accused is the Chor, 500 points
    from the Police to the accused otherwise. *)
Definition guess_delta (s : State) (policeId guessedId i : string) : Z :=
  if decide (role_of s guessedId = Some Chor) then 0
  else transfer policeId guessedId i.

(** The score of [i] once the guess is settled. *)
Definition settled_score (s : State) (policeId guessedId i : string) : Z :=
  default 0 (score_of s i) + guess_delta s policeId guessedId i.

(** The scoreboard sent with the result and with the end of the game. *)
Definition settled_rows (s : State) (policeId guessedId : string)
    : list ResultRow :=
  (λ i, mkResultRow i (default None (name <$> obj_get (players s) i))
          (role_of s i) (settled_score s policeId guessedId i))
    <$> currentPlayers s.

(** A current player whose settled score no current player exceeds. *)
Definition top_scorer (s : State) (policeId guessedId i : string) : Prop :=
  Forall (λ j, settled_score s policeId guessedId j
               ≤ settled_score s policeId guessedId i) (currentPlayers s).

#[global] Instance top_scorer_dec s policeId guessedId i :
  Decision (top_scorer s policeId guessedId i).
Proof. unfold top_scorer. apply _. Defined.

(** Nine rounds of the example run, each settled by a correct guess of the
    Police ["c"]; the tenth round awaits its guess. *)
Definition round_ten : State :=
  after (four_join ++ [Elapse 1000]
           ++ mjoin (replicate 9 [Guess "c" "a"; Elapse 4000])).

End SimpleSpec.

(** * Verification *)

(** ** The helpers on small inputs *)

Example trim_examples :
  trim "  Ann  " = "Ann" ∧ trim " " = "" ∧ trim "a b " = "a b".
Proof. repeat split; by vm_compute. Qed.

(** A no-break space (U+00A0), a line separator (U+2028) and a byte order
    mark (U+FEFF) are trimmed like a blank; a name made of such code points
    only is empty once trimmed. *)
Example trim_unicode_examples :
  let nbsp := String "194" (String "160" "") in
  let ls := String "226" (String "128" (String "168" "")) in
  let bom := String "239" (String "187" (String "191" "")) in
  trim (nbsp +:+ "Ann" +:+ ls) = "Ann"
  ∧ trim (bom +:+ " " +:+ nbsp) = ""
  ∧ trim ("A" +:+ nbsp +:+ "B" +:+ bom) = "A" +:+ nbsp +:+ "B".
Proof. repeat split; by vm_compute. Qed.

(** Insertion sort keeps the array when the comparator is never positive and
    reverses it when the comparator is always positive; it calls the
    comparator 3 times in the first case and 6 times in the second. *)
Example insertion_plan_examples :
  run_plan insertion_plan random_minus_half (λ _, 0) 0 ROLES
    = ([Babu; Police; Chor; Dakat], 3%nat)
  ∧ run_plan insertion_plan random_minus_half (λ _, HALF) 0 ROLES
    = ([Babu; Police; Chor; Dakat], 3%nat)
  ∧ run_plan insertion_plan random_minus_half (λ _, HALF + 1) 0 ROLES
    = ([Dakat; Chor; Police; Babu], 6%nat)
  ∧ run_plan insertion_plan half_minus_random (λ _, 0) 0 Simple.ROLES
    = ([Chor; Dakat; Police; Babu], 6%nat).
Proof. repeat split; by vm_compute. Qed.

(** V8 on four elements: comparisons that are never negative leave the
    array as it is after 3 calls; comparisons that are all negative reverse
    it after 3 calls; a run of two followed by binary insertions takes 6. *)
Example v8_plan_examples :
  run_plan v8_plan random_minus_half (λ _, HALF) 0 ROLES
    = ([Babu; Police; Chor; Dakat], 3%nat)
  ∧ run_plan v8_plan random_minus_half (λ _, 0) 0 ROLES
    = ([Dakat; Chor; Police; Babu], 3%nat)
  ∧ run_plan v8_plan half_minus_random (λ _, HALF + 1) 0 Simple.ROLES
    = ([Chor; Dakat; Police; Babu], 3%nat)
  ∧ run_plan v8_plan random_minus_half
      (tape_fn [0; HALF; 0; 0; HALF; 0]) 0 ROLES
    = ([Chor; Police; Dakat; Babu], 6%nat).
Proof. repeat split; by vm_compute. Qed.

Example schedule_examples :
  Simple.schedule 5000 Simple.NextRound [(3000, Simple.FirstRound)]
    = [(3000, Simple.FirstRound); (5000, Simple.NextRound)]
  ∧ Simple.schedule 5000 Simple.NextRound [(5000, Simple.NextRound)]
    = [(5000, Simple.NextRound); (5000, Simple.NextRound)]
  ∧ Simple.schedule 3000 Simple.FirstRound [(5000, Simple.NextRound)]
    = [(3000, Simple.FirstRound); (5000, Simple.NextRound)].
Proof. repeat split; by vm_compute. Qed.

Example ordered_map_examples :
  obj_keys (obj_set "a" 1 (obj_set "b" 2 (obj_set "a" 0 []))) = ["a"; "b"]
  ∧ obj_get (obj_set "a" 1 (obj_set "b" 2 (obj_set "a" 0 []))) "a" = Some 1
  ∧ obj_keys (obj_set "a" 3 (obj_delete "a" (obj_set "b" 2 (obj_set "a" 0 []))))
    = ["b"; "a"].
Proof. repeat split; by vm_compute. Qed.

(** ** Facts about the engine's sort *)

Section engine_facts.
Context {A : Type} `{EqDecision A}.

Lemma exchange_perm i j (arr : list A) : exchange i j arr ≡ₚ arr.
Proof.
  unfold exchange.
  destruct (arr !! i) as [x|] eqn:Hi; [|done].
  destruct (arr !! j) as [y|] eqn:Hj; [|done].
  by eapply Permutation_insert_swap.
Qed.

(** Whatever the comparator answers, the sorted array holds the elements it
    held before. *)
Lemma run_plan_perm plan cmp rand cursor (arr : list A) :
  (run_plan plan cmp rand cursor arr).1 ≡ₚ arr.
Proof.
  revert cursor arr.
  induction plan as [|i j rest IH|neg IHn zero IHz pos IHp]; intros cursor arr; simpl.
  - done.
  - rewrite IH. apply exchange_perm.
  - destruct (cmp (rand cursor)); auto.
Qed.

(** A plan reads the draws from its cursor onwards only. *)
Lemma run_plan_shift plan cmp rand rand' n cursor (arr : list A) :
  (∀ i, rand' i = rand (i + n)%nat) →
  run_plan plan cmp rand (cursor + n) arr =
  let '(a, c) := run_plan plan cmp rand' cursor arr in (a, (c + n)%nat).
Proof.
  intros Hr. revert cursor arr.
  induction plan as [|i j rest IH|neg IHn zero IHz pos IHp]; intros cursor arr; simpl.
  - done.
  - apply IH.
  - rewrite Hr. destruct (cmp (rand (cursor + n)%nat));
      [apply (IHz (S cursor))|apply (IHn (S cursor))|apply (IHp (S cursor))].
Qed.

Lemma finishes_cons neg zero pos cmp (arr target : list A) k tape :
  finishes (Compare neg zero pos) cmp arr target (k :: tape) =
  finishes (match cmp k with Lt => neg | Eq => zero | Gt => pos end)
    cmp arr target tape.
Proof.
  unfold finishes. simpl. unfold tape_fn at 1. simpl.
  assert (Hs : ∀ q, run_plan q cmp (tape_fn (k :: tape)) 1 arr =
    let '(a, c) := run_plan q cmp (tape_fn tape) 0 arr in (a, S c)).
  { intros q. change 1%nat with (0 + 1)%nat.
    rewrite (run_plan_shift q cmp (tape_fn (k :: tape)) (tape_fn tape) 1 0 arr).
    - destruct (run_plan q cmp (tape_fn tape) 0 arr) as [a c]. f_equal. lia.
    - intros i. unfold tape_fn. by replace (i + 1)%nat with (S i) by lia. }
  destruct (cmp k); rewrite Hs;
    match goal with |- context [run_plan ?q cmp (tape_fn tape) 0 arr] =>
      destruct (run_plan q cmp (tape_fn tape) 0 arr) as [a c] end;
    f_equal; apply bool_decide_ext; lia.
Qed.

Lemma finishes_exchange i j rest cmp (arr target : list A) tape :
  finishes (Exchange i j rest) cmp arr target tape =
  finishes rest cmp (exchange i j arr) target tape.
Proof. done. Qed.

Lemma run_plan_cursor plan cmp rand cursor (arr : list A) :
  (cursor ≤ (run_plan plan cmp rand cursor arr).2)%nat.
Proof.
  revert cursor arr.
  induction plan as [|i j rest IH|neg IHn zero IHz pos IHp]; intros cursor arr; simpl.
  - done.
  - apply IH.
  - destruct (cmp (rand cursor));
      [specialize (IHz (S cursor) arr)|specialize (IHn (S cursor) arr)
      |specialize (IHp (S cursor) arr)]; lia.
Qed.

Lemma finishes_compare_nil neg zero pos cmp (arr target : list A) :
  finishes (Compare neg zero pos) cmp arr target [] = false.
Proof.
  unfold finishes. simpl.
  destruct (cmp (tape_fn [] 0%nat));
    match goal with |- context [run_plan ?q cmp ?r 1 arr] =>
      pose proof (run_plan_cursor q cmp r 1 arr) as Hc;
      destruct (run_plan q cmp r 1 arr) as [a c] end;
    simpl in *; (destruct (bool_decide_reflect (c ≤ 0)%nat); [lia|apply andb_false_r]).
Qed.

Lemma finishes_done cmp (arr target : list A) tape :
  finishes Done cmp arr target tape = bool_decide (arr = target).
Proof.
  unfold finishes. simpl.
  destruct (bool_decide_reflect (0 ≤ length tape)%nat); [apply andb_true_r|lia].
Qed.

End engine_facts.

(** ** The closed form counts the draws *)

Lemma length_filter_fmap {A B} (f : A → B) (P : B → Prop)
    `{!∀ x, Decision (P x)} (l : list A) :
  length (filter P (f <$> l)) = length (filter (λ x, P (f x)) l).
Proof.
  induction l as [|x l IH]; [done|].
  rewrite fmap_cons, !filter_cons. destruct (decide (P (f x))); simpl; auto.
Qed.

Lemma count_sign_total cmp R :
  count_sign cmp R Lt + count_sign cmp R Eq + count_sign cmp R Gt
  = Z.of_nat (length (draws R)).
Proof.
  unfold count_sign. induction (draws R) as [|k ks IH]; [done|].
  rewrite !filter_cons. simpl length.
  destruct (cmp k); repeat case_decide; try done; simpl length; lia.
Qed.

Lemma length_tapes R d :
  Z.of_nat (length (tapes R d)) = Z.of_nat (length (draws R)) ^ Z.of_nat d.
Proof.
  induction d as [|d IH]; [done|].
  rewrite Nat2Z.inj_succ, Z.pow_succ_r by lia. rewrite <- IH.
  change (tapes R (S d)) with (k ← draws R; (cons k <$> tapes R d)).
  clear IH. generalize (tapes R d) as ts. intros ts.
  induction (draws R) as [|k ks IHk]; [done|].
  rewrite bind_cons, length_app, length_fmap, Nat2Z.inj_add, IHk.
  simpl length. lia.
Qed.

Section counting.
Context {A : Type} `{EqDecision A}.
Variable cmp : Z → comparison.
Variable R : Z.
Variable target : list A.

Lemma hits_first_draw neg zero pos d (arr : list A) (ks : list Z) :
  Z.of_nat (length (filter
     (λ t, finishes (Compare neg zero pos) cmp arr target t = true)
     (k ← ks; (cons k <$> tapes R d))))
  = Z.of_nat (length (filter (λ k, cmp k = Lt) ks)) * Z.of_nat (hits R cmp d neg arr target)
    + Z.of_nat (length (filter (λ k, cmp k = Eq) ks)) * Z.of_nat (hits R cmp d zero arr target)
    + Z.of_nat (length (filter (λ k, cmp k = Gt) ks)) * Z.of_nat (hits R cmp d pos arr target).
Proof.
  induction ks as [|k ks IH]; [done|].
  rewrite bind_cons, filter_app, length_app, Nat2Z.inj_add, IH.
  rewrite length_filter_fmap.
  rewrite (list_filter_iff _
    (λ t, finishes (match cmp k with Lt => neg | Eq => zero | Gt => pos end)
            cmp arr target t = true)) by (intros t; by rewrite finishes_cons).
  rewrite !filter_cons. unfold hits.
  destruct (cmp k); repeat case_decide; try done; simpl length; lia.
Qed.

(** [ways] is the number of draw sequences that lead to [target]. *)
Lemma ways_hits d plan (arr : list A) :
  ways (count_sign cmp R Lt) (count_sign cmp R Eq) (count_sign cmp R Gt)
    d plan arr target
  = Z.of_nat (hits R cmp d plan arr target).
Proof.
  revert d arr.
  induction plan as [|i j rest IH|neg IHn zero IHz pos IHp]; intros d arr; simpl.
  - rewrite count_sign_total, <- length_tapes. unfold hits.
    case_decide as Harr.
    + f_equal. induction (tapes R d) as [|t ts IHt]; [done|].
      rewrite filter_cons_True by (rewrite finishes_done; by apply bool_decide_eq_true_2).
      simpl. by rewrite IHt.
    + induction (tapes R d) as [|t ts IHt]; [done|].
      rewrite filter_cons_False; [done|].
      rewrite finishes_done, bool_decide_eq_false_2; done.
  - apply IH.
  - destruct d as [|d].
    + unfold hits. simpl. rewrite filter_cons_False; [done|].
      by rewrite finishes_compare_nil.
    + rewrite IHn, IHz, IHp. unfold hits at 4. simpl tapes.
      by rewrite hits_first_draw.
Qed.

End counting.

(** ** The draws on which the two comparators are negative, zero, positive *)

Lemma length_draws R : 0 ≤ R → Z.of_nat (length (draws R)) = R.
Proof. intros HR. unfold draws. rewrite length_fmap, length_seq. lia. Qed.

Lemma count_compare_prefix (h : Z) (n : nat) :
  0 ≤ h →
  Z.of_nat (length (filter (λ k, (k ?= h) = Lt) (Z.of_nat <$> seq 0 n)))
    = Z.min h (Z.of_nat n)
  ∧ Z.of_nat (length (filter (λ k, (k ?= h) = Eq) (Z.of_nat <$> seq 0 n)))
    = (if decide (h < Z.of_nat n) then 1 else 0)
  ∧ Z.of_nat (length (filter (λ k, (k ?= h) = Gt) (Z.of_nat <$> seq 0 n)))
    = Z.max 0 (Z.of_nat n - h - 1).
Proof.
  intros Hh. induction n as [|n (IHlt & IHeq & IHgt)].
  - simpl. case_decide; lia.
  - rewrite seq_S, fmap_app, !filter_app, !length_app, !Nat2Z.inj_add.
    rewrite IHlt, IHeq, IHgt. simpl.
    rewrite !filter_cons, !filter_nil.
    destruct (Z.compare_spec (Z.of_nat n) h);
      repeat case_decide; try done; simpl length; lia.
Qed.

Lemma count_sign_compare (h R : Z) :
  0 ≤ h → 0 ≤ R →
  count_sign (λ k, k ?= h) R Lt = Z.min h R
  ∧ count_sign (λ k, k ?= h) R Eq = (if decide (h < R) then 1 else 0)
  ∧ count_sign (λ k, k ?= h) R Gt = Z.max 0 (R - h - 1).
Proof.
  intros Hh HR. unfold count_sign, draws.
  destruct (count_compare_prefix h (Z.to_nat R) Hh) as (Hlt & Heq & Hgt).
  rewrite Z2Nat.id in Hlt, Heq, Hgt by exact HR. auto.
Qed.

Lemma count_random_minus_half :
  count_sign random_minus_half RESOLUTION Lt = HALF
  ∧ count_sign random_minus_half RESOLUTION Eq = 1
  ∧ count_sign random_minus_half RESOLUTION Gt = HALF - 1.
Proof.
  assert (H0 : 0 ≤ HALF) by (by vm_compute).
  assert (H1 : 0 ≤ RESOLUTION) by (by vm_compute).
  destruct (count_sign_compare HALF RESOLUTION H0 H1) as (Hlt & Heq & Hgt).
  change random_minus_half with (λ k, k ?= HALF).
  rewrite Hlt, Heq, Hgt. repeat split.
Qed.

Lemma count_half_minus_random :
  count_sign half_minus_random RESOLUTION Lt = HALF - 1
  ∧ count_sign half_minus_random RESOLUTION Eq = 1
  ∧ count_sign half_minus_random RESOLUTION Gt = HALF.
Proof.
  destruct count_random_minus_half as (Hlt & Heq & Hgt).
  assert (Hflip : ∀ c, count_sign half_minus_random RESOLUTION c
                       = count_sign random_minus_half RESOLUTION (CompOpp c)).
  { intros c. unfold count_sign. do 2 f_equal. apply list_filter_iff. intros k.
    unfold half_minus_random, random_minus_half.
    rewrite (Z.compare_antisym k HALF).
    destruct (k ?= HALF), c; simpl; split; congruence. }
  rewrite !Hflip. simpl CompOpp. rewrite Hlt, Heq, Hgt.
  repeat split; reflexivity.
Qed.

Lemma three_not_dividing_power_of_two (n : nat) (x : Z) : 3 * x ≠ 2 ^ Z.of_nat n.
Proof.
  assert (Hm : (2 ^ Z.of_nat n) mod 3 = 1 ∨ (2 ^ Z.of_nat n) mod 3 = 2).
  { induction n as [|n IH]; [by left|].
    rewrite Nat2Z.inj_succ, Z.pow_succ_r by lia.
    rewrite Z.mul_mod by lia. destruct IH as [-> | ->]; [by right|by left]. }
  intros Hx. rewrite <- Hx in Hm.
  rewrite Z.mul_comm, Z.mod_mul in Hm by lia. lia.
Qed.

Lemma tapes_power_of_two (bits d : nat) :
  Z.of_nat (length (tapes (2 ^ Z.of_nat bits) d)) = 2 ^ Z.of_nat (bits * d).
Proof.
  rewrite length_tapes, length_draws by (apply Z.pow_nonneg; lia).
  rewrite <- Z.pow_mul_r by lia. f_equal. lia.
Qed.

(** ** Lists walked by callbacks that may throw *)

Section monadic_lists.
Context {A B : Type}.

Lemma mapM_Some (f : A → option B) (l : list A) :
  (∀ x, x ∈ l → is_Some (f x)) →
  ∃ ys, mapM f l = Some ys ∧ length ys = length l.
Proof.
  induction l as [|x l IH]; intros Hf; simpl.
  - by exists [].
  - destruct (Hf x) as [y Hy]; [left|]. rewrite Hy. simpl.
    destruct IH as (ys & -> & Hlen); [intros z Hz; apply Hf; by right|].
    exists (y :: ys). simpl. by rewrite Hlen.
Qed.

Lemma filterM_Some (p : A → option bool) (l : list A) :
  (∀ x, x ∈ l → is_Some (p x)) →
  ∃ ys, filterM p l = Some ys ∧ ∀ y, y ∈ ys → y ∈ l.
Proof.
  induction l as [|x l IH]; intros Hp; simpl.
  - by exists [].
  - destruct (Hp x) as [b Hb]; [left|]. rewrite Hb. simpl.
    destruct IH as (ys & -> & Hsub); [intros z Hz; apply Hp; by right|].
    simpl. destruct b; eexists; split; try done; intros y Hy.
    + apply elem_of_cons in Hy as [->|Hy]; [left|right; auto].
    + right; auto.
Qed.

Lemma findM_Some (p : A → option bool) (l : list A) :
  (∀ x, x ∈ l → is_Some (p x)) → is_Some (findM p l).
Proof.
  induction l as [|x l IH]; intros Hp; simpl; [done|].
  destruct (Hp x) as [b Hb]; [left|]. rewrite Hb. simpl.
  destruct b; [done|]. apply IH. intros z Hz. apply Hp. by right.
Qed.

(** [find] returns the one element that satisfies the predicate. *)
Lemma findM_unique (p : A → option bool) (l : list A) (x : A) :
  (∀ y, y ∈ l → is_Some (p y)) →
  x ∈ l → p x = Some true →
  (∀ y, y ∈ l → p y = Some true → y = x) →
  findM p l = Some (Some x).
Proof.
  induction l as [|z l IH]; intros Hp Hx Hpx Huniq; [by apply elem_of_nil in Hx|].
  simpl. destruct (Hp z) as [b Hb]; [left|]. rewrite Hb. simpl. destruct b.
  - by rewrite (Huniq z (list_elem_of_here _ _) Hb).
  - apply IH.
    + intros y Hy. apply Hp. by right.
    + apply elem_of_cons in Hx as [->|Hx]; [congruence|done].
    + done.
    + intros y Hy. apply Huniq. by right.
Qed.

(** [find] returns the first element that satisfies the predicate. *)
Lemma findM_first (p : A → option bool) (l1 l2 : list A) (x : A) :
  (∀ y, y ∈ l1 → p y = Some false) → p x = Some true →
  findM p (l1 ++ x :: l2) = Some (Some x).
Proof.
  induction l1 as [|z l1 IH]; intros Hl1 Hx; simpl.
  - by rewrite Hx.
  - rewrite (Hl1 z) by left. simpl. apply IH; [|done].
    intros y Hy. apply Hl1. by right.
Qed.

End monadic_lists.

Lemma mapM_fmap {A B} (f : A → option B) (g : A → B) (l : list A) :
  (∀ x, x ∈ l → f x = Some (g x)) → mapM f l = Some (g <$> l).
Proof.
  induction l as [|x l IH]; intros Hf; simpl; [done|].
  rewrite (Hf x) by left. simpl. rewrite IH; [done|].
  intros y Hy. apply Hf. by right.
Qed.

Lemma shuffle_cases (rs : list Role) : rs ≡ₚ ROLES → rs ∈ all_shuffles.
Proof.
  intros Hp. change all_shuffles with (permutations ROLES).
  apply permutations_Permutation. by symmetry.
Qed.

Lemma sorted_roles engine cmp rnd cur (roles : list Role) :
  roles ≡ₚ ROLES →
  ∃ r0 r1 r2 r3 cur',
    run_plan engine cmp rnd cur roles = ([r0; r1; r2; r3], cur')
    ∧ [r0; r1; r2; r3] ∈ all_shuffles.
Proof.
  intros Hroles.
  pose proof (run_plan_perm engine cmp rnd cur roles) as Hp.
  destruct (run_plan engine cmp rnd cur roles) as [rs cur'] eqn:Hrun.
  simpl in Hp. rewrite Hroles in Hp.
  pose proof (Permutation_length Hp) as Hlen.
  destruct rs as [|r0 [|r1 [|r2 [|r3 [|? ?]]]]]; try done.
  exists r0, r1, r2, r3, cur'. split; [done|]. by apply shuffle_cases.
Qed.

(** ** src/server.js: role assignment *)

Module ParityFacts.
Import Parity ParitySpec.

Lemma NoDup_4 {A} (a b c d : A) :
  NoDup [a; b; c; d] → a ≠ b ∧ a ≠ c ∧ a ≠ d ∧ b ≠ c ∧ b ≠ d ∧ c ≠ d.
Proof.
  rewrite !NoDup_cons, !elem_of_cons. intros (Ha & Hb & Hc & _).
  repeat split; intros ->; tauto.
Qed.

Lemma set_players_set_players m m' s :
  set_players m (set_players m' s) = set_players m s.
Proof. by destruct s. Qed.

Lemma assignRoles_eq engine s a b c d pa pb pc pd r0 r1 r2 r3 cur :
  Table s a b c d pa pb pc pd →
  run_plan engine random_minus_half (rand s) (cursor s) ROLES
    = ([r0; r1; r2; r3], cur) →
  assignRoles engine s =
  Some (set_awaitingShuffle false
          (set_players
             (<[d := assign_role r3 pd]> (<[c := assign_role r2 pc]>
                (<[b := assign_role r1 pb]> (<[a := assign_role r0 pa]> (players s)))))
             (set_cursor cur s))).
Proof.
  intros [Hros Hnd Ha Hb Hc Hd] Hrun.
  apply NoDup_4 in Hnd as (Hab & Hac & Had & Hbc & Hbd & Hcd).
  destruct s as [m w cp gs aw rd h rn cu o]; simpl in *. subst cp.
  unfold assignRoles. simpl. rewrite Hrun. simpl.
  unfold modify_player. simpl. rewrite Ha. simpl.
  rewrite lookup_insert_ne, Hb by done. simpl.
  rewrite !lookup_insert_ne, Hc by done. simpl.
  rewrite !lookup_insert_ne, Hd by done. simpl.
  done.
Qed.

Lemma emit_each_out ids e s :
  emit_each ids e s = set_out (out s ++ ((λ i, mkEmit (Some i) e) <$> ids)) s.
Proof.
  revert s. induction ids as [|i ids IH]; intros s; simpl.
  - rewrite app_nil_r. by destruct s.
  - change (emit_each ids e (emit (Some i) e s) = 
            set_out (out s ++ mkEmit (Some i) e :: ((λ i, mkEmit (Some i) e) <$> ids)) s).
    rewrite IH. destruct s. unfold emit, set_out. simpl. by rewrite <- app_assoc.
Qed.

(** After the roles are assigned, [startRound] only sends notifications. *)
Lemma startRound_after_assign engine s s1 :
  assignRoles engine (set_currentRound (currentRound s + 1) s) = Some s1 →
  (∀ i, i ∈ currentPlayers s1 → is_Some (players s1 !! i)) →
  ∃ evs, startRound engine s
         = Some (set_out (out s1 ++ evs) (set_awaitingShuffle true s1)).
Proof.
  intros Hassign Hreg. unfold startRound. rewrite Hassign. simpl.
  destruct s1 as [m w cp gs aw rd h rn cu o]. simpl in *.
  unfold scoreboard_of. simpl.
  destruct (mapM_Some (λ i, p ← m !! i; Some (mkScoreRow i (name p) (role p) (score p))) cp)
    as (rows & -> & _).
  { intros i Hi. destruct (Hreg i Hi) as [p ->]. by eexists. }
  simpl. rewrite emit_each_out. simpl.
  unfold find_role. simpl.
  destruct (findM_Some (λ i, p ← m !! i; Some (bool_decide (role p = Some Police))) cp)
    as [police ->].
  { intros i Hi. destruct (Hreg i Hi) as [p ->]. by eexists. }
  simpl. destruct police as [pid|]; [|by eexists].
  destruct (truthy pid); [|by eexists].
  destruct (filterM_Some (λ i, if bool_decide (i ≠ pid)
                               then p ← m !! i; Some (bool_decide (role p ≠ Some Babu))
                               else Some false) cp) as (suspects & -> & Hsub).
  { intros i Hi. case_bool_decide; [|by eexists].
    destruct (Hreg i Hi) as [p ->]. by eexists. }
  simpl.
  destruct (mapM_Some (λ i, p ← m !! i; Some (i, name p)) suspects) as (named & -> & _).
  { intros i Hi. destruct (Hreg i (Hsub i Hi)) as [p ->]. by eexists. }
  simpl. unfold emit, set_out. simpl. rewrite <- app_assoc. by eexists.
Qed.

Ltac shuffle_cases H :=
  unfold all_shuffles in H;
  repeat (apply elem_of_cons in H as [H|H]; [injection H as -> -> -> ->|]);
  [..|by apply elem_of_nil in H].

Ltac lookup_chain :=
  repeat first
    [ rewrite lookup_insert_eq
    | rewrite lookup_insert_ne by (done || (by apply not_eq_sym)) ].

Lemma startRound_seated engine s a b c d pa pb pc pd :
  Table s a b c d pa pb pc pd →
  ∃ s' babu police chor dakat,
    startRound engine s = Some s'
    ∧ Seated s' babu police chor dakat
    ∧ currentPlayers s' = [a; b; c; d]
    ∧ currentRound s' = currentRound s + 1
    ∧ awaitingShuffle s' = true
    ∧ gameStarted s' = gameStarted s
    ∧ history s' = history s
    ∧ (∀ i, score_of s' i =
            if decide (i = babu) then Z.add (rolePoints Babu) <$> score_of s i
            else score_of s i)
    ∧ (∀ i, name <$> players s' !! i = name <$> players s !! i).
Proof.
  intros HT.
  destruct (sorted_roles engine random_minus_half (rand s) (cursor s) ROLES)
    as (r0 & r1 & r2 & r3 & cur & Hrun & Hcases); [done|].
  assert (HT' : Table (set_currentRound (currentRound s + 1) s) a b c d pa pb pc pd)
    by (destruct HT; by constructor).
  pose proof (assignRoles_eq engine _ a b c d pa pb pc pd r0 r1 r2 r3 cur HT' Hrun)
    as Hassign.
  destruct HT as [Hros Hnd Ha Hb Hc Hd].
  pose proof (NoDup_4 _ _ _ _ Hnd) as (Hab & Hac & Had & Hbc & Hbd & Hcd).
  destruct (startRound_after_assign engine s _ Hassign) as [evs Hstart].
  { simpl. rewrite Hros. intros i Hi.
    repeat (apply elem_of_cons in Hi as [->|Hi]); [..|by apply elem_of_nil in Hi];
      lookup_chain; by eexists. }
  eexists _, (holder Babu [r0; r1; r2; r3] [a; b; c; d]),
    (holder Police [r0; r1; r2; r3] [a; b; c; d]),
    (holder Chor [r0; r1; r2; r3] [a; b; c; d]),
    (holder Dakat [r0; r1; r2; r3] [a; b; c; d]).
  split; [exact Hstart|].
  split; [|repeat split; simpl; try done].
  - shuffle_cases Hcases; simpl;
      (constructor; unfold role_of; simpl;
       [rewrite Hros; solve_Permutation
       |repeat constructor; rewrite ?elem_of_cons, ?elem_of_nil;
          intuition congruence
       |lookup_chain; done..]).
  - intros i. unfold score_of. simpl.
    destruct (decide (i = a)) as [->|Hia]; [|destruct (decide (i = b)) as [->|Hib];
      [|destruct (decide (i = c)) as [->|Hic]; [|destruct (decide (i = d)) as [->|Hid]]]];
      lookup_chain; rewrite ?Ha, ?Hb, ?Hc, ?Hd;
      shuffle_cases Hcases; simpl; repeat case_decide; simpl;
      first [done | congruence | f_equal; lia].
  - intros i.
    destruct (decide (i = a)) as [->|Hia]; [|destruct (decide (i = b)) as [->|Hib];
      [|destruct (decide (i = c)) as [->|Hic]; [|destruct (decide (i = d)) as [->|Hid]]]];
      lookup_chain; rewrite ?Ha, ?Hb, ?Hc, ?Hd; done.
Qed.

(** ** src/server.js: resolving a round *)

Lemma set_players_same s : set_players (players s) s = s.
Proof. by destruct s. Qed.

Lemma insert_as_alter (f : Player → Player) (m : gmap string Player) i p :
  m !! i = Some p → <[i := f p]> m = alter f i m.
Proof.
  intros Hp. apply map_eq. intros j. destruct (decide (i = j)) as [->|Hne].
  - by rewrite lookup_insert_eq, lookup_alter_eq, Hp.
  - by rewrite lookup_insert_ne, lookup_alter_ne.
Qed.

(** A loop over the players that rewrites one entry per step. *)
Lemma forEach_alter (F : string → Player → Player)
    (cb : string → State → option State) l s :
  (∀ i st p, players st !! i = Some p →
     cb i st = Some (set_players (<[i := F i p]> (players st)) st)) →
  (∀ i, i ∈ l → is_Some (players s !! i)) →
  forEach cb l s
  = Some (set_players (foldl (λ m i, alter (F i) i m) (players s) l) s).
Proof.
  intros Hcb. revert s. induction l as [|i l IH]; intros s Hreg; simpl.
  - by rewrite set_players_same.
  - destruct (Hreg i) as [p Hp]; [left|].
    rewrite (Hcb i s p Hp). simpl. rewrite IH.
    + simpl. by rewrite set_players_set_players, (insert_as_alter _ _ _ _ Hp).
    + intros j Hj. simpl. rewrite (insert_as_alter _ _ _ _ Hp).
      apply lookup_alter_is_Some. apply Hreg. by right.
Qed.

Lemma lookup_foldl_alter (F : string → Player → Player) l
    (m : gmap string Player) i :
  NoDup l →
  foldl (λ m i, alter (F i) i m) m l !! i
  = if decide (i ∈ l) then F i <$> m !! i else m !! i.
Proof.
  revert m. induction l as [|x l IH]; intros m Hnd.
  - rewrite decide_False; [done|]. apply not_elem_of_nil.
  - apply NoDup_cons in Hnd as [Hx Hnd]. simpl foldl. rewrite IH by done.
    destruct (decide (i = x)) as [->|Hne].
    + rewrite decide_False by done. rewrite decide_True by left.
      apply lookup_alter_eq.
    + assert (x ≠ i) by (by apply not_eq_sym).
      destruct (decide (i ∈ l)) as [Hi|Hi].
      * rewrite decide_True by (by right). by rewrite lookup_alter_ne.
      * rewrite lookup_alter_ne by done.
        rewrite decide_False; [done|]. rewrite elem_of_cons. tauto.
Qed.

Lemma lookup_gains0 l (g : gmap string Z) i :
  foldl (λ g i, <[i := 0]> g) g l !! i
  = if decide (i ∈ l) then Some 0 else g !! i.
Proof.
  revert g. induction l as [|x l IH]; intros g.
  - rewrite decide_False; [done|]. apply not_elem_of_nil.
  - simpl foldl. rewrite IH. destruct (decide (i ∈ l)) as [Hi|Hi].
    + by rewrite decide_True by (by right).
    + destruct (decide (i = x)) as [->|Hne].
      * rewrite decide_True by left. apply lookup_insert_eq.
      * rewrite lookup_insert_ne by (by apply not_eq_sym).
        rewrite decide_False; [done|]. rewrite elem_of_cons. tauto.
Qed.

(** A loop that sends the same notification to every id. *)
Lemma forEach_emits (cb : string → State → option State) (ev : Event) l s :
  (∀ i st, players st = players s → currentRound st = currentRound s →
           history st = history s → cb i st = Some (emit (Some i) ev st)) →
  forEach cb l s = Some (emit_each l ev s).
Proof.
  intros Hcb.
  assert (Hgen : ∀ st, players st = players s → currentRound st = currentRound s →
            history st = history s → forEach cb l st = Some (emit_each l ev st)).
  { induction l as [|i l IH]; intros st H1 H2 H3; simpl; [done|].
    rewrite (Hcb i st H1 H2 H3). simpl. by apply IH. }
  by apply Hgen.
Qed.

Section seated.
Context (s : State) (babu police chor dakat : string).
Hypothesis HS : Seated s babu police chor dakat.

Lemma Seated_elem i :
  i ∈ currentPlayers s ↔ i = babu ∨ i = police ∨ i = chor ∨ i = dakat.
Proof.
  rewrite (seated_roster _ _ _ _ _ HS), !elem_of_cons, elem_of_nil. tauto.
Qed.

Lemma Seated_NoDup : NoDup (currentPlayers s).
Proof.
  rewrite (seated_roster _ _ _ _ _ HS). exact (seated_distinct _ _ _ _ _ HS).
Qed.

Lemma Seated_role i :
  i ∈ currentPlayers s → ∃ p, players s !! i = Some p ∧
    role p = Some (if decide (i = babu) then Babu
                   else if decide (i = police) then Police
                   else if decide (i = chor) then Chor else Dakat).
Proof.
  destruct HS as [_ Hnd Hb Hp Hc Hd].
  apply NoDup_4 in Hnd as (? & ? & ? & ? & ? & ?).
  unfold role_of in *. rewrite Seated_elem.
  intros [-> | [-> | [-> | ->]]]; repeat case_decide; try done.
  - destruct (players s !! babu) as [p|]; [by exists p|done].
  - destruct (players s !! police) as [p|]; [by exists p|done].
  - destruct (players s !! chor) as [p|]; [by exists p|done].
  - destruct (players s !! dakat) as [p|]; [by exists p|done].
Qed.

Lemma Seated_registered i : i ∈ currentPlayers s → is_Some (players s !! i).
Proof. intros Hi. destruct (Seated_role i Hi) as (p & -> & _). by eexists. Qed.

Lemma Seated_find (r : Role) :
  find_role r s = Some (Some (match r with
                              | Babu => babu | Police => police
                              | Chor => chor | Dakat => dakat end)).
Proof.
  pose proof (NoDup_4 _ _ _ _ (seated_distinct _ _ _ _ _ HS))
    as (? & ? & ? & ? & ? & ?).
  apply findM_unique.
  - intros i Hi. destruct (Seated_registered i Hi) as [p ->]. by eexists.
  - apply Seated_elem. destruct r; tauto.
  - destruct HS as [_ _ Hb Hp Hc Hd]. unfold role_of in *.
    destruct r; cbv beta;
      match goal with |- context [players s !! ?i] =>
        destruct (players s !! i) as [q|]; [|done] end;
      simpl in *; by rewrite bool_decide_eq_true_2.
  - intros i Hi. destruct (Seated_role i Hi) as (p & -> & Hrole). simpl.
    intros [= Hr%bool_decide_eq_true_1]. rewrite Hrole in Hr.
    destruct r; repeat case_decide; try congruence;
      apply Seated_elem in Hi; intuition congruence.
Qed.

End seated.

Lemma guessTarget_cases s :
  guessTarget_of s = Chor ∨ guessTarget_of s = Dakat.
Proof. unfold guessTarget_of. destruct (_ =? _); auto. Qed.

Lemma resolveRound_eq s babu police chor dakat t :
  Seated s babu police chor dakat →
  ∃ msg rows tail,
    let ok := bool_decide (t = wanted s chor dakat) in
    let g := gains_table s babu police chor dakat t in
    let hist := history s ++
      [mkHistoryEntry (currentRound s) msg
         ((λ i, mkGain i (name_of s i) (gain_of g i)) <$> currentPlayers s) ok] in
    resolveRound police t s =
    Some (mkState
            (foldl (λ m i, alter (apply_gain g i) i m) (players s) (currentPlayers s))
            (waiting s) (currentPlayers s) (gameStarted s) false (currentRound s)
            hist (rand s) (cursor s)
            (out s
             ++ ((λ i, mkEmit (Some i) (roundResult
                    (mkRoundResult (currentRound s) ok msg rows hist (guessTarget_of s)
                       (name_of s police) (name_of s chor) (name_of s dakat))))
                 <$> currentPlayers s)
             ++ tail)).
Proof.
  intros HS.
  pose proof (Seated_registered _ _ _ _ _ HS) as Hreg.
  pose proof (Seated_NoDup _ _ _ _ _ HS) as Hnd.
  destruct (Hreg police) as [pp Hpp]; [apply (Seated_elem _ _ _ _ _ HS); tauto|].
  destruct (Hreg chor) as [cp Hcp]; [apply (Seated_elem _ _ _ _ _ HS); tauto|].
  destruct (Hreg dakat) as [dp Hdp]; [apply (Seated_elem _ _ _ _ _ HS); tauto|].
  set (g := gains_table s babu police chor dakat t).
  set (ok := bool_decide (t = wanted s chor dakat)).
  set (m' := foldl (λ m i, alter (apply_gain g i) i m) (players s) (currentPlayers s)).
  assert (Hm' : ∀ i, i ∈ currentPlayers s →
            ∃ p, players s !! i = Some p ∧ m' !! i = Some (apply_gain g i p)).
  { intros i Hi. destruct (Hreg i Hi) as [p Hp]. exists p. split; [done|].
    unfold m'. rewrite lookup_foldl_alter by done.
    rewrite decide_True by done. by rewrite Hp. }
  assert (Hname : ∀ i q, name (apply_gain g i q) = name q)
    by (intros i q; unfold apply_gain; by case_decide).
  (* the verdict, the message and the gains *)
  assert (Hverdict : ∃ msg,
    match guessTarget_of s with
    | Chor =>
        if decide (Some t = Some chor) then
          Some (true,
                name pp +:+ " guessed correctly: " +:+ name cp +:+ " is the Chor.",
                add_gain (Some dakat) (rolePoints Dakat)
                  (add_gain (Some police) (rolePoints Police)
                     (<[babu := rolePoints Babu]>
                        (foldl (λ g i, <[i := 0]> g) ∅ (currentPlayers s)))))
        else
          Some (false,
                name pp +:+ " guessed incorrectly. " +:+ name cp
                  +:+ " was the Chor, and " +:+ name dp +:+ " was the Dakat.",
                add_gain (Some chor) (rolePoints Chor)
                  (add_gain (Some dakat) (rolePoints Dakat)
                     (<[babu := rolePoints Babu]>
                        (foldl (λ g i, <[i := 0]> g) ∅ (currentPlayers s)))))
    | _ =>
        if decide (Some t = Some dakat) then
          Some (true,
                name pp +:+ " guessed correctly: " +:+ name dp +:+ " is the Dakat.",
                add_gain (Some chor) (rolePoints Chor)
                  (add_gain (Some police) (rolePoints Police)
                     (<[babu := rolePoints Babu]>
                        (foldl (λ g i, <[i := 0]> g) ∅ (currentPlayers s)))))
        else
          Some (false,
                name pp +:+ " guessed incorrectly. " +:+ name dp
                  +:+ " was the Dakat, and " +:+ name cp +:+ " was the Chor.",
                add_gain (Some chor) (rolePoints Chor)
                  (add_gain (Some dakat) (rolePoints Dakat)
                     (<[babu := rolePoints Babu]>
                        (foldl (λ g i, <[i := 0]> g) ∅ (currentPlayers s)))))
    end = Some (ok, msg, g)).
  { unfold ok, g, gains_table, wanted.
    destruct (guessTarget_cases s) as [-> | ->]; repeat case_decide;
      try congruence; eexists; repeat f_equal;
      first [by rewrite bool_decide_eq_true_2 by congruence
            |by rewrite bool_decide_eq_false_2 by congruence]. }
  destruct Hverdict as [msg Hverdict].
  set (entry := mkHistoryEntry (currentRound s) msg
         ((λ i, mkGain i (name_of s i) (gain_of g i)) <$> currentPlayers s) ok).
  (* the scoreboard and the winners *)
  destruct (mapM_Some
    (λ i, p ← m' !! i; Some (mkScoreRow i (name p) (role p) (score p)))
    (currentPlayers s)) as (rows & Hrows & _).
  { intros i Hi. destruct (Hm' i Hi) as (p & _ & ->). by eexists. }
  assert (Hwinners : ∃ ws, ∀ st, players st = m' →
            currentPlayers st = currentPlayers s → winners_of st = Some ws).
  { unfold winners_of.
    destruct (mapM_Some (λ i, score <$> m' !! i) (currentPlayers s))
      as (scores & Hscores & _).
    { intros i Hi. destruct (Hm' i Hi) as (p & _ & ->). by eexists. }
    destruct (filterM_Some
      (λ i, p ← m' !! i; Some (bool_decide (Some (score p) = max_list scores)))
      (currentPlayers s)) as (ws & Hfilter & Hws).
    { intros i Hi. destruct (Hm' i Hi) as (p & _ & ->). by eexists. }
    destruct (mapM_Some (λ i, name <$> m' !! i) ws) as (names & Hnames & _).
    { intros i Hi. destruct (Hm' i (Hws i Hi)) as (p & _ & ->). by eexists. }
    exists names. intros st -> ->. rewrite Hscores. simpl.
    rewrite Hfilter. simpl. by rewrite Hnames. }
  destruct Hwinners as [ws Hwinners].
  pose proof (eq_refl (resolveRound police t s)) as Hres.
  unfold resolveRound at 2 in Hres.
  rewrite (Seated_find _ _ _ _ _ HS Chor), (Seated_find _ _ _ _ _ HS Dakat),
    (Seated_find _ _ _ _ _ HS Babu) in Hres.
  simpl in Hres. rewrite Hpp, Hcp, Hdp in Hres. simpl in Hres.
  simpl in Hverdict. rewrite Hverdict in Hres. simpl in Hres.
  rewrite (forEach_alter (apply_gain g)) in Hres; [|clear Hres|done].
  2:{ intros i st p Hp. rewrite Hp. simpl. unfold apply_gain.
      destruct (decide (role p ≠ Some Babu)).
      - unfold modify_player. rewrite Hp. done.
      - rewrite insert_id by done. by rewrite set_players_same. }
  fold m' in Hres. simpl in Hres.
  rewrite (mapM_fmap _ (λ i, mkGain i (name_of s i) (gain_of g i))) in Hres.
  2:{ intros i Hi. destruct (Hm' i Hi) as (p & Hp & ->). simpl.
      unfold name_of. by rewrite Hname, Hp. }
  simpl in Hres. fold entry in Hres.
  unfold scoreboard_of in Hres. simpl in Hres. rewrite Hrows in Hres.
  simpl in Hres.
  rewrite (forEach_emits _ (roundResult
             (mkRoundResult (currentRound s) ok msg rows (history s ++ [entry])
                (guessTarget_of s)
                (name_of s police) (name_of s chor) (name_of s dakat)))) in Hres.
  2:{ intros i st H1 H2 H3. simpl in *. rewrite H1, H2, H3.
      destruct (Hm' chor) as (? & ? & ->); [apply (Seated_elem _ _ _ _ _ HS); tauto|].
      destruct (Hm' dakat) as (? & ? & ->); [apply (Seated_elem _ _ _ _ _ HS); tauto|].
      simpl. rewrite !Hname. unfold name_of. rewrite Hpp, Hcp, Hdp. simpl.
      repeat f_equal; congruence. }
  simpl in Hres. rewrite emit_each_out in Hres. simpl in Hres.
  exists msg, rows.
  case_bool_decide.
  - rewrite Hwinners in Hres by done. simpl in Hres. rewrite emit_each_out in Hres. simpl in Hres.
    eexists. simpl. rewrite Hres. unfold set_awaitingShuffle, set_out. simpl.
    by rewrite <- app_assoc.
  - rewrite emit_each_out in Hres. simpl in Hres.
    eexists. simpl. rewrite Hres. unfold set_awaitingShuffle, set_out. simpl.
    by rewrite <- app_assoc.
Qed.

Lemma gains_table_lookup s babu police chor dakat t i :
  Seated s babu police chor dakat →
  gain_of (gains_table s babu police chor dakat t) i
  = round_gain s babu police chor dakat t i.
Proof.
  intros HS.
  pose proof (NoDup_4 _ _ _ _ (seated_distinct _ _ _ _ _ HS))
    as (Hbp & Hbc & Hbd & Hpc & Hpd & Hcd).
  pose proof (Seated_elem _ _ _ _ _ HS) as Helem.
  assert (Hg0 : ∀ j, foldl (λ g i, <[i := 0]> g) (∅ : gmap string Z)
                       (currentPlayers s) !! j
                     = if decide (j ∈ currentPlayers s) then Some 0 else None).
  { intros j. by rewrite lookup_gains0, lookup_empty. }
  unfold gain_of, gains_table, round_gain, wanted, add_gain, key_of. simpl.
  destruct (guessTarget_cases s) as [-> | ->];
    [destruct (decide (t = chor)) as [->|Ht]
    |destruct (decide (t = dakat)) as [->|Ht]];
    rewrite ?bool_decide_eq_true_2, ?(bool_decide_eq_false_2 (t = _)) by done;
    simpl;
    (destruct (decide (i = babu)) as [->|Hib];
     [|destruct (decide (i = police)) as [->|Hip];
       [|destruct (decide (i = chor)) as [->|Hic];
         [|destruct (decide (i = dakat)) as [->|Hid]]]]);
    rewrite ?lookup_alter_eq, ?lookup_alter_ne, ?lookup_insert_eq,
      ?lookup_insert_ne, ?Hg0 by (done || (by apply not_eq_sym));
    rewrite ?lookup_alter_eq, ?lookup_alter_ne, ?lookup_insert_eq,
      ?lookup_insert_ne, ?Hg0 by (done || (by apply not_eq_sym));
    rewrite ?lookup_alter_eq, ?lookup_alter_ne, ?lookup_insert_eq,
      ?lookup_insert_ne, ?Hg0 by (done || (by apply not_eq_sym));
    try done;
    (destruct (decide _) as [Hin|Hin]; [|try done]; simpl; try done;
     first [exfalso; apply Hin, Helem; tauto
           |apply Helem in Hin; exfalso; tauto]).
Qed.

(** [resolveRound] on a seated table: the verdict, the scores, the history
    entry and the notifications. *)
Lemma resolveRound_spec s babu police chor dakat t :
  Seated s babu police chor dakat →
  ∃ s' msg rr tail,
    resolveRound police t s = Some s'
    ∧ (∀ i, score_of s' i =
            Z.add (if decide (i = babu) then 0
                   else round_gain s babu police chor dakat t i) <$> score_of s i)
    ∧ (∀ i, role_of s' i = role_of s i)
    ∧ currentPlayers s' = currentPlayers s
    ∧ waiting s' = waiting s
    ∧ gameStarted s' = gameStarted s
    ∧ awaitingShuffle s' = false
    ∧ currentRound s' = currentRound s
    ∧ history s' = history s ++
        [mkHistoryEntry (currentRound s) msg
           ((λ i, mkGain i (name_of s i) (round_gain s babu police chor dakat t i))
              <$> currentPlayers s)
           (bool_decide (t = wanted s chor dakat))]
    ∧ rr_correct rr = bool_decide (t = wanted s chor dakat)
    ∧ rr_round rr = currentRound s
    ∧ out s' = out s ++ ((λ i, mkEmit (Some i) (roundResult rr)) <$> currentPlayers s)
                     ++ tail.
Proof.
  intros HS.
  destruct (resolveRound_eq s babu police chor dakat t HS) as (msg & rows & tail & Heq).
  simpl in Heq.
  eexists _, msg, _, tail. split; [exact Heq|].
  pose proof (Seated_NoDup _ _ _ _ _ HS) as Hnd.
  assert (Hlook : ∀ i, foldl (λ m i, alter
              (apply_gain (gains_table s babu police chor dakat t) i) i m)
              (players s) (currentPlayers s) !! i
            = (if decide (i ∈ currentPlayers s)
               then apply_gain (gains_table s babu police chor dakat t) i <$> players s !! i
               else players s !! i))
    by (intros i; by apply lookup_foldl_alter).
  repeat split; simpl; try done.
  - intros i. unfold score_of. simpl. rewrite Hlook.
    destruct (decide (i ∈ currentPlayers s)) as [Hi|Hi].
    + destruct (Seated_role _ _ _ _ _ HS i Hi) as (p & -> & Hrole). simpl.
      unfold apply_gain. rewrite (gains_table_lookup _ _ _ _ _ _ _ HS).
      pose proof (NoDup_4 _ _ _ _ (seated_distinct _ _ _ _ _ HS))
        as (? & ? & ? & ? & ? & ?).
      rewrite Hrole.
      destruct (decide (i = babu)) as [->|?].
      * rewrite decide_False by (intros Hne; by apply Hne). f_equal; lia.
      * rewrite decide_True by (repeat case_decide; congruence).
        simpl. f_equal; lia.
    + assert (Hrg : (if decide (i = babu) then 0
                     else round_gain s babu police chor dakat t i) = 0).
      { unfold round_gain.
        repeat case_decide; try done; subst;
          exfalso; apply Hi, (Seated_elem _ _ _ _ _ HS); tauto. }
      rewrite Hrg. by destruct (players s !! i).
  - intros i. unfold role_of. simpl. rewrite Hlook.
    destruct (decide (i ∈ currentPlayers s)); [|done].
    destruct (players s !! i) as [p|]; [|done].
    simpl. unfold apply_gain. by destruct (decide (role p ≠ Some Babu)).
  - do 3 f_equal. apply list_fmap_ext. intros k i _.
    by rewrite (gains_table_lookup _ _ _ _ _ _ _ HS).
Qed.

(** ** src/server.js: the guess handler *)

Lemma truthy_nonempty (x : string) : x ≠ "" → truthy x = true.
Proof. intros Hx. unfold truthy. by rewrite bool_decide_eq_false_2. Qed.

Lemma includes_elem l x : x ∈ l → includes l x = true.
Proof. intros Hx. unfold includes. by rewrite bool_decide_eq_true_2. Qed.

Lemma guess_designated s babu police chor dakat data t :
  Seated s babu police chor dakat →
  gameStarted s = true → awaitingShuffle s = true →
  t ≠ "" → designates s data t →
  guess police (Some data) s = resolveRound police t s.
Proof.
  intros HS Hgs Haw Ht Hdes.
  pose proof (Seated_registered _ _ _ _ _ HS) as Hreg.
  unfold guess. rewrite Hgs, Haw. simpl.
  pose proof (seated_police _ _ _ _ _ HS) as Hpol. unfold role_of in Hpol.
  destruct (players s !! police) as [pp|] eqn:Hpp; [|done]. simpl in *.
  rewrite decide_False by (intros Hne; by apply Hne).
  assert (Hfind : ∀ n l1 l2, currentPlayers s = l1 ++ t :: l2 →
            name_of s t = n → (∀ j, j ∈ l1 → name_of s j ≠ n) →
            findM (λ j, p ← players s !! j; Some (bool_decide (name p = n)))
              (currentPlayers s) = Some (Some t)).
  { intros n l1 l2 Hcur Hn Hl1. rewrite Hcur. apply findM_first.
    - intros j Hj. destruct (Hreg j) as [p Hp].
      { rewrite Hcur. apply elem_of_app. by left. }
      specialize (Hl1 j Hj). unfold name_of in Hl1. rewrite Hp in *. simpl in *.
      by rewrite bool_decide_eq_false_2.
    - destruct (Hreg t) as [p Hp].
      { rewrite Hcur. apply elem_of_app. right. left. }
      unfold name_of in Hn. rewrite Hp in *. simpl in *.
      by rewrite bool_decide_eq_true_2. }
  destruct Hdes as [[Hid Hin] | [Hid (n & l1 & l2 & Hname & Hn & Hcur & Hnt & Hl1)]].
  - rewrite Hid. simpl. rewrite truthy_nonempty, includes_elem by done. simpl.
    by rewrite truthy_nonempty.
  - rewrite Hname. simpl.
    destruct Hid as [-> | (i & -> & Hi)]; simpl.
    + rewrite (truthy_nonempty n) by done.
      rewrite (Hfind n l1 l2) by done. simpl. by rewrite truthy_nonempty.
    + assert (truthy i && includes (currentPlayers s) i = false) as ->.
      { destruct Hi as [-> | Hi]; [done|].
        unfold includes. rewrite (bool_decide_eq_false_2 _ Hi). apply andb_false_r. }
      rewrite (truthy_nonempty n) by done.
      rewrite (Hfind n l1 l2) by done. simpl. by rewrite truthy_nonempty.
Qed.


Lemma round_gain_incorrect s babu police chor dakat t i :
  t ≠ wanted s chor dakat →
  round_gain s babu police chor dakat t i
  = if decide (i = babu) then 900
    else if decide (i = police) then 0
    else if decide (i = chor) then 400
    else if decide (i = dakat) then 600 else 0.
Proof. intros Ht. unfold round_gain. by rewrite bool_decide_eq_false_2. Qed.

Lemma fmap_add_0 (x : option Z) : Z.add 0 <$> x = x.
Proof. by destruct x. Qed.

(** A guess that designates a current player of a seated table is resolved,
    whoever that player is. *)
Lemma guess_resolves_seated s babu police chor dakat data t :
  Seated s babu police chor dakat →
  gameStarted s = true → awaitingShuffle s = true →
  t ≠ "" → designates s data t →
  ∃ s' msg rr tail,
    guess police (Some data) s = Some s'
    ∧ history s' = history s ++
        [mkHistoryEntry (currentRound s) msg
           ((λ i, mkGain i (name_of s i) (round_gain s babu police chor dakat t i))
              <$> currentPlayers s)
           (bool_decide (t = wanted s chor dakat))]
    ∧ rr_correct rr = bool_decide (t = wanted s chor dakat)
    ∧ out s' = out s ++ ((λ i, mkEmit (Some i) (roundResult rr)) <$> currentPlayers s)
                     ++ tail
    ∧ awaitingShuffle s' = false
    ∧ (t = police ∨ t = babu → t ≠ wanted s chor dakat)
    ∧ (t ≠ wanted s chor dakat →
         score_of s' chor = Z.add 400 <$> score_of s chor
         ∧ score_of s' dakat = Z.add 600 <$> score_of s dakat
         ∧ score_of s' police = score_of s police
         ∧ score_of s' babu = score_of s babu).
Proof.
  intros HS Hgs Haw Ht Hdes.
  destruct (resolveRound_spec s babu police chor dakat t HS)
    as (s' & msg & rr & tail & Hres & Hscore & _ & _ & _ & _ & Haw' & _ & Hhist
        & Hok & _ & Hout).
  pose proof (NoDup_4 _ _ _ _ (seated_distinct _ _ _ _ _ HS))
    as (Hbp & Hbc & Hbd & Hpc & Hpd & Hcd).
  exists s', msg, rr, tail.
  rewrite (guess_designated s babu police chor dakat data t) by done.
  repeat split; try done.
  - unfold wanted. destruct (guessTarget_cases s) as [-> | ->];
      intros [-> | ->]; congruence.
  - rewrite Hscore, round_gain_incorrect by done.
    repeat case_decide; done || congruence.
  - rewrite Hscore, round_gain_incorrect by done.
    repeat case_decide; done || congruence.
  - rewrite Hscore, round_gain_incorrect by done.
    repeat case_decide; try congruence. apply fmap_add_0.
  - rewrite Hscore. rewrite decide_True by done. apply fmap_add_0.
Qed.


(** At a table of four distinct players the Babu's 900 points are added to
    the cumulative score once per round: [startRound] adds them when the
    roles are assigned, and [resolveRound], whoever is named, leaves the
    Babu's score as it is although the gains recorded in the history list 900
    points for the Babu.  A roster on which a player sits twice is another
    matter, taken up with [DoubleSeat] below. *)
Lemma babu_granted_once_per_round engine s a b c d pa pb pc pd :
  Table s a b c d pa pb pc pd →
  ∃ s1 babu police chor dakat,
    startRound engine s = Some s1
    ∧ Seated s1 babu police chor dakat
    ∧ score_of s1 babu = Z.add 900 <$> score_of s babu
    ∧ ∀ t, ∃ s2 msg ok,
        resolveRound police t s1 = Some s2
        ∧ score_of s2 babu = score_of s1 babu
        ∧ score_of s2 babu = Z.add 900 <$> score_of s babu
        ∧ history s2 = history s1 ++
            [mkHistoryEntry (currentRound s1) msg
               ((λ i, mkGain i (name_of s1 i)
                        (round_gain s1 babu police chor dakat t i))
                  <$> currentPlayers s1) ok]
        ∧ round_gain s1 babu police chor dakat t babu = 900
        ∧ babu ∈ currentPlayers s1.
Proof.
  intros HT.
  destruct (startRound_seated engine s a b c d pa pb pc pd HT)
    as (s1 & babu & police & chor & dakat & Hstart & HS & _ & _ & _ & _ & _
        & Hscore & _).
  exists s1, babu, police, chor, dakat.
  assert (Hb1 : score_of s1 babu = Z.add 900 <$> score_of s babu).
  { rewrite Hscore. by rewrite decide_True. }
  split; [exact Hstart|]. split; [exact HS|]. split; [exact Hb1|].
  intros t.
  destruct (resolveRound_spec s1 babu police chor dakat t HS)
    as (s2 & msg & rr & tail & Hres & Hscore2 & _ & _ & _ & _ & _ & _ & Hhist & _).
  assert (Hb2 : score_of s2 babu = score_of s1 babu).
  { rewrite Hscore2. rewrite decide_True by done. apply fmap_add_0. }
  exists s2, msg, (bool_decide (t = wanted s1 chor dakat)).
  repeat split; try done.
  - by rewrite Hb2.
  - unfold round_gain. by rewrite decide_True.
  - apply (Seated_elem _ _ _ _ _ HS). tauto.
Qed.

Lemma four_ready_table :
  Table four_ready "a" "b" "c" "d"
    (mkPlayer "a" "Ann" 0 None 0) (mkPlayer "b" "Bob" 0 None 0)
    (mkPlayer "c" "Cy" 0 None 0) (mkPlayer "d" "Dee" 0 None 0).
Proof.
  constructor; [by vm_compute|by apply (bool_decide_unpack _)|by vm_compute..].
Defined.

Lemma babu_granted_once_per_round_witness :
  Table four_ready "a" "b" "c" "d"
    (mkPlayer "a" "Ann" 0 None 0) (mkPlayer "b" "Bob" 0 None 0)
    (mkPlayer "c" "Cy" 0 None 0) (mkPlayer "d" "Dee" 0 None 0)
  ∧ ∃ s1 babu police chor dakat,
      startRound insertion_plan four_ready = Some s1
      ∧ Seated s1 babu police chor dakat
      ∧ score_of s1 babu = Z.add 900 <$> score_of four_ready babu
      ∧ ∀ t, ∃ s2 msg ok,
          resolveRound police t s1 = Some s2
          ∧ score_of s2 babu = score_of s1 babu
          ∧ score_of s2 babu = Z.add 900 <$> score_of four_ready babu
          ∧ history s2 = history s1 ++
              [mkHistoryEntry (currentRound s1) msg
                 ((λ i, mkGain i (name_of s1 i)
                          (round_gain s1 babu police chor dakat t i))
                    <$> currentPlayers s1) ok]
          ∧ round_gain s1 babu police chor dakat t babu = 900
          ∧ babu ∈ currentPlayers s1.
Proof.
  split; [exact four_ready_table|].
  exact (babu_granted_once_per_round insertion_plan four_ready "a" "b" "c" "d"
           _ _ _ _ four_ready_table).
Defined.

(** ** src/server.js: guesses that are ignored *)

Lemma guess_no_round sid data s :
  gameStarted s = false ∨ awaitingShuffle s = false → guess sid data s = Some s.
Proof. intros [H | H]; unfold guess; rewrite H; [done|]. by rewrite orb_true_r. Qed.

Lemma guess_not_police sid data s p :
  players s !! sid = Some p → role p ≠ Some Police → guess sid data s = Some s.
Proof.
  intros Hp Hr. unfold guess. destruct (_ || _); [done|].
  rewrite Hp. simpl. by rewrite decide_True.
Qed.

(** ** src/server.js: a player of the running game disconnects *)

Lemma length_filter_ne (l : list string) (x : string) :
  NoDup l → x ∈ l → S (length (filter (λ i, i ≠ x) l)) = length l.
Proof.
  induction l as [|y l IH]; intros Hnd Hx; [by apply elem_of_nil in Hx|].
  apply NoDup_cons in Hnd as [Hy Hnd]. rewrite filter_cons.
  destruct (decide (y ≠ x)) as [Hne|Heq]; simpl.
  - f_equal. apply IH; [done|]. apply elem_of_cons in Hx as [->|Hx]; done.
  - assert (y = x) as -> by (destruct (decide (y = x)); tauto).
    f_equal. clear IH Hx Hnd. induction l as [|z l IH]; [done|].
    rewrite filter_cons.
    rewrite not_elem_of_cons in Hy. destruct Hy as [Hz Hy].
    rewrite decide_True by (by apply not_eq_sym). simpl. f_equal. by apply IH.
Qed.

Lemma disconnect_in_game s sid :
  sid ∈ currentPlayers s → sid ∉ waiting s →
  NoDup (currentPlayers s) →
  (∀ i, i ∈ currentPlayers s → is_Some (players s !! i)) →
  (∀ i, i ∈ waiting s → is_Some (players s !! i)) →
  ∃ s' msg names,
    disconnect sid s = Some s'
    ∧ waiting s' = waiting s ++ filter (λ i, i ≠ sid) (currentPlayers s)
    ∧ (∀ i, i ∈ currentPlayers s → i ≠ sid →
         ∃ p, players s !! i = Some p ∧ players s' !! i = Some (clear_player p))
    ∧ players s' !! sid = None
    ∧ gameStarted s' = false
    ∧ currentRound s' = 0
    ∧ history s' = []
    ∧ out s' = out s ++ [mkEmit None (playerLeft msg);
                         mkEmit None (updatePlayers names)].
Proof.
  intros Hin Hnw Hnd Hreg Hregw.
  set (rest := filter (λ i, i ≠ sid) (currentPlayers s)).
  set (m' := foldl (λ m i, alter (λ p, clear_player p) i m) (players s) rest).
  assert (Hrest : ∀ i, i ∈ rest ↔ i ≠ sid ∧ i ∈ currentPlayers s)
    by (intros i; unfold rest; by rewrite list_elem_of_filter).
  assert (Hndr : NoDup rest) by (by apply NoDup_filter).
  assert (Hm' : ∀ i, m' !! i = if decide (i ∈ rest) then clear_player <$> players s !! i
                               else players s !! i).
  { intros i. unfold m'.
    by rewrite (lookup_foldl_alter (λ _ p, clear_player p) rest (players s) i Hndr). }
  assert (Hsid : ∃ lp, m' !! sid = Some lp).
  { rewrite Hm'. rewrite decide_False by (rewrite Hrest; tauto).
    destruct (Hreg sid Hin) as [lp ->]. by eexists. }
  destruct Hsid as [lp Hlp].
  destruct (mapM_Some (λ i, name <$> m' !! i) (waiting s ++ rest))
    as (names & Hnames & _).
  { intros i Hi. rewrite Hm'. apply elem_of_app in Hi as [Hi|Hi].
    - destruct (Hregw i Hi) as [p ->]. case_decide; by eexists.
    - rewrite decide_True by done. apply Hrest in Hi as [_ Hi].
      destruct (Hreg i Hi) as [p ->]. by eexists. }
  pose proof (eq_refl (disconnect sid s)) as Hres.
  unfold disconnect at 2 in Hres.
  unfold includes in Hres.
  rewrite (bool_decide_eq_false_2 _ Hnw), (bool_decide_eq_true_2 _ Hin) in Hres.
  simpl in Hres. fold rest in Hres.
  rewrite (forEach_alter (λ _ p, clear_player p)) in Hres.
  2:{ intros i st p Hp. unfold modify_player. by rewrite Hp. }
  2:{ intros i Hi. simpl. apply Hrest in Hi as [_ Hi]. by apply Hreg. }
  simpl in Hres. fold m' in Hres. rewrite Hlp in Hres. simpl in Hres.
  unfold lobby_names in Hres. simpl in Hres. rewrite Hnames in Hres.
  simpl in Hres.
  eexists _, _, _. split; [exact Hres|]. simpl.
  repeat split; try done.
  - intros i Hi Hne. destruct (Hreg i Hi) as [p Hp]. exists p. split; [done|].
    rewrite lookup_delete_ne by (by apply not_eq_sym).
    rewrite Hm', decide_True by (rewrite Hrest; tauto). by rewrite Hp.
  - apply lookup_delete_eq.
  - by rewrite <- app_assoc.
Qed.


Lemma Seated_onto_roles s babu police chor dakat :
  Seated s babu police chor dakat → onto_roles (currentPlayers s) (role_of s).
Proof.
  intros HS. split; [by eapply Seated_NoDup|]. split.
  - intros i Hi. destruct (Seated_role _ _ _ _ _ HS i Hi) as (p & Hp & Hr).
    unfold role_of. rewrite Hp. simpl. rewrite Hr. by eexists.
  - intros r.
    exists (match r with Babu => babu | Police => police
                    | Chor => chor | Dakat => dakat end).
    split; [apply (Seated_elem _ _ _ _ _ HS); destruct r; tauto|].
    split; [destruct HS, r; done|].
    intros j Hj Hrj. destruct (Seated_role _ _ _ _ _ HS j Hj) as (p & Hp & Hr).
    unfold role_of in Hrj. rewrite Hp in Hrj. simpl in Hrj. rewrite Hr in Hrj.
    apply (Seated_elem _ _ _ _ _ HS) in Hj.
    destruct r; repeat case_decide; try congruence; intuition congruence.
Qed.

(** ** src/server.js: the round counter *)

(** C5 (fails on src/server.js): after the tenth round is resolved and
    [gameOver] is sent, [awaitingShuffle] is [false] and [gameStarted] still
    [true], so the guard of the [shuffle] handler lets a further [shuffle]
    through: the round counter becomes 11. *)
Theorem shuffle_after_game_over_starts_round_11 :
  run insertion_plan ten_rounds (init calm) = Some after_ten_rounds
  ∧ currentRound after_ten_rounds = MAX_ROUNDS
  ∧ gameStarted after_ten_rounds = true
  ∧ awaitingShuffle after_ten_rounds = false
  ∧ (∃ winners scoreboard hist,
       last (out after_ten_rounds)
       = Some (mkEmit (Some "d") (gameOver winners scoreboard hist)))
  ∧ shuffle insertion_plan "a" after_ten_rounds = Some eleventh_round
  ∧ reachable insertion_plan eleventh_round
  ∧ currentRound eleventh_round = 11
  ∧ MAX_ROUNDS < currentRound eleventh_round.
Proof.
  split; [by vm_compute|]. split; [by vm_compute|]. split; [by vm_compute|].
  split; [by vm_compute|].
  split; [eexists _, _, _; vm_compute; reflexivity|].
  split; [by vm_compute|].
  split; [exists calm, (ten_rounds ++ [Shuffle "a"]); by vm_compute|].
  split; by vm_compute.
Qed.

Lemma filterM_filter {A} (p : A → option bool) (P : A → Prop)
    `{!∀ x, Decision (P x)} (l : list A) :
  (∀ x, x ∈ l → p x = Some (bool_decide (P x))) →
  filterM p l = Some (filter P l).
Proof.
  induction l as [|x l IH]; intros Hp; simpl; [done|].
  rewrite (Hp x) by left. simpl. rewrite IH by (intros y Hy; apply Hp; by right).
  simpl. rewrite filter_cons.
  destruct (bool_decide_reflect (P x)); [by rewrite decide_True|by rewrite decide_False].
Qed.

Lemma Seated_ext s s' babu police chor dakat :
  players s' = players s → currentPlayers s' = currentPlayers s →
  Seated s babu police chor dakat → Seated s' babu police chor dakat.
Proof.
  intros Hp Hc [Hros Hnd Hb Hpo Hch Hd]. unfold role_of in *.
  constructor; unfold role_of; by rewrite ?Hp, ?Hc.
Qed.

(** On a seated table [startRound] notifies every player of the roles and
    asks the Police to choose among the players that are neither the Police
    nor the Babu. *)
Lemma startRound_after_assign_seated engine s s1 babu police chor dakat :
  assignRoles engine (set_currentRound (currentRound s + 1) s) = Some s1 →
  Seated s1 babu police chor dakat → police ≠ "" →
  ∃ rows,
    startRound engine s
    = Some (set_out
              (out s1
               ++ ((λ i, mkEmit (Some i)
                           (rolesAssigned (currentRound s1) MAX_ROUNDS rows (history s1)))
                     <$> currentPlayers s1)
               ++ [mkEmit (Some police)
                     (policeTurn (guessTarget_of s1)
                        ((λ i, (i, name_of s1 i))
                           <$> filter (λ i, i ≠ police ∧ i ≠ babu) (currentPlayers s1)))])
              (set_awaitingShuffle true s1)).
Proof.
  intros Hassign HS Hne.
  pose proof (Seated_registered _ _ _ _ _ HS) as Hreg.
  unfold startRound. rewrite Hassign. simpl.
  unfold scoreboard_of. simpl.
  destruct (mapM_Some (λ i, p ← players s1 !! i;
                            Some (mkScoreRow i (name p) (role p) (score p)))
              (currentPlayers s1)) as (rows & -> & _).
  { intros i Hi. destruct (Hreg i Hi) as [p ->]. by eexists. }
  simpl. exists rows. rewrite emit_each_out.
  match goal with |- context [find_role Police ?st] =>
    rewrite (Seated_find st babu police chor dakat) by (by apply (Seated_ext s1))
  end.
  simpl. rewrite truthy_nonempty by done.
  rewrite (filterM_filter _ (λ i, i ≠ police ∧ i ≠ babu)).
  2:{ intros i Hi. simpl in Hi. case_bool_decide as Hip.
      - destruct (Seated_role _ _ _ _ _ HS i Hi) as (p & -> & Hrole). simpl.
        f_equal. apply bool_decide_ext. rewrite Hrole.
        pose proof (NoDup_4 _ _ _ _ (seated_distinct _ _ _ _ _ HS))
          as (? & ? & ? & ? & ? & ?).
        repeat case_decide; intuition congruence.
      - f_equal. symmetry. apply bool_decide_eq_false_2. tauto. }
  simpl.
  rewrite (mapM_fmap _ (λ i, (i, name_of s1 i))).
  2:{ intros i [_ Hi]%list_elem_of_filter. simpl in Hi.
      destruct (Hreg i Hi) as [p Hp]. unfold name_of. simpl. by rewrite Hp. }
  simpl. destruct s1. unfold emit, set_out, guessTarget_of. simpl.
  by rewrite <- app_assoc.
Qed.


Lemma startRound_inv engine s s' :
  startRound engine s = Some s' →
  ∃ s1, assignRoles engine (set_currentRound (currentRound s + 1) s) = Some s1
        ∧ players s' = players s1 ∧ currentPlayers s' = currentPlayers s1.
Proof.
  unfold startRound. intros H.
  destruct (assignRoles engine _) as [s1|]; [|done]. simpl in H.
  exists s1. split; [done|].
  destruct (scoreboard_of _) as [rows|]; [|done]. simpl in H.
  rewrite emit_each_out in H.
  destruct (find_role Police _) as [[pid|]|]; simpl in H; [| |done].
  - destruct (truthy pid); [|by injection H as <-].
    destruct (filterM _ _) as [suspects|]; [|done]. simpl in H.
    destruct (mapM _ suspects) as [named|]; [|done]. simpl in H.
    by injection H as <-.
  - by injection H as <-.
Qed.

(** A round started at a table of four: the roles are dealt, and the Police
    is asked to choose among the two players that are neither the Police nor
    the Babu. *)
Lemma startRound_asks_police engine s a b c d pa pb pc pd :
  Table s a b c d pa pb pc pd → "" ∉ [a; b; c; d] →
  ∃ s' babu police chor dakat rows,
    startRound engine s = Some s'
    ∧ Seated s' babu police chor dakat
    ∧ currentPlayers s' = [a; b; c; d]
    ∧ awaitingShuffle s' = true
    ∧ gameStarted s' = gameStarted s
    ∧ out s' = out s
        ++ ((λ i, mkEmit (Some i)
                    (rolesAssigned (currentRound s') MAX_ROUNDS rows (history s')))
              <$> [a; b; c; d])
        ++ [mkEmit (Some police)
              (policeTurn (guessTarget_of s')
                 ((λ i, (i, name_of s' i))
                    <$> filter (λ i, i ≠ police ∧ i ≠ babu) [a; b; c; d]))].
Proof.
  intros HT Hids.
  destruct (startRound_seated engine s a b c d pa pb pc pd HT)
    as (s' & babu & police & chor & dakat & Hstart & HS & Hcur & _ & Haw & Hgs & _).
  destruct (startRound_inv engine s s' Hstart) as (s1 & Hassign & Hp & Hc).
  assert (HS1 : Seated s1 babu police chor dakat) by (by apply (Seated_ext s')).
  assert (Hne : police ≠ "").
  { intros ->. apply Hids. rewrite <- Hcur. apply (Seated_elem _ _ _ _ _ HS). tauto. }
  destruct (startRound_after_assign_seated engine s s1 babu police chor dakat
              Hassign HS1 Hne) as [rows Hstart'].
  rewrite Hstart in Hstart'. injection Hstart' as ->.
  eexists _, babu, police, chor, dakat, rows.
  split; [done|]. split; [done|]. split; [done|]. split; [done|]. split; [done|].
  simpl in *. rewrite Hcur.
  assert (Hout : out s1 = out s).
  { unfold assignRoles in Hassign.
    destruct (run_plan engine random_minus_half _ _ ROLES) as [shuffled cur].
    simpl in Hassign.
    destruct (forEachIdx _ 0 _ _) as [s2|] eqn:Hloop; [|done].
    injection Hassign as <-. simpl.
    assert (Hgen : ∀ l k st st', forEachIdx (λ i idx st,
                r ← shuffled !! idx; modify_player i (assign_role r) st) k l st
              = Some st' → out st' = out st).
    { induction l as [|i l IH]; intros k st st' H; simpl in H.
      - by injection H as <-.
      - destruct (shuffled !! k) as [r|]; [|done]. simpl in H.
        destruct (modify_player i (assign_role r) st) as [st1|] eqn:Hm; [|done].
        simpl in H. rewrite (IH _ _ _ H).
        unfold modify_player in Hm.
        destruct (players st !! i) as [p|]; [|done].
        by injection Hm as <-. }
    by rewrite (Hgen _ _ _ _ Hloop). }
  by rewrite Hout.
Qed.

(** At a table of four distinct players, once a round is started the Police
    is offered only the players that are neither the Police nor the Babu, but
    a guess whose id (or fallback name) designates any current player passes
    the guard and resolves the round, the Police themselves and the Babu
    included; when the target does not hold the designated role the verdict
    is "incorrect" and the Chor and the Dakat still receive their 400 and 600
    points.  A roster on which a player sits twice is another matter, taken
    up with [DoubleSeat] below. *)
Lemma guess_accepts_any_current_player engine s a b c d pa pb pc pd :
  Table s a b c d pa pb pc pd → "" ∉ [a; b; c; d] → gameStarted s = true →
  ∃ s1 babu police chor dakat rows,
    startRound engine s = Some s1
    ∧ Seated s1 babu police chor dakat
    ∧ out s1 = out s
        ++ ((λ i, mkEmit (Some i)
                    (rolesAssigned (currentRound s1) MAX_ROUNDS rows (history s1)))
              <$> [a; b; c; d])
        ++ [mkEmit (Some police)
              (policeTurn (guessTarget_of s1)
                 ((λ i, (i, name_of s1 i))
                    <$> filter (λ i, i ≠ police ∧ i ≠ babu) [a; b; c; d]))]
    ∧ ∀ data t, designates s1 data t →
        ∃ s2 msg rr tail,
          guess police (Some data) s1 = Some s2
          ∧ history s2 = history s1 ++
              [mkHistoryEntry (currentRound s1) msg
                 ((λ i, mkGain i (name_of s1 i)
                          (round_gain s1 babu police chor dakat t i))
                    <$> currentPlayers s1)
                 (bool_decide (t = wanted s1 chor dakat))]
          ∧ rr_correct rr = bool_decide (t = wanted s1 chor dakat)
          ∧ out s2 = out s1
                     ++ ((λ i, mkEmit (Some i) (roundResult rr)) <$> currentPlayers s1)
                     ++ tail
          ∧ awaitingShuffle s2 = false
          ∧ (t = police ∨ t = babu → t ≠ wanted s1 chor dakat)
          ∧ (t ≠ wanted s1 chor dakat →
               score_of s2 chor = Z.add 400 <$> score_of s1 chor
               ∧ score_of s2 dakat = Z.add 600 <$> score_of s1 dakat
               ∧ score_of s2 police = score_of s1 police
               ∧ score_of s2 babu = score_of s1 babu).
Proof.
  intros HT Hids Hgs.
  destruct (startRound_asks_police engine s a b c d pa pb pc pd HT Hids)
    as (s1 & babu & police & chor & dakat & rows & Hstart & HS & Hcur & Haw & Hgs1
        & Hout).
  exists s1, babu, police, chor, dakat, rows.
  split; [done|]. split; [done|]. split; [done|].
  intros data t Hdes.
  apply (guess_resolves_seated s1 babu police chor dakat data t); try done.
  - congruence.
  - intros ->. apply Hids. rewrite <- Hcur.
    destruct Hdes as [[_ Hin] | [_ (n & l1 & l2 & _ & _ & -> & _)]]; [done|].
    apply elem_of_app. right. left.
Qed.

Lemma guess_accepts_any_current_player_witness :
  Table four_ready "a" "b" "c" "d"
    (mkPlayer "a" "Ann" 0 None 0) (mkPlayer "b" "Bob" 0 None 0)
    (mkPlayer "c" "Cy" 0 None 0) (mkPlayer "d" "Dee" 0 None 0)
  ∧ ("" ∉ ["a"; "b"; "c"; "d"])
  ∧ gameStarted four_ready = true
  ∧ ∃ s1 babu police chor dakat rows,
      startRound insertion_plan four_ready = Some s1
      ∧ Seated s1 babu police chor dakat
      ∧ out s1 = out four_ready
          ++ ((λ i, mkEmit (Some i)
                      (rolesAssigned (currentRound s1) MAX_ROUNDS rows (history s1)))
                <$> ["a"; "b"; "c"; "d"])
          ++ [mkEmit (Some police)
                (policeTurn (guessTarget_of s1)
                   ((λ i, (i, name_of s1 i))
                      <$> filter (λ i, i ≠ police ∧ i ≠ babu) ["a"; "b"; "c"; "d"]))]
      ∧ ∀ data t, designates s1 data t →
          ∃ s2 msg rr tail,
            guess police (Some data) s1 = Some s2
            ∧ history s2 = history s1 ++
                [mkHistoryEntry (currentRound s1) msg
                   ((λ i, mkGain i (name_of s1 i)
                            (round_gain s1 babu police chor dakat t i))
                      <$> currentPlayers s1)
                   (bool_decide (t = wanted s1 chor dakat))]
            ∧ rr_correct rr = bool_decide (t = wanted s1 chor dakat)
            ∧ out s2 = out s1
                       ++ ((λ i, mkEmit (Some i) (roundResult rr)) <$> currentPlayers s1)
                       ++ tail
            ∧ awaitingShuffle s2 = false
            ∧ (t = police ∨ t = babu → t ≠ wanted s1 chor dakat)
            ∧ (t ≠ wanted s1 chor dakat →
                 score_of s2 chor = Z.add 400 <$> score_of s1 chor
                 ∧ score_of s2 dakat = Z.add 600 <$> score_of s1 dakat
                 ∧ score_of s2 police = score_of s1 police
                 ∧ score_of s2 babu = score_of s1 babu).
Proof.
  assert (Hids : "" ∉ ["a"; "b"; "c"; "d"]) by (by apply (bool_decide_unpack _)).
  assert (Hgs : gameStarted four_ready = true) by (by vm_compute).
  split; [exact four_ready_table|]. split; [exact Hids|]. split; [exact Hgs|].
  exact (guess_accepts_any_current_player insertion_plan four_ready
           "a" "b" "c" "d" _ _ _ _ four_ready_table Hids Hgs).
Defined.

(** In the example run the Police ["b"] is offered ["c"] and ["d"], names the
    Babu ["a"], and the round is resolved as incorrect. *)
Example police_names_the_babu :
  ∃ rows resolved entry,
    last (out four_seated)
    = Some (mkEmit (Some "b") (policeTurn Chor [("c", "Cy"); ("d", "Dee")]))
    ∧ guess "b" (Some (mkGuessData (Some "a") None)) four_seated = Some resolved
    ∧ last (history resolved) = Some entry
    ∧ correct entry = false
    ∧ message entry = "Bob guessed incorrectly. Cy was the Chor, and Dee was the Dakat."
    ∧ gains entry = rows
    ∧ (score_of four_seated <$> ["a"; "b"; "c"; "d"])
      = [Some 900; Some 0; Some 0; Some 0]
    ∧ (score_of resolved <$> ["a"; "b"; "c"; "d"])
      = [Some 900; Some 0; Some 400; Some 600].
Proof.
  eexists _, _, _.
  repeat match goal with |- _ ∧ _ => split end; by vm_compute.
Qed.

Lemma NoDup_3 {A} (a b c : A) : NoDup [a; b; c] → a ≠ b ∧ a ≠ c ∧ b ≠ c.
Proof.
  rewrite !NoDup_cons, !elem_of_cons. intros (Ha & Hb & _).
  repeat split; intros ->; tauto.
Qed.

Lemma run_app engine l1 l2 s :
  run engine (l1 ++ l2) s = run engine l1 s ≫= run engine l2.
Proof.
  revert s. induction l1 as [|i l1 IH]; intros s; [done|].
  change (handle engine i s ≫= run engine (l1 ++ l2)
          = (handle engine i s ≫= run engine l1) ≫= run engine l2).
  destruct (handle engine i s) as [s'|]; [|done]. apply IH.
Qed.

(** [assignRoles] on a double seat: the role of the first seat is
    overwritten by the role of the last one. *)
Lemma assignRoles_double_seat engine s b c d pb pc pd r0 r1 r2 r3 cur :
  DoubleSeat s b c d pb pc pd →
  run_plan engine random_minus_half (rand s) (cursor s) ROLES
    = ([r0; r1; r2; r3], cur) →
  assignRoles engine s =
  Some (set_awaitingShuffle false
          (set_players
             (<[b := assign_role r3 (assign_role r0 pb)]>
                (<[d := assign_role r2 pd]>
                   (<[c := assign_role r1 pc]>
                      (<[b := assign_role r0 pb]> (players s)))))
             (set_cursor cur s))).
Proof.
  intros [Hros Hnd Hb Hc Hd] Hrun.
  apply NoDup_3 in Hnd as (Hbc & Hbd & Hcd).
  destruct s as [m w cp gs aw rd h rn cu o]; simpl in *. subst cp.
  unfold assignRoles. simpl. rewrite Hrun. simpl.
  unfold modify_player. simpl. rewrite Hb. simpl.
  rewrite lookup_insert_ne, Hc by done. simpl.
  rewrite !lookup_insert_ne, Hd by done. simpl.
  rewrite lookup_insert_ne by (by apply not_eq_sym).
  rewrite lookup_insert_ne by (by apply not_eq_sym).
  rewrite lookup_insert_eq. simpl.
  done.
Qed.

(** A round started on a double seat: whatever the engine and the draws,
    the role of the first seat is held by nobody. *)
Lemma startRound_double_seat engine s b c d pb pc pd :
  DoubleSeat s b c d pb pc pd →
  ∃ s' r0 r1 r2 r3,
    startRound engine s = Some s'
    ∧ (run_plan engine random_minus_half (rand s) (cursor s) ROLES).1
      = [r0; r1; r2; r3]
    ∧ [r0; r1; r2; r3] ∈ all_shuffles
    ∧ currentPlayers s' = [b; c; d; b]
    ∧ players s' !! b = Some (assign_role r3 (assign_role r0 pb))
    ∧ players s' !! c = Some (assign_role r1 pc)
    ∧ players s' !! d = Some (assign_role r2 pd)
    ∧ (∀ i, i ∈ currentPlayers s' → role_of s' i ≠ Some r0)
    ∧ (∀ k, k ∉ [b; c; d] → players s' !! k = players s !! k)
    ∧ awaitingShuffle s' = true
    ∧ gameStarted s' = gameStarted s
    ∧ currentRound s' = currentRound s + 1
    ∧ history s' = history s.
Proof.
  intros HD.
  destruct (sorted_roles engine random_minus_half (rand s) (cursor s) ROLES)
    as (r0 & r1 & r2 & r3 & cur & Hrun & Hcases); [done|].
  assert (HD' : DoubleSeat (set_currentRound (currentRound s + 1) s) b c d pb pc pd)
    by (destruct HD; by constructor).
  pose proof (assignRoles_double_seat engine _ b c d pb pc pd r0 r1 r2 r3 cur HD' Hrun)
    as Hassign.
  destruct HD as [Hros Hnd Hb Hc Hd].
  pose proof (NoDup_3 _ _ _ Hnd) as (Hbc & Hbd & Hcd).
  destruct (startRound_after_assign engine s _ Hassign) as [evs Hstart].
  { simpl. rewrite Hros. intros i Hi.
    repeat (apply elem_of_cons in Hi as [->|Hi]); [..|by apply elem_of_nil in Hi];
      lookup_chain; by eexists. }
  exists (set_out
            (out (set_awaitingShuffle false
                    (set_players
                       (<[b := assign_role r3 (assign_role r0 pb)]>
                          (<[d := assign_role r2 pd]>
                             (<[c := assign_role r1 pc]>
                                (<[b := assign_role r0 pb]> (players s)))))
                       (set_cursor cur (set_currentRound (currentRound s + 1) s)))) ++ evs)
            (set_awaitingShuffle true
               (set_awaitingShuffle false
                  (set_players
                     (<[b := assign_role r3 (assign_role r0 pb)]>
                        (<[d := assign_role r2 pd]>
                           (<[c := assign_role r1 pc]>
                              (<[b := assign_role r0 pb]> (players s)))))
                     (set_cursor cur (set_currentRound (currentRound s + 1) s)))))),
    r0, r1, r2, r3.
  split; [exact Hstart|]. split; [by rewrite Hrun|]. split; [done|].
  simpl. split; [done|].
  split; [by lookup_chain|]. split; [by lookup_chain|]. split; [by lookup_chain|].
  split.
  { intros i Hi. rewrite Hros in Hi. unfold role_of. simpl.
    repeat (apply elem_of_cons in Hi as [->|Hi]); [..|by apply elem_of_nil in Hi];
      lookup_chain; simpl; shuffle_cases Hcases; done. }
  split; [|done].
  intros k Hk. rewrite !not_elem_of_cons in Hk. destruct Hk as (? & ? & ? & _).
  by lookup_chain.
Qed.

(** The loop that applies the gains registers nobody and keeps the roster. *)
Lemma apply_gains_frame (g : gmap string Z) l s s' :
  forEach (λ i st,
     p ← players st !! i;
     if decide (role p ≠ Some Babu)
     then modify_player i (add_score (gain_of g i)) st
     else Some st) l s = Some s' →
  currentPlayers s' = currentPlayers s
  ∧ history s' = history s
  ∧ (∀ k, players s !! k = None → players s' !! k = None).
Proof.
  revert s. induction l as [|i l IH]; intros s; simpl.
  - by intros [= <-].
  - destruct (players s !! i) as [p|] eqn:Hp; [|done]. simpl.
    destruct (decide (role p ≠ Some Babu)).
    + unfold modify_player. rewrite Hp. simpl. intros H.
      apply IH in H as (H1 & H2 & H3). split; [done|]. split; [done|].
      intros k Hk. apply H3. simpl. rewrite lookup_insert_ne; [done|].
      intros ->. congruence.
    + apply IH.
Qed.

Lemma bind_None_r {A B} (m : option A) (f : A → option B) :
  (∀ x, m = Some x → f x = None) → m ≫= f = None.
Proof. destruct m as [x|]; [|done]. intros H. by apply H. Qed.

Lemma bind_None_l {A B} (m : option A) (f : A → option B) :
  m = None → m ≫= f = None.
Proof. by intros ->. Qed.

(** When nobody holds the Chor, or nobody holds the Dakat, [resolveRound]
    reads [players[undefined].name] and raises. *)
Lemma resolveRound_throws policeId t s :
  find_role Chor s = Some None ∨ find_role Dakat s = Some None →
  players s !! "undefined" = None → currentPlayers s ≠ [] →
  resolveRound policeId t s = None.
Proof.
  intros Hmiss Hundef Hne. unfold resolveRound.
  destruct (find_role Chor s) as [chorId|] eqn:HC; [|done].
  destruct (find_role Dakat s) as [dakatId|] eqn:HD; [|done].
  destruct (find_role Babu s) as [babuId|] eqn:HB; [|done].
  assert (Hkey : players s !! key_of chorId = None ∨ players s !! key_of dakatId = None).
  { destruct Hmiss as [[= ->] | [= ->]]; [by left|by right]. }
  cbn [mbind option_bind].
  apply bind_None_r. intros [[ok msg] g] _.
  apply bind_None_r. intros s1 Hs1.
  apply apply_gains_frame in Hs1 as (Hcur & _ & Hdom).
  apply bind_None_r. intros eg _.
  apply bind_None_r. intros rows _.
  match goal with |- ?V ≫= _ = None => assert (V = None) as -> end; [|done].
  cbn [currentPlayers set_history]. rewrite Hcur.
  destruct (currentPlayers s) as [|x l]; [done|].
  cbn [forEach]. apply bind_None_l.
  destruct (players s !! policeId) as [pp|]; [|done].
  cbn [players set_history mbind option_bind].
  destruct Hkey as [Hk | Hk].
  - by rewrite (Hdom _ Hk).
  - rewrite (Hdom _ Hk). by destruct (players s1 !! key_of chorId).
Qed.

Lemma findM_none {A} (p : A → option bool) (l : list A) :
  (∀ x, x ∈ l → p x = Some false) → findM p l = Some None.
Proof.
  induction l as [|x l IH]; intros Hp; simpl; [done|].
  rewrite (Hp x) by left. simpl. apply IH. intros y Hy. apply Hp. by right.
Qed.

(** A guess of the Police that names a current player by id goes to
    [resolveRound]. *)
Lemma guess_by_id sid t nm s pp :
  gameStarted s = true → awaitingShuffle s = true →
  players s !! sid = Some pp → role pp = Some Police →
  t ≠ "" → t ∈ currentPlayers s →
  guess sid (Some (mkGuessData (Some t) nm)) s = resolveRound sid t s.
Proof.
  intros Hgs Haw Hpp Hrole Ht Hin. unfold guess. rewrite Hgs, Haw, Hpp. simpl.
  rewrite decide_False by (intros Hne; by apply Hne).
  rewrite truthy_nonempty, includes_elem by done. simpl.
  by rewrite truthy_nonempty.
Qed.

Lemma reseat_run engine rnd :
  run engine reseat (init rnd) = Some (double_seated rnd).
Proof. vm_compute. reflexivity. Qed.

Lemma double_seated_seat rnd :
  DoubleSeat (double_seated rnd) "b" "c" "d"
    (mkPlayer "b" "Bob" 0 None 0) (mkPlayer "c" "Cy" 0 None 0)
    (mkPlayer "d" "Dee" 0 None 0).
Proof.
  constructor;
    [vm_compute; reflexivity|apply (bool_decide_unpack _); vm_compute; reflexivity
    |vm_compute; reflexivity..].
Qed.

(** A round started by [shuffle] on a double seat, for every engine and
    all draws. *)
Lemma shuffle_double_seat engine s b c d pb pc pd :
  DoubleSeat s b c d pb pc pd →
  gameStarted s = true → awaitingShuffle s = false →
  ∃ s1 r0 r1 r2 r3,
    shuffle engine b s = Some s1
    ∧ (run_plan engine random_minus_half (rand s) (cursor s) ROLES).1
      = [r0; r1; r2; r3]
    ∧ [r0; r1; r2; r3] ∈ all_shuffles
    ∧ currentPlayers s1 = [b; c; d; b]
    ∧ players s1 !! b = Some (assign_role r3 (assign_role r0 pb))
    ∧ players s1 !! c = Some (assign_role r1 pc)
    ∧ players s1 !! d = Some (assign_role r2 pd)
    ∧ (∀ i, i ∈ currentPlayers s1 → role_of s1 i ≠ Some r0)
    ∧ (∀ k, k ∉ [b; c; d] → players s1 !! k = players s !! k)
    ∧ awaitingShuffle s1 = true
    ∧ gameStarted s1 = true
    ∧ currentRound s1 = currentRound s + 1
    ∧ history s1 = history s.
Proof.
  intros HD Hgs Haw.
  destruct (startRound_double_seat engine s b c d pb pc pd HD)
    as (s1 & r0 & r1 & r2 & r3 & Hstart & Hrun & Hcases & Hcur & Hb & Hc & Hd
        & Hnone & Hother & Haw1 & Hgs1 & Hround & Hhist).
  exists s1, r0, r1, r2, r3.
  split.
  { unfold shuffle. rewrite Hgs, Haw. unfold includes.
    rewrite bool_decide_eq_true_2; [done|].
    rewrite (double_roster _ _ _ _ _ _ _ HD). left. }
  repeat (split; [done|]). split; [congruence|]. done.
Qed.

(** The round [shuffle] starts after [reseat], for every engine and all
    draws. *)
Lemma reseat_round engine rnd :
  ∃ s1 r0 r1 r2 r3,
    run engine (reseat ++ [Shuffle "b"]) (init rnd) = Some s1
    ∧ (run_plan engine random_minus_half rnd 0 ROLES).1 = [r0; r1; r2; r3]
    ∧ [r0; r1; r2; r3] ∈ all_shuffles
    ∧ currentPlayers s1 = ["b"; "c"; "d"; "b"]
    ∧ players s1 !! "b"
      = Some (assign_role r3 (assign_role r0 (mkPlayer "b" "Bob" 0 None 0)))
    ∧ players s1 !! "c" = Some (assign_role r1 (mkPlayer "c" "Cy" 0 None 0))
    ∧ players s1 !! "d" = Some (assign_role r2 (mkPlayer "d" "Dee" 0 None 0))
    ∧ (∀ i, i ∈ currentPlayers s1 → role_of s1 i ≠ Some r0)
    ∧ players s1 !! "undefined" = None
    ∧ awaitingShuffle s1 = true
    ∧ gameStarted s1 = true
    ∧ currentRound s1 = 1
    ∧ history s1 = [].
Proof.
  pose proof (reseat_run engine rnd) as Hrs.
  pose proof (double_seated_seat rnd) as HD.
  assert (Hgs : gameStarted (double_seated rnd) = true) by (vm_compute; reflexivity).
  assert (Haw : awaitingShuffle (double_seated rnd) = false) by (vm_compute; reflexivity).
  assert (Hund : players (double_seated rnd) !! "undefined" = None)
    by (vm_compute; reflexivity).
  assert (Hrd : currentRound (double_seated rnd) = 0) by (vm_compute; reflexivity).
  assert (Hh : history (double_seated rnd) = []) by (vm_compute; reflexivity).
  assert (Hrand : rand (double_seated rnd) = rnd) by (vm_compute; reflexivity).
  assert (Hcu : cursor (double_seated rnd) = 0%nat) by (vm_compute; reflexivity).
  assert (Hnot : "undefined" ∉ ["b"; "c"; "d"])
    by (apply (bool_decide_unpack _); vm_compute; reflexivity).
  revert Hrs HD Hgs Haw Hund Hrd Hh Hrand Hcu.
  generalize (double_seated rnd). 
  intros s0 Hrs HD Hgs Haw Hund Hrd Hh Hrand Hcu.
  destruct (shuffle_double_seat engine s0 "b" "c" "d" _ _ _ HD Hgs Haw)
    as (s1 & r0 & r1 & r2 & r3 & Hsh & Hrun & Hcases & Hcur & Hb & Hc & Hd
        & Hnone & Hother & Haw1 & Hgs1 & Hround & Hhist).
  exists s1, r0, r1, r2, r3.
  split.
  { rewrite run_app.
    rewrite Hrs.
    change (handle engine (Shuffle "b") s0 ≫= (λ s', Some s') = Some s1).
    change (shuffle engine "b" s0 ≫= (λ s', Some s') = Some s1).
    rewrite Hsh. reflexivity. }
  split. { rewrite <- Hrand, <- Hcu. exact Hrun. }
  split; [exact Hcases|]. split; [exact Hcur|]. split; [exact Hb|].
  split; [exact Hc|]. split; [exact Hd|]. split; [exact Hnone|].
  split. { rewrite Hother; [exact Hund|exact Hnot]. }
  split; [exact Haw1|]. split; [exact Hgs1|].
  split; [rewrite Hround, Hrd; reflexivity|]. rewrite Hhist. exact Hh.
Qed.


(** C10 (fails on src/server.js): in the round dealt to the double seat
    ["b"; "c"; "d"; "b"], whatever the engine and the draws, a guess of the
    Police that names a current player raises a [TypeError] instead of
    resolving the round whenever the role lost at the first seat is the Chor
    or the Dakat: [resolveRound] reads [players[undefined].name].  When the
    lost role is the Babu the guess is resolved, but the loop that applies
    the gains visits ["b"] twice and the Dakat is paid 600 points twice. *)
Theorem guess_throws_on_double_seat :
  (∀ engine rnd,
     ∃ s1 r0 r1 r2 r3,
       run engine (reseat ++ [Shuffle "b"]) (init rnd) = Some s1
       ∧ (run_plan engine random_minus_half rnd 0 ROLES).1 = [r0; r1; r2; r3]
       ∧ currentPlayers s1 = ["b"; "c"; "d"; "b"]
       ∧ gameStarted s1 = true
       ∧ awaitingShuffle s1 = true
       ∧ (∀ i, i ∈ currentPlayers s1 → role_of s1 i ≠ Some r0)
       ∧ (r0 = Chor ∨ r0 = Dakat →
            ∀ sid t nm,
              role_of s1 sid = Some Police → t ∈ currentPlayers s1 →
              guess sid (Some (mkGuessData (Some t) nm)) s1 = None))
  ∧ (run_plan insertion_plan random_minus_half stormy 0 ROLES).1
    = [Dakat; Chor; Police; Babu]
  ∧ (run_plan v8_plan random_minus_half calm 0 ROLES).1
    = [Dakat; Chor; Police; Babu]
  ∧ run insertion_plan (reseat ++ [Shuffle "b"]) (init stormy) = Some dakat_lost
  ∧ reachable insertion_plan dakat_lost
  ∧ role_of dakat_lost "b" = Some Babu
  ∧ role_of dakat_lost "c" = Some Chor
  ∧ role_of dakat_lost "d" = Some Police
  ∧ handle insertion_plan (Guess "d" (Some (mkGuessData (Some "c") None)))
      dakat_lost = None
  ∧ handle insertion_plan (Guess "d" (Some (mkGuessData (Some "b") None)))
      dakat_lost = None
  ∧ role_of babu_lost "b" = Some Dakat
  ∧ handle insertion_plan guess_b babu_lost = Some babu_lost_resolved
  ∧ gains <$> history babu_lost_resolved
    = [[mkGain "b" "Bob" 600; mkGain "c" "Cy" 0; mkGain "d" "Dee" 400;
        mkGain "b" "Bob" 600]]
  ∧ score_of babu_lost "b" = Some 900
  ∧ score_of babu_lost_resolved "b" = Some (900 + 600 + 600).
Proof.
  split.
  { intros engine rnd.
    destruct (reseat_round engine rnd)
      as (s1 & r0 & r1 & r2 & r3 & Hrun & Hplan & Hcases & Hcur & Hb & Hc & Hd
          & Hnone & Hund & Haw & Hgs & _ & _).
    exists s1, r0, r1, r2, r3.
    split; [exact Hrun|]. split; [exact Hplan|]. split; [exact Hcur|].
    split; [exact Hgs|]. split; [exact Haw|]. split; [exact Hnone|].
    clear Hrun Hplan Hcases.
    intros Hlost sid t nm Hsid Ht.
    assert (Hreg : ∀ i, i ∈ currentPlayers s1 → is_Some (players s1 !! i)).
    { intros i Hi. rewrite Hcur in Hi.
      repeat (apply elem_of_cons in Hi as [->|Hi]);
        [..|apply elem_of_nil in Hi; destruct Hi];
        rewrite ?Hb, ?Hc, ?Hd; eexists; reflexivity. }
    assert (Hfind : find_role r0 s1 = Some None).
    { apply findM_none. intros i Hi. specialize (Hnone i Hi).
      destruct (Hreg i Hi) as [p Hp]. unfold role_of in Hnone.
      rewrite Hp in Hnone. simpl in Hnone. rewrite Hp. simpl.
      rewrite bool_decide_eq_false_2; [reflexivity|exact Hnone]. }
    unfold role_of in Hsid.
    destruct (players s1 !! sid) as [pp|] eqn:Hpp; [|discriminate Hsid].
    simpl in Hsid.
    assert (Hne : t ≠ "").
    { rewrite Hcur in Ht.
      repeat (apply elem_of_cons in Ht as [->|Ht]);
        [..|apply elem_of_nil in Ht; destruct Ht];
        discriminate. }
    rewrite (guess_by_id sid t nm s1 pp Hgs Haw Hpp Hsid Hne Ht).
    apply resolveRound_throws; [|exact Hund|rewrite Hcur; discriminate].
    destruct Hlost as [-> | ->]; [left|right]; exact Hfind. }
  split; [vm_compute; reflexivity|]. split; [vm_compute; reflexivity|].
  split; [vm_compute; reflexivity|].
  split; [exists stormy, (reseat ++ [Shuffle "b"]); vm_compute; reflexivity|].
  split; [vm_compute; reflexivity|]. split; [vm_compute; reflexivity|].
  split; [vm_compute; reflexivity|]. split; [vm_compute; reflexivity|].
  split; [vm_compute; reflexivity|]. split; [vm_compute; reflexivity|].
  split; [vm_compute; reflexivity|]. split; [vm_compute; reflexivity|].
  split; vm_compute; reflexivity.
Qed.

(** The deals of the example runs are deals of V8: with [v8_plan] and draws
    on which the comparator is zero, the runs show what they show with
    [insertion_plan] and the draws [calm]; the reversed deal is the one
    [v8_plan] makes on [calm]. *)
Example v8_deals_the_example_runs :
  Forall (λ inputs, shown <$> run v8_plan inputs (init steady)
                    = shown <$> run insertion_plan inputs (init calm))
    [four_join ++ [Shuffle "a"]; ten_rounds; ten_rounds ++ [Shuffle "a"];
     reseat ++ [Shuffle "b"; guess_b]]
  ∧ shown <$> run v8_plan (reseat ++ [Shuffle "b"]) (init calm)
    = shown <$> run insertion_plan (reseat ++ [Shuffle "b"]) (init stormy).
Proof.
  split; [|vm_compute; reflexivity].
  repeat (apply Forall_cons; split; [vm_compute; reflexivity|]).
  apply Forall_nil. exact I.
Qed.

Lemma forEach_modify_stale (f : Player → Player) l s i :
  i ∈ l → players s !! i = None →
  forEach (λ j st, modify_player j f st) l s = None.
Proof.
  revert s. induction l as [|j l IH]; intros s Hin Hi; [by apply elem_of_nil in Hin|].
  simpl. destruct (players s !! j) as [p|] eqn:Hj.
  - assert (modify_player j f s = Some (set_players (<[j := f p]> (players s)) s))
      as -> by (unfold modify_player; rewrite Hj; reflexivity).
    simpl. apply elem_of_cons in Hin as [->|Hin]; [congruence|].
    apply IH; [exact Hin|]. simpl. rewrite lookup_insert_ne; [exact Hi|].
    intros ->. congruence.
  - assert (modify_player j f s = None)
      as -> by (unfold modify_player; rewrite Hj; reflexivity).
    reflexivity.
Qed.

(** [restart] raises a [TypeError] when [currentPlayers] holds an id that is
    no longer registered: the loop that resets the scores writes to
    [players[id].score].  Such an id is left behind when two players of a
    game disconnect in turn, the second one being removed from [players] by
    the waiting branch of [disconnect]. *)
Theorem restart_throws_on_stale_roster sid s i :
  i ∈ currentPlayers s → players s !! i = None → restart sid s = None.
Proof.
  intros Hin Hi. unfold restart.
  rewrite bool_decide_eq_false_2.
  2:{ destruct (currentPlayers s); [by apply elem_of_nil in Hin|discriminate]. }
  rewrite (forEach_modify_stale clear_player (currentPlayers s) _ i); [reflexivity| |].
  - exact Hin.
  - exact Hi.
Qed.

Lemma restart_throws_on_stale_roster_witness :
  run insertion_plan (four_join ++ [Disconnect "a"; Disconnect "b"]) (init calm)
    = Some two_left
  ∧ "b" ∈ currentPlayers two_left
  ∧ players two_left !! "b" = None
  ∧ restart "c" two_left = None.
Proof.
  assert (Hin : "b" ∈ currentPlayers two_left)
    by (apply (bool_decide_unpack _); vm_compute; reflexivity).
  assert (Hb : players two_left !! "b" = None) by (vm_compute; reflexivity).
  split; [vm_compute; reflexivity|]. split; [exact Hin|]. split; [exact Hb|].
  exact (restart_throws_on_stale_roster "c" two_left "b" Hin Hb).
Defined.

(** At a table of four distinct players, a correct guess pays the Police 800
    points and the thief who was not looked for the points of the role (600
    for the Dakat on odd rounds, 400 for the Chor on even rounds); the thief
    who was found gets nothing, and the Babu nothing more than the 900
    points of the assignment. *)
Theorem correct_guess_pays_the_police s babu police chor dakat data t :
  Seated s babu police chor dakat →
  gameStarted s = true → awaitingShuffle s = true →
  t ≠ "" → designates s data t → t = wanted s chor dakat →
  ∃ s' msg,
    guess police (Some data) s = Some s'
    ∧ score_of s' police = Z.add 800 <$> score_of s police
    ∧ score_of s' t = score_of s t
    ∧ (guessTarget_of s = Chor → score_of s' dakat = Z.add 600 <$> score_of s dakat)
    ∧ (guessTarget_of s = Dakat → score_of s' chor = Z.add 400 <$> score_of s chor)
    ∧ score_of s' babu = score_of s babu
    ∧ last (history s')
      = Some (mkHistoryEntry (currentRound s) msg
                ((λ i, mkGain i (name_of s i)
                         (round_gain s babu police chor dakat t i))
                   <$> currentPlayers s) true)
    ∧ awaitingShuffle s' = false.
Proof.
  intros HS Hgs Haw Ht Hdes Hw.
  destruct (resolveRound_spec s babu police chor dakat t HS)
    as (s' & msg & rr & tail & Hres & Hscore & _ & _ & _ & _ & Haw' & _ & Hhist & _).
  pose proof (NoDup_4 _ _ _ _ (seated_distinct _ _ _ _ _ HS))
    as (Hbp & Hbc & Hbd & Hpc & Hpd & Hcd).
  exists s', msg.
  rewrite (guess_designated s babu police chor dakat data t) by assumption.
  split; [exact Hres|].
  rewrite (bool_decide_eq_true_2 _ Hw) in Hhist.
  assert (Hgain : ∀ i, round_gain s babu police chor dakat t i
            = if decide (i = babu) then 900
              else if decide (i = police) then 800
              else if decide (i = chor)
                   then (if bool_decide (guessTarget_of s = Chor) then 0 else 400)
              else if decide (i = dakat)
                   then (if bool_decide (guessTarget_of s = Dakat) then 0 else 600)
              else 0).
  { intros i. unfold round_gain. rewrite (bool_decide_eq_true_2 _ Hw). reflexivity. }
  split.
  { rewrite Hscore, Hgain.
    repeat (destruct (decide _) as [?|?]; try congruence);
      rewrite ?bool_decide_eq_true_2 by reflexivity;
      rewrite ?bool_decide_eq_false_2 by discriminate;
      reflexivity. }
  split.
  { rewrite Hscore, Hgain. unfold wanted in Hw.
    destruct (guessTarget_cases s) as [Hg | Hg]; rewrite Hg in *; subst t;
      repeat (destruct (decide _) as [?|?]; try congruence);
      rewrite ?bool_decide_eq_true_2 by reflexivity;
      rewrite ?bool_decide_eq_false_2 by discriminate;
      apply fmap_add_0. }
  split.
  { intros Hg. rewrite Hscore, Hgain, Hg.
    repeat (destruct (decide _) as [?|?]; try congruence);
      rewrite ?bool_decide_eq_true_2 by reflexivity;
      rewrite ?bool_decide_eq_false_2 by discriminate;
      reflexivity. }
  split.
  { intros Hg. rewrite Hscore, Hgain, Hg.
    repeat (destruct (decide _) as [?|?]; try congruence);
      rewrite ?bool_decide_eq_true_2 by reflexivity;
      rewrite ?bool_decide_eq_false_2 by discriminate;
      reflexivity. }
  split.
  { rewrite Hscore. rewrite decide_True by reflexivity. apply fmap_add_0. }
  split; [|exact Haw'].
  rewrite Hhist. apply last_snoc.
Qed.

Lemma four_seated_seated : Seated four_seated "a" "b" "c" "d".
Proof.
  assert (Hcur : currentPlayers four_seated = ["a"; "b"; "c"; "d"])
    by (vm_compute; reflexivity).
  constructor.
  - rewrite Hcur. reflexivity.
  - apply (bool_decide_unpack _). vm_compute. reflexivity.
  - vm_compute. reflexivity.
  - vm_compute. reflexivity.
  - vm_compute. reflexivity.
  - vm_compute. reflexivity.
Defined.

Lemma correct_guess_pays_the_police_witness :
  Seated four_seated "a" "b" "c" "d"
  ∧ gameStarted four_seated = true ∧ awaitingShuffle four_seated = true
  ∧ "c" ≠ ""
  ∧ designates four_seated (mkGuessData (Some "c") None) "c"
  ∧ "c" = wanted four_seated "c" "d"
  ∧ ∃ s' msg,
      guess "b" (Some (mkGuessData (Some "c") None)) four_seated = Some s'
      ∧ score_of s' "b" = Z.add 800 <$> score_of four_seated "b"
      ∧ score_of s' "c" = score_of four_seated "c"
      ∧ (guessTarget_of four_seated = Chor →
           score_of s' "d" = Z.add 600 <$> score_of four_seated "d")
      ∧ (guessTarget_of four_seated = Dakat →
           score_of s' "c" = Z.add 400 <$> score_of four_seated "c")
      ∧ score_of s' "a" = score_of four_seated "a"
      ∧ last (history s')
        = Some (mkHistoryEntry (currentRound four_seated) msg
                  ((λ i, mkGain i (name_of four_seated i)
                           (round_gain four_seated "a" "b" "c" "d" "c" i))
                     <$> currentPlayers four_seated) true)
      ∧ awaitingShuffle s' = false.
Proof.
  assert (Hgs : gameStarted four_seated = true) by (vm_compute; reflexivity).
  assert (Haw : awaitingShuffle four_seated = true) by (vm_compute; reflexivity).
  assert (Hne : "c" ≠ "") by discriminate.
  assert (Hin : "c" ∈ currentPlayers four_seated)
    by (apply (bool_decide_unpack _); vm_compute; reflexivity).
  assert (Hdes : designates four_seated (mkGuessData (Some "c") None) "c")
    by (left; split; [reflexivity|exact Hin]).
  assert (Hw : "c" = wanted four_seated "c" "d") by (vm_compute; reflexivity).
  split; [exact four_seated_seated|]. split; [exact Hgs|]. split; [exact Haw|].
  split; [exact Hne|]. split; [exact Hdes|]. split; [exact Hw|].
  exact (correct_guess_pays_the_police four_seated "a" "b" "c" "d" _ "c"
           four_seated_seated Hgs Haw Hne Hdes Hw).
Defined.



(** A socket found in [waiting] that disconnects is removed from [waiting]
    and from [players], and nothing else changes: [currentPlayers] is left
    as it is, even when the socket is one of its ids. *)
Theorem waiting_disconnect_keeps_roster sid s :
  sid ∈ waiting s →
  (∀ i, i ∈ waiting s → is_Some (players s !! i)) →
  ∃ s' names,
    disconnect sid s = Some s'
    ∧ waiting s' = filter (λ i, i ≠ sid) (waiting s)
    ∧ players s' = delete sid (players s)
    ∧ currentPlayers s' = currentPlayers s
    ∧ gameStarted s' = gameStarted s
    ∧ awaitingShuffle s' = awaitingShuffle s
    ∧ currentRound s' = currentRound s
    ∧ history s' = history s
    ∧ out s' = out s ++ [mkEmit None (updatePlayers names)].
Proof.
  intros Hin Hreg. unfold disconnect, includes.
  rewrite (bool_decide_eq_true_2 _ Hin). unfold lobby_names. simpl.
  destruct (mapM_Some (λ i, name <$> delete sid (players s) !! i)
              (filter (λ i, i ≠ sid) (waiting s))) as (names & Hnames & _).
  { intros i [Hne Hi]%list_elem_of_filter.
    rewrite lookup_delete_ne by (intros ->; by apply Hne).
    destruct (Hreg i Hi) as [p ->]. eexists. reflexivity. }
  rewrite Hnames. simpl. eexists _, _. split; [reflexivity|].
  simpl. repeat split; reflexivity.
Qed.

Lemma waiting_disconnect_keeps_roster_witness :
  run insertion_plan (four_join ++ [Disconnect "a"]) (init calm) = Some one_left
  ∧ currentPlayers one_left = ["b"; "c"; "d"]
  ∧ "b" ∈ waiting one_left
  ∧ ∃ s' names,
      disconnect "b" one_left = Some s'
      ∧ waiting s' = filter (λ i, i ≠ "b") (waiting one_left)
      ∧ players s' = delete "b" (players one_left)
      ∧ currentPlayers s' = currentPlayers one_left
      ∧ gameStarted s' = gameStarted one_left
      ∧ awaitingShuffle s' = awaitingShuffle one_left
      ∧ currentRound s' = currentRound one_left
      ∧ history s' = history one_left
      ∧ out s' = out one_left ++ [mkEmit None (updatePlayers names)].
Proof.
  assert (Hin : "b" ∈ waiting one_left)
    by (apply (bool_decide_unpack _); vm_compute; reflexivity).
  assert (Hreg : ∀ i, i ∈ waiting one_left → is_Some (players one_left !! i)).
  { assert (Hw : waiting one_left = ["b"; "c"; "d"]) by (vm_compute; reflexivity).
    intros i Hi. rewrite Hw in Hi.
    repeat (apply elem_of_cons in Hi as [->|Hi];
            [apply (bool_decide_unpack _); vm_compute; reflexivity|]).
    apply elem_of_nil in Hi. destruct Hi. }
  split; [vm_compute; reflexivity|]. split; [vm_compute; reflexivity|].
  split; [exact Hin|].
  exact (waiting_disconnect_keeps_roster "b" one_left Hin Hreg).
Defined.



End ParityFacts.

(** ** src/server/index.js *)

Module SimpleFacts.
Import Simple SimpleSpec.

(** *** The ordered map *)

Section obj.
Context {V : Type}.
Implicit Types (o : list (string * V)) (k : string).

Lemma obj_get_set_eq o k v : obj_get (obj_set k v o) k = Some v.
Proof.
  induction o as [|[k' v'] o IH]; simpl.
  - by rewrite decide_True.
  - destruct (decide (k = k')) as [->|Hne]; simpl.
    + by rewrite decide_True.
    + by rewrite decide_False.
Qed.

Lemma obj_get_set_ne o k k' v : k ≠ k' → obj_get (obj_set k v o) k' = obj_get o k'.
Proof.
  intros Hne. induction o as [|[k0 v0] o IH]; simpl.
  - by rewrite decide_False by (by apply not_eq_sym).
  - destruct (decide (k = k0)) as [->|Hne0]; simpl.
    + by rewrite !decide_False by (by apply not_eq_sym).
    + destruct (decide (k' = k0)); [done|]. apply IH.
Qed.

Lemma obj_get_delete_eq o k : obj_get (obj_delete k o) k = None.
Proof.
  induction o as [|[k0 v0] o IH]; simpl; [done|].
  destruct (decide (k = k0)) as [->|Hne]; simpl; [done|].
  by rewrite decide_False.
Qed.

Lemma obj_get_delete_ne o k k' : k ≠ k' → obj_get (obj_delete k o) k' = obj_get o k'.
Proof.
  intros Hne. induction o as [|[k0 v0] o IH]; simpl; [done|].
  destruct (decide (k = k0)) as [->|Hne0]; simpl.
  - by rewrite decide_False by (by apply not_eq_sym).
  - destruct (decide (k' = k0)); [done|]. apply IH.
Qed.

Lemma obj_get_fmap (f : V → V) o k :
  obj_get (prod_map (λ k, k) f <$> o) k = f <$> obj_get o k.
Proof.
  induction o as [|[k0 v0] o IH]; simpl; [done|].
  destruct (decide (k = k0)); [done|]. apply IH.
Qed.

Lemma obj_keys_fmap (f : V → V) o :
  obj_keys (prod_map (λ k, k) f <$> o) = obj_keys o.
Proof.
  unfold obj_keys. induction o as [|[k0 v0] o IH]; [done|].
  rewrite !fmap_cons. simpl. by f_equal.
Qed.

Lemma elem_of_obj_keys o k : k ∈ obj_keys o ↔ is_Some (obj_get o k).
Proof.
  unfold obj_keys. induction o as [|[k0 v0] o IH]; simpl.
  - split; [by intros ?%elem_of_nil|by intros [? ?]].
  - rewrite elem_of_cons. destruct (decide (k = k0)) as [->|Hne].
    + split; [by eexists|by left].
    + rewrite IH. split; [by intros [?|?]|by right].
Qed.

End obj.


(** *** Role assignment *)

Ltac obj_chain :=
  repeat first
    [ rewrite obj_get_set_eq
    | rewrite obj_get_set_ne by (done || (by apply not_eq_sym)) ].

Lemma simple_assignRoles_eq engine s a b c d pa pb pc pd r0 r1 r2 r3 cur :
  Table s a b c d pa pb pc pd →
  run_plan engine half_minus_random (rand s) (cursor s) ROLES
    = ([r0; r1; r2; r3], cur) →
  assignRoles engine s =
  Some (set_players
          (obj_set d (assign_role r3 pd) (obj_set c (assign_role r2 pc)
             (obj_set b (assign_role r1 pb) (obj_set a (assign_role r0 pa) (players s)))))
          (set_cursor cur s)).
Proof.
  intros [Hros Hnd Ha Hb Hc Hd] Hrun.
  apply ParityFacts.NoDup_4 in Hnd as (Hab & Hac & Had & Hbc & Hbd & Hcd).
  destruct s as [m w gp rd cp nw ts rn cu o]; simpl in *. subst cp.
  unfold assignRoles. simpl. rewrite Hrun. simpl.
  unfold modify_player. simpl. rewrite Ha. simpl.
  obj_chain. rewrite Hb. simpl.
  obj_chain. rewrite Hc. simpl.
  obj_chain. rewrite Hd. simpl.
  done.
Qed.

(** A loop in which every step sends one notification to the id it visits. *)
Lemma forEach_notifies (cb : string → State → option State) l s :
  (∀ i st, i ∈ l → players st = players s →
           currentPlayers st = currentPlayers s →
           currentRound st = currentRound s →
           ∃ e, cb i st = Some (emit (Some i) e st)) →
  ∃ evs, forEach cb l s = Some (set_out (out s ++ evs) s).
Proof.
  intros Hcb.
  assert (Hgen : ∀ st, players st = players s →
            currentPlayers st = currentPlayers s →
            currentRound st = currentRound s →
            ∃ evs, forEach cb l st = Some (set_out (out st ++ evs) st)).
  { induction l as [|i l IH]; intros st H1 H2 H3; simpl.
    - exists []. rewrite app_nil_r. by destruct st.
    - destruct (Hcb i st) as [e ->]; [left|done|done|done|]. simpl.
      destruct (IH (λ j st' Hj, Hcb j st' (list_elem_of_further _ _ _ Hj))
                  (emit (Some i) e st)) as [evs ->]; [done|done|done|].
      exists (mkEmit (Some i) e :: evs). destruct st. unfold emit, set_out. simpl.
      by rewrite <- app_assoc. }
  by apply Hgen.
Qed.

(** After the roles are assigned, [startRound] only sends notifications. *)
Lemma simple_startRound_after_assign engine s s1 :
  assignRoles engine (set_currentRound (currentRound s + 1) s) = Some s1 →
  (∀ i, i ∈ currentPlayers s1 → is_Some (obj_get (players s1) i)) →
  ∃ evs, startRound engine s = Some (set_out (out s1 ++ evs) s1).
Proof.
  intros Hassign Hreg. unfold startRound. rewrite Hassign. simpl.
  destruct (forEach_notifies
    (λ i st,
       player ← obj_get (players st) i;
       scoreBoard ← mapM (λ pid, p ← obj_get (players st) pid;
                                 Some (mkScoreRow pid (name p) (score p)))
                      (currentPlayers st);
       Some (emit (Some i)
               (roleAssigned (role player) (currentRound st) MAX_ROUNDS scoreBoard)
               st))
    (currentPlayers s1) s1) as [evs ->].
  { intros i st Hi -> -> _. destruct (Hreg i Hi) as [p ->]. simpl.
    destruct (mapM_Some (λ pid, p ← obj_get (players s1) pid;
                                Some (mkScoreRow pid (name p) (score p)))
                (currentPlayers s1)) as (rows & -> & _).
    { intros j Hj. destruct (Hreg j Hj) as [q ->]. by eexists. }
    simpl. by eexists. }
  simpl.
  destruct (findM_Some (λ i, p ← obj_get (players s1) i;
                             Some (bool_decide (role p = Some Police)))
              (currentPlayers s1)) as [policeId ->].
  { intros i Hi. destruct (Hreg i Hi) as [p ->]. by eexists. }
  simpl. destruct (obj_get (players s1) (key_of policeId)) as [police|];
    [|by eexists].
  destruct (mapM_Some (λ i, q ← obj_get (players s1) i; Some (i, name q))
              (List.filter (λ i, negb (bool_decide (Some i = policeId)))
                 (currentPlayers s1))) as (targets & -> & _).
  { intros i Hi. apply list_elem_of_In, filter_In in Hi as [Hi _].
    apply list_elem_of_In in Hi. destruct (Hreg i Hi) as [q ->]. by eexists. }
  simpl. destruct s1. unfold emit, set_out. simpl. rewrite <- app_assoc.
  by eexists.
Qed.


(** Four distinct players with the four roles of a shuffle form a bijection. *)
Lemma onto_roles_4 (a b c d : string) (f : string → option Role) r0 r1 r2 r3 :
  NoDup [a; b; c; d] → [r0; r1; r2; r3] ∈ all_shuffles →
  f a = Some r0 → f b = Some r1 → f c = Some r2 → f d = Some r3 →
  onto_roles [a; b; c; d] f.
Proof.
  intros Hnd Hcases Ha Hb Hc Hd.
  pose proof (ParityFacts.NoDup_4 _ _ _ _ Hnd) as (Hab & Hac & Had & Hbc & Hbd & Hcd).
  split; [done|]. split.
  - intros i Hi.
    repeat (apply elem_of_cons in Hi as [->|Hi]); [..|by apply elem_of_nil in Hi];
      by eexists.
  - intros r.
    exists (ParitySpec.holder r [r0; r1; r2; r3] [a; b; c; d]).
    ParityFacts.shuffle_cases Hcases; destruct r; simpl;
      (split; [rewrite !elem_of_cons; tauto|]; split; [done|];
       intros j Hj Hrj;
       repeat (apply elem_of_cons in Hj as [->|Hj]); [..|by apply elem_of_nil in Hj];
       congruence).
Qed.

Lemma startRound_onto_roles engine s a b c d pa pb pc pd :
  Table s a b c d pa pb pc pd →
  ∃ s', startRound engine s = Some s'
        ∧ currentPlayers s' = [a; b; c; d]
        ∧ currentRound s' = currentRound s + 1
        ∧ onto_roles (currentPlayers s') (role_of s').
Proof.
  intros HT.
  destruct (sorted_roles engine half_minus_random (rand s) (cursor s) ROLES)
    as (r0 & r1 & r2 & r3 & cur & Hrun & Hcases); [by apply (bool_decide_unpack _)|].
  assert (HT' : Table (set_currentRound (currentRound s + 1) s) a b c d pa pb pc pd)
    by (destruct HT; by constructor).
  pose proof (simple_assignRoles_eq engine _ a b c d pa pb pc pd r0 r1 r2 r3 cur HT' Hrun)
    as Hassign.
  destruct HT as [Hros Hnd Ha Hb Hc Hd].
  pose proof (ParityFacts.NoDup_4 _ _ _ _ Hnd) as (Hab & Hac & Had & Hbc & Hbd & Hcd).
  destruct (simple_startRound_after_assign engine s _ Hassign) as [evs Hstart].
  { simpl. rewrite Hros. intros i Hi.
    repeat (apply elem_of_cons in Hi as [->|Hi]); [..|by apply elem_of_nil in Hi];
      obj_chain; by eexists. }
  eexists. split; [exact Hstart|]. simpl. rewrite Hros.
  split; [done|]. split; [done|].
  apply (onto_roles_4 a b c d _ r0 r1 r2 r3 Hnd Hcases);
    unfold role_of; simpl; obj_chain; done.
Qed.


(** *** A wrong guess *)

Lemma simple_emit_each_out ids e s :
  emit_each ids e s = set_out (out s ++ ((λ i, mkEmit (Some i) e) <$> ids)) s.
Proof.
  revert s. induction ids as [|i ids IH]; intros s; simpl.
  - rewrite app_nil_r. by destruct s.
  - change (emit_each ids e (emit (Some i) e s) =
            set_out (out s ++ mkEmit (Some i) e :: ((λ i, mkEmit (Some i) e) <$> ids)) s).
    rewrite IH. destruct s. unfold emit, set_out. simpl. by rewrite <- app_assoc.
Qed.

Lemma handleGuess_incorrect s policeId guessedId pp gp :
  obj_get (players s) policeId = Some pp →
  obj_get (players s) guessedId = Some gp →
  role gp ≠ Some Chor →
  (∀ i, i ∈ currentPlayers s → is_Some (obj_get (players s) i)) →
  ∃ s' tail,
    handleGuess policeId guessedId s = Some s'
    ∧ (∀ i, score_of s' i = Z.add (transfer policeId guessedId i) <$> score_of s i)
    ∧ out s' = out s
               ++ ((λ i, mkEmit (Some i)
                           (roundResult (wrong_guess_message pp gp) false
                              (result_rows s policeId guessedId)))
                     <$> currentPlayers s)
               ++ tail.
Proof.
  intros Hpp Hgp Hrole Hreg.
  set (gp' := if decide (policeId = guessedId) then add_score (Z.opp 500) pp else gp).
  set (m' := obj_set guessedId (add_score 500 gp')
               (obj_set policeId (add_score (Z.opp 500) pp) (players s))).
  assert (Hgp' : obj_get (obj_set policeId (add_score (Z.opp 500) pp) (players s)) guessedId
                 = Some gp').
  { unfold gp'. destruct (decide (policeId = guessedId)) as [->|Hne].
    - apply obj_get_set_eq.
    - by rewrite obj_get_set_ne. }
  assert (Hm' : ∀ i, obj_get m' i =
            (λ p, add_score ((if decide (i = guessedId) then 500 else 0)
                             - (if decide (i = policeId) then 500 else 0)) p)
              <$> obj_get (players s) i).
  { intros i. unfold m'.
    destruct (decide (i = guessedId)) as [->|Hig].
    - rewrite obj_get_set_eq, Hgp. simpl. f_equal. unfold gp'.
      destruct (decide (policeId = guessedId)) as [->|Hne].
      + rewrite decide_True by done.
        assert (pp = gp) as -> by congruence.
        destruct gp. unfold add_score. simpl. f_equal. lia.
      + rewrite decide_False by (by apply not_eq_sym). done.
    - rewrite obj_get_set_ne by (by apply not_eq_sym).
      destruct (decide (i = policeId)) as [->|Hip].
      + rewrite obj_get_set_eq, Hpp. done.
      + rewrite obj_get_set_ne by (by apply not_eq_sym).
        destruct (obj_get (players s) i) as [[]|]; [|done].
        simpl. unfold add_score. simpl. do 2 f_equal. lia. }
  assert (Hreg' : ∀ i, i ∈ currentPlayers s → is_Some (obj_get m' i)).
  { intros i Hi. rewrite Hm'. destruct (Hreg i Hi) as [p ->]. by eexists. }
  assert (Hrows : mapM (λ pid, p ← obj_get m' pid;
                               Some (mkResultRow pid (name p) (role p) (score p)))
                    (currentPlayers s) = Some (result_rows s policeId guessedId)).
  { apply mapM_fmap. intros i Hi. rewrite Hm'. unfold role_of, score_of.
    destruct (Hreg i Hi) as [p ->]. simpl. unfold transfer. simpl.
    do 2 f_equal. }
  destruct (mapM_Some (λ i, score <$> obj_get m' i) (currentPlayers s))
    as (scores & Hscores & _).
  { intros i Hi. destruct (Hreg' i Hi) as [p ->]. by eexists. }
  destruct (filterM_Some
    (λ i, p ← obj_get m' i; Some (bool_decide (Some (score p) = max_list scores)))
    (currentPlayers s)) as (ws & Hfilter & Hws).
  { intros i Hi. destruct (Hreg' i Hi) as [p ->]. by eexists. }
  destruct (mapM_Some (λ i, name <$> obj_get m' i) ws) as (names & Hnames & _).
  { intros i Hi. destruct (Hreg' i (Hws i Hi)) as [p ->]. by eexists. }
  pose proof (eq_refl (handleGuess policeId guessedId s)) as Hres.
  unfold handleGuess at 2 in Hres. rewrite Hgp, Hpp in Hres.
  rewrite decide_False in Hres by done.
  unfold modify_player in Hres. simpl in Hres. rewrite Hpp in Hres.
  simpl in Hres. rewrite Hgp' in Hres. simpl in Hres. fold m' in Hres.
  rewrite Hrows in Hres. simpl in Hres.
  rewrite simple_emit_each_out in Hres. simpl in Hres.
  exists (default s (handleGuess policeId guessedId s)).
  destruct (bool_decide (currentRound s < MAX_ROUNDS)).
  - rewrite Hres. simpl. exists []. split; [done|]. split.
    + intros i. unfold score_of. simpl. rewrite Hm'.
      unfold transfer. simpl.
      destruct (obj_get (players s) i) as [p|]; simpl; [f_equal; lia|done].
    + by rewrite app_nil_r.
  - rewrite Hscores in Hres. simpl in Hres. rewrite Hfilter in Hres.
    simpl in Hres. rewrite Hnames in Hres. simpl in Hres.
    rewrite simple_emit_each_out in Hres.
    rewrite Hres. simpl. eexists. split; [done|]. split.
    + intros i. unfold score_of. simpl. rewrite obj_get_fmap, Hm'.
      unfold transfer. simpl.
      destruct (obj_get (players s) i) as [p|]; simpl; [f_equal; lia|done].
    + rewrite <- !app_assoc. reflexivity.
Qed.


(** *** A player of the running game disconnects *)

Lemma simple_disconnect_in_game s sid :
  sid ∈ currentPlayers s →
  ∃ s',
    disconnect sid s = Some s'
    ∧ gameInProgress s' = false
    ∧ currentRound s' = 0
    ∧ currentPlayers s' = []
    ∧ timers s' = timers s
    ∧ out s' = out s
               ++ ((λ i, mkEmit (Some i) (playerLeft left_message))
                     <$> filter (λ i, i ≠ sid) (currentPlayers s))
               ++ [mkEmit None gameReset]
    ∧ obj_get (players s') sid = None
    ∧ (∀ i p, i ≠ sid → obj_get (players s) i = Some p →
         i ∈ waitingQueue s' ∧ obj_get (players s') i = Some (clear_role p)).
Proof.
  intros Hin. unfold disconnect, includes.
  rewrite (bool_decide_eq_true_2 _ Hin). eexists. split; [reflexivity|].
  simpl. rewrite simple_emit_each_out. simpl.
  split; [done|]. split; [done|]. split; [done|]. split; [done|].
  split; [by rewrite <- app_assoc|].
  split; [by rewrite obj_get_fmap, obj_get_delete_eq|].
  intros i p Hne Hp. split.
  - apply elem_of_obj_keys. rewrite obj_get_delete_ne by (by apply not_eq_sym).
    by eexists.
  - rewrite obj_get_fmap, obj_get_delete_ne by (by apply not_eq_sym).
    by rewrite Hp.
Qed.

Lemma guess_not_in_progress sid g s :
  gameInProgress s = false → guess sid g s = Some s.
Proof. intros H. unfold guess. by rewrite H. Qed.

Lemma simple_guess_not_police sid g s :
  (∀ p, obj_get (players s) sid = Some p → role p ≠ Some Police) →
  guess sid g s = Some s.
Proof.
  intros Hp. unfold guess. destruct (negb _); [done|].
  destruct (obj_get (players s) sid) as [p|]; [|done].
  by rewrite decide_False by (by apply Hp).
Qed.

(** *** Runs of the server *)


(** C2 (fails on src/server/index.js): the Police ["c"] names the Babu
    ["d"]; the round is resolved, the cooldown timer is pending and the
    roles are still those of round 1.  The same guess sent again during the
    cooldown runs [handleGuess] a second time: 500 more points move from the
    Police to the accused, and a second cooldown timer is scheduled. *)
Theorem second_guess_in_cooldown_moves_points :
  let resolved := after (four_join ++ [Elapse 1000; Guess "c" "d"]) in
  run insertion_plan (four_join ++ [Elapse 1000; Guess "c" "d"]) (init calm)
    = Some resolved
  ∧ timers resolved = [(5000, NextRound)]
  ∧ currentRound resolved = 1
  ∧ role_of resolved "c" = Some Police
  ∧ score_of round_one "c" = Some 500 ∧ score_of round_one "d" = Some 1000
  ∧ score_of resolved "c" = Some 0 ∧ score_of resolved "d" = Some 1500
  ∧ ∃ again,
      guess "c" "d" resolved = Some again
      ∧ score_of again "c" = Some (-500) ∧ score_of again "d" = Some 2000
      ∧ currentRound again = 1
      ∧ timers again = [(5000, NextRound); (5000, NextRound)].
Proof.
  cbv zeta. repeat (split; [by vm_compute|]).
  eexists. repeat (split; [by vm_compute|]). by vm_compute.
Qed.

(** C8 (fails on src/server/index.js, by the defect of C2): the Police ["c"]
    names the Chor ["a"], which resolves round 1 as correct.  Two seconds
    later no round is awaiting a guess, yet a guess of ["c"] naming ["b"] is
    handled: 500 points move from ["c"] to ["b"]. *)
Theorem guess_after_resolution_changes_scores :
  let resolved :=
    after (four_join ++ [Elapse 1000; Guess "c" "a"; Elapse 2000]) in
  run insertion_plan (four_join ++ [Elapse 1000; Guess "c" "a"; Elapse 2000])
    (init calm) = Some resolved
  ∧ (∃ scores, last (out resolved)
       = Some (mkEmit (Some "d")
                 (roundResult "Cy correctly guessed that Ann is the Chor." true scores)))
  ∧ timers resolved = [(5000, NextRound)] ∧ now resolved = 3000
  ∧ score_of resolved "c" = Some 500 ∧ score_of resolved "b" = Some 300
  ∧ ∃ late,
      guess "c" "b" resolved = Some late
      ∧ score_of late "c" = Some 0 ∧ score_of late "b" = Some 800.
Proof.
  cbv zeta. split; [by vm_compute|].
  split; [eexists; vm_compute; reflexivity|].
  repeat (split; [by vm_compute|]).
  eexists. repeat (split; [by vm_compute|]). by vm_compute.
Qed.

(** C3 (fails on src/server/index.js): ["a"] disconnects one second into the
    cooldown.  [resetGame] empties the roster but the cooldown timer stays
    pending, and its callback calls [startRound] without any check: three
    seconds later the round counter of the reset server is 1.  If a fifth
    player joins in the meantime, the stale timer starts a round of the new
    game: round 1 of the new game, which awaits its guess, is overwritten by
    round 2. *)
Theorem stale_cooldown_timer_starts_round :
  let cooldown := [Elapse 1000; Guess "c" "d"; Elapse 1000; Disconnect "a"] in
  let reset := after (four_join ++ cooldown) in
  let fired := after (four_join ++ cooldown ++ [Elapse 3000]) in
  let rejoin := cooldown ++ [Connect "e"; JoinGame "e" "Eve"; Elapse 1000] in
  let new_game := after (four_join ++ rejoin) in
  let hijacked := after (four_join ++ rejoin ++ [Elapse 2000]) in
  run insertion_plan (four_join ++ cooldown) (init calm) = Some reset
  ∧ gameInProgress reset = false ∧ currentRound reset = 0
  ∧ currentPlayers reset = [] ∧ timers reset = [(5000, NextRound)]
  ∧ run insertion_plan (four_join ++ cooldown ++ [Elapse 3000]) (init calm)
    = Some fired
  ∧ gameInProgress fired = false ∧ currentPlayers fired = []
  ∧ currentRound fired = 1
  ∧ run insertion_plan (four_join ++ rejoin) (init calm) = Some new_game
  ∧ currentPlayers new_game = ["b"; "c"; "d"; "e"]
  ∧ currentRound new_game = 1 ∧ timers new_game = [(5000, NextRound)]
  ∧ (∃ targets, last (out new_game)
       = Some (mkEmit (Some "d") (requestGuess targets)))
  ∧ run insertion_plan (four_join ++ rejoin ++ [Elapse 2000]) (init calm)
    = Some hijacked
  ∧ currentRound hijacked = 2
  ∧ out hijacked ≠ out new_game
  ∧ score_of new_game "e" = Some 1000 ∧ score_of hijacked "e" = Some 2000.
Proof.
  cbv zeta. repeat match goal with |- _ ∧ _ => split end;
    first [by vm_compute | eexists; vm_compute; reflexivity].
Qed.

(** C4, as stated, fails: the Police ["c"] names the Babu ["d"] while the
    Chor is ["a"].  The 500 points go to the accused ["d"], the Chor's score
    stays 0, and the message names the accused and the accused's role only. *)
Lemma wrong_guess_pays_the_accused :
  ∃ resolved scores,
    guess "c" "d" round_one = Some resolved
    ∧ role_of round_one "a" = Some Chor ∧ role_of round_one "d" = Some Babu
    ∧ score_of resolved "a" ≠ Z.add 500 <$> score_of round_one "a"
    ∧ score_of round_one "a" = Some 0 ∧ score_of resolved "a" = Some 0
    ∧ score_of round_one "d" = Some 1000 ∧ score_of resolved "d" = Some 1500
    ∧ score_of round_one "c" = Some 500 ∧ score_of resolved "c" = Some 0
    ∧ last (out resolved)
      = Some (mkEmit (Some "d")
                (roundResult "Cy guessed incorrectly; Dee was the Babu." false scores)).
Proof.
  eexists _, _. repeat (split; [by vm_compute|]). vm_compute. reflexivity.
Qed.

(** C4, amended: in src/server/index.js, when the Police names a current
    player who is not the Chor, 500 points are taken from the Police and
    given to the accused (nothing changes when the Police names themselves),
    every other score is left alone, and the result sent to every current
    player is marked incorrect, with a message that names the accused and
    the accused's role and a scoreboard that lists the role of every current
    player. *)
Theorem wrong_guess_transfers_to_accused s policeId guessedId pp gp :
  gameInProgress s = true →
  obj_get (players s) policeId = Some pp → role pp = Some Police →
  guessedId ∈ currentPlayers s →
  obj_get (players s) guessedId = Some gp → role gp ≠ Some Chor →
  (∀ i, i ∈ currentPlayers s → is_Some (obj_get (players s) i)) →
  ∃ s' tail,
    guess policeId guessedId s = Some s'
    ∧ (∀ i, score_of s' i = Z.add (transfer policeId guessedId i) <$> score_of s i)
    ∧ out s' = out s
               ++ ((λ i, mkEmit (Some i)
                           (roundResult (wrong_guess_message pp gp) false
                              (result_rows s policeId guessedId)))
                     <$> currentPlayers s)
               ++ tail.
Proof.
  intros Hgame Hpp Hpolice Hin Hgp Hrole Hreg.
  destruct (handleGuess_incorrect s policeId guessedId pp gp Hpp Hgp Hrole Hreg)
    as (s' & tail & Hres & Hscore & Hout).
  exists s', tail. split; [|done].
  unfold guess, includes. rewrite Hgame, Hpp. simpl.
  by rewrite decide_True, bool_decide_eq_true_2.
Qed.

Lemma wrong_guess_transfers_to_accused_witness :
  gameInProgress round_one = true
  ∧ obj_get (players round_one) "c" = Some (mkPlayer "c" (Some "Cy") 500 (Some Police))
  ∧ "d" ∈ currentPlayers round_one
  ∧ obj_get (players round_one) "d" = Some (mkPlayer "d" (Some "Dee") 1000 (Some Babu))
  ∧ ∃ s' tail,
      guess "c" "d" round_one = Some s'
      ∧ (∀ i, score_of s' i = Z.add (transfer "c" "d" i) <$> score_of round_one i)
      ∧ out s' = out round_one
                 ++ ((λ i, mkEmit (Some i)
                             (roundResult
                                (wrong_guess_message
                                   (mkPlayer "c" (Some "Cy") 500 (Some Police))
                                   (mkPlayer "d" (Some "Dee") 1000 (Some Babu)))
                                false (result_rows round_one "c" "d")))
                       <$> currentPlayers round_one)
                 ++ tail.
Proof.
  assert (Hgame : gameInProgress round_one = true) by (by vm_compute).
  assert (Hpp : obj_get (players round_one) "c"
                = Some (mkPlayer "c" (Some "Cy") 500 (Some Police))) by (by vm_compute).
  assert (Hgp : obj_get (players round_one) "d"
                = Some (mkPlayer "d" (Some "Dee") 1000 (Some Babu))) by (by vm_compute).
  assert (Hin : "d" ∈ currentPlayers round_one).
  { apply (bool_decide_unpack _). by vm_compute. }
  assert (Hreg : ∀ i, i ∈ currentPlayers round_one
                      → is_Some (obj_get (players round_one) i)).
  { intros i Hi. apply elem_of_obj_keys.
    assert (Hsub : currentPlayers round_one ⊆ obj_keys (players round_one)).
    { apply (bool_decide_unpack _). by vm_compute. }
    by apply Hsub. }
  split; [exact Hgame|]. split; [exact Hpp|]. split; [exact Hin|].
  split; [exact Hgp|].
  exact (wrong_guess_transfers_to_accused round_one "c" "d" _ _
           Hgame Hpp eq_refl Hin Hgp ltac:(discriminate) Hreg).
Defined.

(** C6, as stated, fails on src/server/index.js: ["a"] disconnects while
    round 1 awaits its guess; the three remaining players keep the points of
    the aborted round. *)
Lemma disconnect_keeps_scores :
  ∃ reset,
    disconnect "a" round_one = Some reset
    ∧ ¬ (∀ i, i ∈ ["b"; "c"; "d"] → score_of reset i = Some 0).
Proof.
  eexists. split; [by vm_compute|].
  intros H.
  assert (Hd : score_of (default round_one (disconnect "a" round_one)) "d" = Some 0).
  { apply H. do 2 apply list_elem_of_further. apply list_elem_of_here. }
  vm_compute in Hd. discriminate.
Qed.

Example simple_v8_deals_the_example_runs :
  Forall (λ inputs, shown <$> run v8_plan inputs (init falling)
                    = shown <$> run insertion_plan inputs (init calm))
    [four_join ++ [Elapse 1000];
     four_join ++ [Elapse 1000; Guess "c" "d"; Guess "c" "d"];
     four_join ++ [Elapse 1000; Guess "c" "a"; Elapse 2000; Guess "c" "b"];
     four_join ++ [Elapse 1000; Guess "c" "d"; Elapse 1000; Disconnect "a";
                   Elapse 3000];
     four_join ++ [Elapse 1000; Guess "c" "d"; Elapse 1000; Disconnect "a";
                   Connect "e"; JoinGame "e" "Eve"; Elapse 1000; Elapse 2000]].
Proof.
  repeat (apply Forall_cons; split; [vm_compute; reflexivity|]).
  apply Forall_nil. exact I.
Qed.

Section obj_keys.
Context {V : Type}.
Implicit Types (o : list (string * V)) (k : string).

Lemma obj_keys_set_old o k v :
  is_Some (obj_get o k) → obj_keys (obj_set k v o) = obj_keys o.
Proof.
  unfold obj_keys. induction o as [|[k0 v0] o IH]; simpl; [by intros [? ?]|].
  destruct (decide (k = k0)) as [->|Hne]; simpl; [done|].
  intros H. f_equal. by apply IH.
Qed.

Lemma obj_keys_set_new o k v :
  obj_get o k = None → obj_keys (obj_set k v o) = obj_keys o ++ [k].
Proof.
  unfold obj_keys. induction o as [|[k0 v0] o IH]; simpl; [done|].
  destruct (decide (k = k0)) as [->|Hne]; simpl; [done|].
  intros H. f_equal. by apply IH.
Qed.

Lemma obj_keys_delete o k :
  obj_keys (obj_delete k o) = filter (λ i, i ≠ k) (obj_keys o).
Proof.
  unfold obj_keys. induction o as [|[k0 v0] o IH]; simpl; [done|].
  rewrite filter_cons. simpl.
  destruct (decide (k = k0)) as [->|Hne].
  - rewrite decide_False by (intros H; by apply H). apply IH.
  - rewrite decide_True by (by apply not_eq_sym). simpl. f_equal. apply IH.
Qed.

End obj_keys.

Lemma same_frame_refl s : same_frame s s.
Proof. by repeat split. Qed.

Lemma same_frame_trans s1 s2 s3 :
  same_frame s1 s2 → same_frame s2 s3 → same_frame s1 s3.
Proof.
  intros (H1 & H2 & H3 & H4) (G1 & G2 & G3 & G4).
  repeat split; congruence.
Qed.

Lemma Orderly_frame s s' : Orderly s → same_frame s s' → Orderly s'.
Proof.
  intros [Hk Hs Hg] (H1 & H2 & H3 & H4).
  constructor; by rewrite ?H1, ?H2, ?H3, ?H4.
Qed.

Lemma Orderly_registered s i :
  Orderly s → i ∈ waitingQueue s ++ currentPlayers s ↔ is_Some (obj_get (players s) i).
Proof. intros [_ Hs _]. by rewrite Hs, elem_of_obj_keys. Qed.

Lemma Orderly_current s i :
  Orderly s → i ∈ currentPlayers s → is_Some (obj_get (players s) i).
Proof.
  intros HO Hi. apply (Orderly_registered s i HO), elem_of_app. by right.
Qed.

Lemma Orderly_waiting s i :
  Orderly s → i ∈ waitingQueue s → is_Some (obj_get (players s) i).
Proof.
  intros HO Hi. apply (Orderly_registered s i HO), elem_of_app. by left.
Qed.

Lemma modify_player_frame i f s :
  is_Some (obj_get (players s) i) →
  ∃ s', modify_player i f s = Some s' ∧ same_frame s s'.
Proof.
  intros [p Hp]. unfold modify_player. rewrite Hp. simpl.
  eexists. split; [done|]. repeat split; simpl.
  apply obj_keys_set_old. by eexists.
Qed.

Lemma forEach_frame (cb : string → State → option State) l s :
  (∀ i st, i ∈ l → same_frame s st → ∃ st', cb i st = Some st' ∧ same_frame st st') →
  ∃ s', forEach cb l s = Some s' ∧ same_frame s s'.
Proof.
  intros Hcb.
  assert (Hgen : ∀ st, same_frame s st →
            ∃ s', forEach cb l st = Some s' ∧ same_frame st s').
  { induction l as [|i l IH]; intros st Hst; simpl.
    - exists st. split; [done|apply same_frame_refl].
    - destruct (Hcb i st) as (st' & -> & Hst'); [left|done|]. simpl.
      destruct (IH (λ j st0 Hj, Hcb j st0 (list_elem_of_further _ _ _ Hj)) st')
        as (s' & -> & Hs'); [by eapply same_frame_trans|].
      exists s'. split; [done|]. by eapply same_frame_trans. }
  apply Hgen, same_frame_refl.
Qed.

Lemma Orderly_NoDup s :
  Orderly s → NoDup (waitingQueue s) ∧ NoDup (currentPlayers s)
              ∧ ∀ i, i ∈ currentPlayers s → i ∉ waitingQueue s.
Proof.
  intros [Hk Hs _]. rewrite <- Hs in Hk. apply NoDup_app in Hk as (Hw & Hd & Hc).
  split; [done|]. split; [done|]. intros i Hi Hw'. by apply (Hd i).
Qed.

Lemma Orderly_table s :
  Orderly s →
  currentPlayers s = []
  ∨ ∃ a b c d pa pb pc pd, Table s a b c d pa pb pc pd.
Proof.
  intros HO. pose proof (Orderly_NoDup s HO) as (_ & Hnd & _).
  pose proof (Orderly_current s) as Hreg.
  pose proof (orderly_game s HO) as Hg.
  destruct (gameInProgress s); [|by left]. right.
  destruct (currentPlayers s) as [|a [|b [|c [|d [|]]]]] eqn:Hcur; try done.
  destruct (Hreg a) as [pa Ha]; [done|rewrite !elem_of_cons; tauto|].
  destruct (Hreg b) as [pb Hb]; [done|rewrite !elem_of_cons; tauto|].
  destruct (Hreg c) as [pc Hc]; [done|rewrite !elem_of_cons; tauto|].
  destruct (Hreg d) as [pd Hd]; [done|rewrite !elem_of_cons; tauto|].
  exists a, b, c, d, pa, pb, pc, pd. by constructor.
Qed.

Lemma startRound_frame engine s :
  Orderly s → ∃ s', startRound engine s = Some s' ∧ same_frame s s'.
Proof.
  intros HO.
  destruct (Orderly_table s HO) as [Hnil | (a & b & c & d & pa & pb & pc & pd & HT)].
  - assert (Hassign : ∃ cu, assignRoles engine (set_currentRound (currentRound s + 1) s)
              = Some (set_cursor cu (set_currentRound (currentRound s + 1) s))).
    { unfold assignRoles. simpl. rewrite Hnil.
      destruct (run_plan engine half_minus_random (rand s) (cursor s) ROLES) as [sh cu].
      by exists cu. }
    destruct Hassign as [cu Hassign].
    destruct (simple_startRound_after_assign engine s _ Hassign) as [evs ->].
    { simpl. rewrite Hnil. by intros i ?%elem_of_nil. }
    eexists. split; [done|]. by repeat split.
  - destruct (sorted_roles engine half_minus_random (rand s) (cursor s) ROLES)
      as (r0 & r1 & r2 & r3 & cur & Hrun & Hcases); [by apply (bool_decide_unpack _)|].
    assert (HT' : Table (set_currentRound (currentRound s + 1) s) a b c d pa pb pc pd)
      by (destruct HT; by constructor).
    pose proof (simple_assignRoles_eq engine _ a b c d pa pb pc pd r0 r1 r2 r3 cur HT' Hrun)
      as Hassign.
    destruct HT as [Hros Hnd Ha Hb Hc Hd].
    pose proof (ParityFacts.NoDup_4 _ _ _ _ Hnd) as (Hab & Hac & Had & Hbc & Hbd & Hcd).
    destruct (simple_startRound_after_assign engine s _ Hassign) as [evs ->].
    { simpl. rewrite Hros. intros i Hi.
      repeat (apply elem_of_cons in Hi as [->|Hi]); [..|by apply elem_of_nil in Hi];
        obj_chain; by eexists. }
    eexists. split; [done|]. repeat split; simpl.
    rewrite !obj_keys_set_old; [done|..]; obj_chain; by eexists.
Qed.

Lemma nextRound_frame engine s :
  Orderly s → ∃ s', nextRound engine s = Some s' ∧ same_frame s s'.
Proof.
  intros HO. unfold nextRound.
  destruct (forEach_frame (λ i st, modify_player i clear_role st) (currentPlayers s) s)
    as (s1 & -> & H1).
  { intros i st Hi Hst. apply modify_player_frame.
    apply elem_of_obj_keys. destruct Hst as (-> & _). apply elem_of_obj_keys.
    by apply Orderly_current. }
  simpl. destruct (startRound_frame engine s1) as (s' & -> & H2).
  { by apply (Orderly_frame s). }
  exists s'. split; [done|]. by eapply same_frame_trans.
Qed.

Lemma resetGame_orderly s : NoDup (obj_keys (players s)) → Orderly (resetGame s).
Proof.
  intros Hk. constructor; simpl.
  - by rewrite obj_keys_fmap.
  - by rewrite obj_keys_fmap, app_nil_r.
  - done.
Qed.

Lemma handleGuess_orderly policeId guessedId s :
  Orderly s → ∃ s', handleGuess policeId guessedId s = Some s' ∧ Orderly s'.
Proof.
  intros HO. unfold handleGuess.
  destruct (obj_get (players s) guessedId) as [gp|] eqn:Hgp; [|by exists s].
  destruct (obj_get (players s) policeId) as [pp|] eqn:Hpp; [|by exists s].
  assert (Hstep : ∃ ok msg s1,
    (if decide (role gp = Some Chor) then
       Some (true,
             show_name (name pp) +:+ " correctly guessed that "
               +:+ show_name (name gp) +:+ " is the Chor.", s)
     else
       let pointsToTransfer := ROLE_POINTS Police in
       sa ← modify_player policeId (add_score (- pointsToTransfer)) s;
       sb ← modify_player guessedId (add_score pointsToTransfer) sa;
       Some (false,
             show_name (name pp) +:+ " guessed incorrectly; "
               +:+ show_name (name gp) +:+ " was the "
               +:+ show_role (role gp) +:+ ".", sb)) = Some (ok, msg, s1)
    ∧ same_frame s s1).
  { destruct (decide (role gp = Some Chor)).
    - eexists _, _, _. split; [done|apply same_frame_refl].
    - cbv zeta.
      destruct (modify_player_frame policeId (add_score (- ROLE_POINTS Police)) s)
        as (sa & -> & Ha); [by eexists|].
      simpl.
      destruct (modify_player_frame guessedId (add_score 500) sa)
        as (sb & -> & Hb).
      { apply elem_of_obj_keys. destruct Ha as (-> & _). apply elem_of_obj_keys.
        by eexists. }
      simpl. eexists _, _, _. split; [done|]. by eapply same_frame_trans. }
  cbv zeta in Hstep. destruct Hstep as (ok & msg & s1 & -> & H1). simpl.
  pose proof (Orderly_frame s s1 HO H1) as HO1.
  pose proof (λ i, Orderly_current s1 i HO1) as Hreg.
  destruct (mapM_Some (λ pid, p ← obj_get (players s1) pid;
                              Some (mkResultRow pid (name p) (role p) (score p)))
              (currentPlayers s1)) as (rows & -> & _).
  { intros i Hi. destruct (Hreg i Hi) as [p ->]. by eexists. }
  simpl. rewrite simple_emit_each_out. simpl.
  case_bool_decide.
  - eexists. split; [done|]. apply (Orderly_frame s1); [done|]. by repeat split.
  - destruct (mapM_Some (λ i, score <$> obj_get (players s1) i) (currentPlayers s1))
      as (scores & -> & _).
    { intros i Hi. destruct (Hreg i Hi) as [p ->]. by eexists. }
    simpl.
    destruct (filterM_Some
      (λ i, p ← obj_get (players s1) i; Some (bool_decide (Some (score p) = max_list scores)))
      (currentPlayers s1)) as (ws & -> & Hws).
    { intros i Hi. destruct (Hreg i Hi) as [p ->]. by eexists. }
    simpl.
    destruct (mapM_Some (λ i, name <$> obj_get (players s1) i) ws) as (names & -> & _).
    { intros i Hi. destruct (Hreg i (Hws i Hi)) as [p ->]. by eexists. }
    simpl. eexists. split; [done|]. apply resetGame_orderly.
    rewrite simple_emit_each_out. simpl. by destruct HO1.
Qed.

Lemma filter_ne_notin (l : list string) (x : string) :
  x ∉ l → filter (λ i, i ≠ x) l = l.
Proof.
  induction l as [|y l IH]; [done|]. rewrite not_elem_of_cons. intros [Hne Hx].
  rewrite filter_cons, decide_True by (by apply not_eq_sym). f_equal. by apply IH.
Qed.

Lemma List_filter_stdpp {A} (b : A → bool) (l : list A) :
  List.filter b l = filter (λ x, b x = true) l.
Proof.
  induction l as [|x l IH]; [done|]. simpl. rewrite filter_cons, IH.
  destruct (b x); [by rewrite decide_True|by rewrite decide_False].
Qed.

(** The players taken into a game and those left in the queue. *)
Lemma take_filter_split (P : string → Prop) `{!∀ x, Decision (P x)}
    (l : list string) (n : nat) :
  NoDup l →
  List.filter (λ i, negb (includes (take n (filter P l)) i)) l
    ++ take n (filter P l) ≡ₚ l.
Proof.
  intros Hnd. set (c := take n (filter P l)).
  assert (Hsub : c `sublist_of` l).
  { unfold c. etrans; [apply sublist_take|apply sublist_filter]. }
  assert (Hndc : NoDup c) by (by eapply sublist_NoDup).
  rewrite List_filter_stdpp.
  apply NoDup_Permutation; [|done|].
  - apply NoDup_app. split; [by apply NoDup_filter|]. split; [|done].
    intros i [Hi _]%list_elem_of_filter Hc. unfold includes in Hi.
    by rewrite bool_decide_eq_true_2 in Hi.
  - intros i. rewrite elem_of_app, list_elem_of_filter. unfold includes.
    destruct (decide (i ∈ c)) as [Hc|Hc].
    + rewrite bool_decide_eq_true_2 by done. simpl.
      split; [intros [[? ?]|?]|by right]; [done|]. by eapply elem_of_sublist.
    + rewrite bool_decide_eq_false_2 by done. simpl. tauto.
Qed.

Lemma foldl_emit_out {A} (f : A → option string) (e : Event) (l : list A) s :
  foldl (λ st r, emit (f r) e st) s l
  = set_out (out s ++ ((λ r, mkEmit (f r) e) <$> l)) s.
Proof.
  revert s. induction l as [|r l IH]; intros s; simpl.
  - rewrite app_nil_r. by destruct s.
  - rewrite IH. destruct s. unfold emit, set_out. simpl. by rewrite <- app_assoc.
Qed.

Lemma connection_orderly sid s :
  Orderly s → obj_get (players s) sid = None →
  ∃ s', connection sid s = Some s' ∧ Orderly s'.
Proof.
  intros [Hk Hs Hg] Hnew. eexists. split; [done|].
  assert (Hsid : sid ∉ obj_keys (players s)).
  { rewrite elem_of_obj_keys, Hnew. by intros [? ?]. }
  constructor; simpl; rewrite ?obj_keys_set_new by done.
  - apply NoDup_app. split; [done|]. split; [|apply NoDup_singleton].
    intros i Hi ->%list_elem_of_singleton. done.
  - rewrite <- Hs, <- !app_assoc. apply Permutation_app_head, Permutation_app_comm.
  - done.
Qed.

Lemma joinGame_orderly sid nm s :
  Orderly s → is_Some (obj_get (players s) sid) →
  ∃ s', joinGame sid nm s = Some s' ∧ Orderly s'.
Proof.
  intros HO Hsid. unfold joinGame.
  destruct (negb _); [by exists s|].
  destruct (modify_player_frame sid
    (λ p, mkPlayer (id p) (Some (trim nm)) (score p) (role p)) s Hsid)
    as (s1 & -> & H1).
  simpl. pose proof (Orderly_frame s s1 HO H1) as HO1.
  destruct (mapM_Some (λ i, p ← obj_get (players s1) i; Some (i, name p))
              (waitingQueue s1)) as (rows & -> & _).
  { intros i Hi. destruct (Orderly_waiting s1 i HO1 Hi) as [p ->]. by eexists. }
  simpl. rewrite foldl_emit_out. simpl.
  destruct (gameInProgress s1) eqn:Hgame; simpl.
  { eexists. split; [done|]. apply (Orderly_frame s1); [done|]. by repeat split. }
  set (P := λ i, default false ((λ p, named (name p)) <$> obj_get (players s1) i) = true).
  rewrite (ParityFacts.filterM_filter _ P).
  2:{ intros i Hi. destruct (Orderly_waiting s1 i HO1 Hi) as [p Hp]. unfold P.
      rewrite Hp. simpl. f_equal. by destruct (named (name p)). }
  simpl. case_bool_decide as Hlen.
  - eexists. split; [done|].
    pose proof (Orderly_NoDup s1 HO1) as (Hndw & _ & _).
    destruct HO1 as [Hk Hs Hg]. rewrite Hgame in Hg. rewrite Hg, app_nil_r in Hs.
    constructor; simpl.
    + done.
    + rewrite <- Hs. by apply take_filter_split.
    + rewrite length_take. lia.
  - eexists. split; [done|]. apply (Orderly_frame s1); [done|]. by repeat split.
Qed.

Lemma guess_orderly sid g s :
  Orderly s → ∃ s', guess sid g s = Some s' ∧ Orderly s'.
Proof.
  intros HO. unfold guess.
  destruct (negb _); [by exists s|].
  destruct (obj_get (players s) sid) as [p|]; [|by exists s].
  destruct (decide _); [|by exists s].
  destruct (includes _ _); [|by exists s].
  by apply handleGuess_orderly.
Qed.

Lemma disconnect_orderly sid s :
  Orderly s → ∃ s', disconnect sid s = Some s' ∧ Orderly s'.
Proof.
  intros HO. pose proof (Orderly_NoDup s HO) as (_ & _ & _).
  destruct HO as [Hk Hs Hg].
  assert (Hk' : NoDup (obj_keys (obj_delete sid (players s)))).
  { rewrite obj_keys_delete. by apply NoDup_filter. }
  unfold disconnect, includes. case_bool_decide as Hcur.
  - eexists. split; [done|]. apply resetGame_orderly.
    by rewrite simple_emit_each_out.
  - eexists. split; [done|]. constructor; simpl.
    + done.
    + rewrite obj_keys_delete, <- Hs, filter_app. done.
    + by rewrite filter_ne_notin.
Qed.

Lemma fire_orderly engine cb s :
  Orderly s → ∃ s', fire engine cb s = Some s' ∧ Orderly s'.
Proof.
  intros HO. destruct cb; simpl.
  - destruct (startRound_frame engine s HO) as (s' & -> & H1).
    exists s'. split; [done|]. by apply (Orderly_frame s).
  - destruct (nextRound_frame engine s HO) as (s' & -> & H1).
    exists s'. split; [done|]. by apply (Orderly_frame s).
Qed.

Lemma fire_due_orderly engine t ts s :
  Orderly s → ∃ s', fire_due engine t ts s = Some s' ∧ Orderly s'.
Proof.
  revert s. induction ts as [|[d cb] ts IH]; intros s HO; simpl; [by exists s|].
  case_bool_decide; [|by exists s].
  destruct (fire_orderly engine cb (set_timers ts s)) as (s1 & -> & HO1).
  { apply (Orderly_frame s); [done|]. by repeat split. }
  simpl. by apply IH.
Qed.

Lemma elapse_orderly engine ms s :
  Orderly s → ∃ s', elapse engine ms s = Some s' ∧ Orderly s'.
Proof.
  intros HO. unfold elapse.
  destruct (fire_due_orderly engine (now s + ms) (timers s) s HO) as (s1 & -> & HO1).
  simpl. eexists. split; [done|]. apply (Orderly_frame s1); [done|]. by repeat split.
Qed.

(** Every handler, run on an orderly state with an admissible event, returns
    without raising and leaves an orderly state. *)
Lemma handle_orderly engine i s :
  Orderly s → admissible s i = true →
  ∃ s', handle engine i s = Some s' ∧ Orderly s'.
Proof.
  intros HO Hadm. destruct i as [sid|sid nm|sid g|sid|ms]; simpl in *.
  - apply connection_orderly; [done|]. by apply bool_decide_eq_true_1 in Hadm.
  - apply joinGame_orderly; [done|]. by apply bool_decide_eq_true_1 in Hadm.
  - by apply guess_orderly.
  - by apply disconnect_orderly.
  - by apply elapse_orderly.
Qed.

Lemma run_orderly engine inputs s :
  Orderly s → admissible_run engine inputs s = true →
  ∃ s', run engine inputs s = Some s' ∧ Orderly s'.
Proof.
  revert s. induction inputs as [|i inputs IH]; intros s HO Hadm; simpl in *.
  - by exists s.
  - apply andb_true_iff in Hadm as [Hi Hrest].
    destruct (handle_orderly engine i s HO Hi) as (s1 & Hs1 & HO1).
    rewrite Hs1 in Hrest.
    change (run engine (i :: inputs) s)
      with (handle engine i s ≫= run engine inputs).
    rewrite Hs1. simpl. by apply IH.
Qed.

Lemma init_orderly rnd : Orderly (init rnd).
Proof. constructor; simpl; [apply NoDup_nil_2|done|done]. Qed.

(** src/server/index.js never raises: on a run whose connections bring
    fresh socket ids and whose [joinGame] events come from registered
    sockets, every handler and every timer callback returns. *)
Theorem index_js_never_throws engine rnd inputs :
  admissible_run engine inputs (init rnd) = true →
  ∃ s, run engine inputs (init rnd) = Some s.
Proof.
  intros Hadm.
  destruct (run_orderly engine inputs (init rnd) (init_orderly rnd) Hadm) as (s & Hs & _).
  by exists s.
Qed.

Lemma index_js_never_throws_witness :
  admissible_run insertion_plan eventful (init calm) = true
  ∧ ∃ s, run insertion_plan eventful (init calm) = Some s.
Proof.
  assert (H : admissible_run insertion_plan eventful (init calm) = true)
    by (vm_compute; reflexivity).
  split; [exact H|]. exact (index_js_never_throws insertion_plan calm eventful H).
Defined.

(** In every state src/server/index.js reaches, the registered sockets are
    split between the waiting queue and the current game: the two lists have
    no duplicates and no common id, together they hold exactly the
    registered ids, and the game holds four players while it is in progress
    and none otherwise. *)
Theorem index_js_splits_sockets engine rnd inputs s :
  admissible_run engine inputs (init rnd) = true →
  run engine inputs (init rnd) = Some s →
  NoDup (waitingQueue s) ∧ NoDup (currentPlayers s)
  ∧ (∀ i, i ∈ currentPlayers s → i ∉ waitingQueue s)
  ∧ (∀ i, is_Some (obj_get (players s) i)
          ↔ i ∈ waitingQueue s ∨ i ∈ currentPlayers s)
  ∧ (if gameInProgress s then length (currentPlayers s) = 4%nat
     else currentPlayers s = []).
Proof.
  intros Hadm Hrun.
  destruct (run_orderly engine inputs (init rnd) (init_orderly rnd) Hadm)
    as (s' & Hs' & HO).
  assert (s' = s) as -> by congruence.
  destruct (Orderly_NoDup s HO) as (Hw & Hc & Hd).
  split; [done|]. split; [done|]. split; [done|]. split.
  - intros i. by rewrite <- (Orderly_registered s i HO), elem_of_app.
  - by destruct HO.
Qed.

Lemma index_js_splits_sockets_witness :
  admissible_run insertion_plan eventful (init calm) = true
  ∧ run insertion_plan eventful (init calm) = Some (after eventful)
  ∧ NoDup (waitingQueue (after eventful))
  ∧ NoDup (currentPlayers (after eventful))
  ∧ (∀ i, i ∈ currentPlayers (after eventful) → i ∉ waitingQueue (after eventful))
  ∧ (∀ i, is_Some (obj_get (players (after eventful)) i)
          ↔ i ∈ waitingQueue (after eventful) ∨ i ∈ currentPlayers (after eventful))
  ∧ (if gameInProgress (after eventful)
     then length (currentPlayers (after eventful)) = 4%nat
     else currentPlayers (after eventful) = []).
Proof.
  assert (H : admissible_run insertion_plan eventful (init calm) = true)
    by (vm_compute; reflexivity).
  assert (Hrun : run insertion_plan eventful (init calm) = Some (after eventful))
    by (vm_compute; reflexivity).
  split; [exact H|]. split; [exact Hrun|].
  exact (index_js_splits_sockets insertion_plan calm eventful _ H Hrun).
Defined.

(** [startRound] at a table of four: the roles dealt, the scores, and the
    state left untouched. *)
Lemma simple_startRound_spec engine s a b c d pa pb pc pd :
  Table s a b c d pa pb pc pd →
  ∃ s' r0 r1 r2 r3,
    startRound engine s = Some s'
    ∧ [r0; r1; r2; r3] ∈ all_shuffles
    ∧ Table s' a b c d (assign_role r0 pa) (assign_role r1 pb)
        (assign_role r2 pc) (assign_role r3 pd)
    ∧ (∀ i, i ∉ [a; b; c; d] → obj_get (players s') i = obj_get (players s) i)
    ∧ obj_keys (players s') = obj_keys (players s)
    ∧ currentRound s' = currentRound s + 1
    ∧ waitingQueue s' = waitingQueue s
    ∧ gameInProgress s' = gameInProgress s
    ∧ timers s' = timers s
    ∧ now s' = now s.
Proof.
  intros HT.
  destruct (sorted_roles engine half_minus_random (rand s) (cursor s) ROLES)
    as (r0 & r1 & r2 & r3 & cur & Hrun & Hcases); [by apply (bool_decide_unpack _)|].
  assert (HT' : Table (set_currentRound (currentRound s + 1) s) a b c d pa pb pc pd)
    by (destruct HT; by constructor).
  pose proof (simple_assignRoles_eq engine _ a b c d pa pb pc pd r0 r1 r2 r3 cur HT' Hrun)
    as Hassign.
  destruct HT as [Hros Hnd Ha Hb Hc Hd].
  pose proof (ParityFacts.NoDup_4 _ _ _ _ Hnd) as (Hab & Hac & Had & Hbc & Hbd & Hcd).
  destruct (simple_startRound_after_assign engine s _ Hassign) as [evs Hstart].
  { simpl. rewrite Hros. intros i Hi.
    repeat (apply elem_of_cons in Hi as [->|Hi]); [..|by apply elem_of_nil in Hi];
      obj_chain; by eexists. }
  eexists _, r0, r1, r2, r3. split; [exact Hstart|]. split; [done|].
  split; [constructor; simpl; try done; by obj_chain|].
  split.
  { intros i Hi. rewrite !not_elem_of_cons in Hi.
    destruct Hi as (? & ? & ? & ? & _). simpl. by obj_chain. }
  split; [|done]. simpl.
  rewrite !obj_keys_set_old; [done|..]; obj_chain; by eexists.
Qed.

(** Every round of src/server/index.js hands out 1000 + 500 + 300 + 0
    points: [startRound] gives each of the four players a role and adds the
    points of that role to the player's score, 1800 points in all. *)
Theorem startRound_hands_out_1800 engine s a b c d pa pb pc pd :
  Table s a b c d pa pb pc pd →
  ∃ s', startRound engine s = Some s'
        ∧ (∀ i, i ∈ [a; b; c; d] →
             ∃ r, role_of s' i = Some r
                  ∧ score_of s' i = Z.add (ROLE_POINTS r) <$> score_of s i)
        ∧ (∀ i, i ∉ [a; b; c; d] → score_of s' i = score_of s i)
        ∧ total_score s' [a; b; c; d] = total_score s [a; b; c; d] + 1800.
Proof.
  intros HT.
  destruct (simple_startRound_spec engine s a b c d pa pb pc pd HT)
    as (s' & r0 & r1 & r2 & r3 & Hstart & Hcases & HT' & Hother & _).
  destruct HT as [Hros Hnd Ha Hb Hc Hd]. destruct HT' as [_ _ Ha' Hb' Hc' Hd'].
  exists s'. split; [exact Hstart|].
  assert (Hsum : ROLE_POINTS r0 + ROLE_POINTS r1 + ROLE_POINTS r2 + ROLE_POINTS r3 = 1800)
    by (ParityFacts.shuffle_cases Hcases; reflexivity).
  unfold total_score, score_of, role_of.
  split; [|split].
  - intros i Hi.
    repeat (apply elem_of_cons in Hi as [->|Hi]); [..|by apply elem_of_nil in Hi];
      rewrite ?Ha, ?Hb, ?Hc, ?Hd, ?Ha', ?Hb', ?Hc', ?Hd'; simpl;
      eexists; split; try done; f_equal; lia.
  - intros i Hi. by rewrite Hother.
  - simpl. rewrite Ha, Hb, Hc, Hd, Ha', Hb', Hc', Hd'. simpl. lia.
Qed.

Lemma startRound_hands_out_1800_witness :
  Table four_ready "a" "b" "c" "d"
    (mkPlayer "a" (Some "Ann") 0 None) (mkPlayer "b" (Some "Bob") 0 None)
    (mkPlayer "c" (Some "Cy") 0 None) (mkPlayer "d" (Some "Dee") 0 None)
  ∧ ∃ s', startRound insertion_plan four_ready = Some s'
        ∧ (∀ i, i ∈ ["a"; "b"; "c"; "d"] →
             ∃ r, role_of s' i = Some r
                  ∧ score_of s' i = Z.add (ROLE_POINTS r) <$> score_of four_ready i)
        ∧ (∀ i, i ∉ ["a"; "b"; "c"; "d"] → score_of s' i = score_of four_ready i)
        ∧ total_score s' ["a"; "b"; "c"; "d"]
          = total_score four_ready ["a"; "b"; "c"; "d"] + 1800.
Proof.
  assert (HT : Table four_ready "a" "b" "c" "d"
    (mkPlayer "a" (Some "Ann") 0 None) (mkPlayer "b" (Some "Bob") 0 None)
    (mkPlayer "c" (Some "Cy") 0 None) (mkPlayer "d" (Some "Dee") 0 None)).
  { constructor; [by vm_compute|apply (bool_decide_unpack _); by vm_compute|by vm_compute..]. }
  split; [exact HT|].
  exact (startRound_hands_out_1800 insertion_plan four_ready "a" "b" "c" "d" _ _ _ _ HT).
Defined.

Lemma max_list_Some (xs : list Z) (m : Z) :
  max_list xs = Some m ↔ m ∈ xs ∧ Forall (λ x, x ≤ m) xs.
Proof.
  revert m. induction xs as [|x xs IH]; intros m; simpl.
  - split; [done|]. by intros [?%elem_of_nil _].
  - rewrite elem_of_cons, Forall_cons.
    destruct (max_list xs) as [y|] eqn:Hy.
    + specialize (IH y). destruct IH as [IH _]. destruct (IH eq_refl) as [Hin Hall].
      split.
      * intros [= <-]. split.
        -- destruct (Z.max_spec x y) as [[_ ->] | [_ ->]]; [by right|by left].
        -- split; [lia|]. eapply Forall_impl; [exact Hall|]. simpl. lia.
      * intros [Hm [Hx Hxs]]. f_equal.
        rewrite Forall_forall in Hxs, Hall. specialize (Hxs y Hin).
        destruct Hm as [->|Hm]; [lia|]. specialize (Hall m Hm). lia.
    + destruct xs as [|z xs]; [|done].
      split.
      * intros [= <-]. split; [by left|]. split; [lia|done].
      * intros [[->|?%elem_of_nil] _]; done.
Qed.

Lemma add_score_0 p : add_score 0 p = p.
Proof. destruct p. unfold add_score. simpl. f_equal. lia. Qed.

(** [handleGuess] in full: the scores, the notifications, and either the
    cooldown timer or the end of the game. *)
Lemma handleGuess_outcome s policeId guessedId pp gp :
  obj_get (players s) policeId = Some pp →
  obj_get (players s) guessedId = Some gp →
  (∀ i, i ∈ currentPlayers s → is_Some (obj_get (players s) i)) →
  let ok := bool_decide (role gp = Some Chor) in
  let msg := if ok then correct_guess_message pp gp else wrong_guess_message pp gp in
  let results := (λ i, mkEmit (Some i)
                         (roundResult msg ok (settled_rows s policeId guessedId)))
                   <$> currentPlayers s in
  ∃ s',
    handleGuess policeId guessedId s = Some s'
    ∧ (∀ i, score_of s' i = Z.add (guess_delta s policeId guessedId i) <$> score_of s i)
    ∧ obj_keys (players s') = obj_keys (players s)
    ∧ (∀ i, name <$> obj_get (players s') i = name <$> obj_get (players s) i)
    ∧ if bool_decide (currentRound s < MAX_ROUNDS) then
        (∀ i, role_of s' i = role_of s i)
        ∧ timers s' = schedule (now s + 4000) NextRound (timers s)
        ∧ gameInProgress s' = gameInProgress s
        ∧ currentPlayers s' = currentPlayers s
        ∧ waitingQueue s' = waitingQueue s
        ∧ currentRound s' = currentRound s
        ∧ out s' = out s ++ results
      else
        (∀ i, role_of s' i = None)
        ∧ timers s' = timers s
        ∧ gameInProgress s' = false
        ∧ currentPlayers s' = []
        ∧ waitingQueue s' = obj_keys (players s)
        ∧ currentRound s' = 0
        ∧ out s' = out s ++ results
            ++ ((λ i, mkEmit (Some i)
                        (gameOver
                           ((λ j, default None (name <$> obj_get (players s) j))
                              <$> filter (top_scorer s policeId guessedId)
                                    (currentPlayers s))
                           (settled_rows s policeId guessedId)))
                  <$> currentPlayers s)
            ++ [mkEmit None gameReset].
Proof.
  intros Hpp Hgp Hreg ok msg results.
  assert (Hrole : role_of s guessedId = role gp) by (unfold role_of; by rewrite Hgp).
  set (delta := guess_delta s policeId guessedId).
  set (m' := if decide (role gp = Some Chor) then players s
             else obj_set guessedId
                    (add_score 500 (if decide (policeId = guessedId)
                                    then add_score (Z.opp 500) pp else gp))
                    (obj_set policeId (add_score (Z.opp 500) pp) (players s))).
  assert (Hm' : ∀ i, obj_get m' i = add_score (delta i) <$> obj_get (players s) i).
  { intros i. unfold m', delta, guess_delta. rewrite Hrole.
    destruct (decide (role gp = Some Chor)) as [Hc|Hc].
    { destruct (obj_get (players s) i); simpl; [by rewrite add_score_0|done]. }
    unfold transfer. simpl.
    destruct (decide (i = guessedId)) as [->|Hig].
    - rewrite obj_get_set_eq, Hgp. simpl. f_equal.
      destruct (decide (policeId = guessedId)) as [->|Hne].
      + rewrite decide_True by done.
        assert (pp = gp) as -> by congruence.
        destruct gp. unfold add_score. simpl. f_equal. lia.
      + rewrite decide_False by (by apply not_eq_sym). done.
    - rewrite obj_get_set_ne by (by apply not_eq_sym).
      destruct (decide (i = policeId)) as [->|Hip].
      + rewrite obj_get_set_eq, Hpp. done.
      + rewrite obj_get_set_ne by (by apply not_eq_sym).
        destruct (obj_get (players s) i) as [[]|]; [|done].
        simpl. unfold add_score. simpl. do 2 f_equal. lia. }
  assert (Hkeys : obj_keys m' = obj_keys (players s)).
  { unfold m'. destruct (decide (role gp = Some Chor)); [done|].
    rewrite !obj_keys_set_old; [done|by eexists|].
    destruct (decide (policeId = guessedId)) as [->|Hne].
    - rewrite obj_get_set_eq. by eexists.
    - rewrite obj_get_set_ne by done. by eexists. }
  assert (Hreg' : ∀ i, i ∈ currentPlayers s → is_Some (obj_get m' i)).
  { intros i Hi. rewrite Hm'. destruct (Hreg i Hi) as [p ->]. by eexists. }
  assert (Hscore : ∀ i, score <$> obj_get m' i = Z.add (delta i) <$> score_of s i).
  { intros i. rewrite Hm'. unfold score_of.
    destruct (obj_get (players s) i) as [p|]; simpl; [f_equal; lia|done]. }
  assert (Hsettled : ∀ i p, obj_get m' i = Some p →
            score p = settled_score s policeId guessedId i).
  { intros i p Hp. pose proof (Hscore i) as Hs. rewrite Hp in Hs. simpl in Hs.
    unfold settled_score. fold delta. destruct (score_of s i) as [z|]; [|done].
    simpl in *. injection Hs as ->. lia. }
  assert (Hrows : mapM (λ pid, p ← obj_get m' pid;
                               Some (mkResultRow pid (name p) (role p) (score p)))
                    (currentPlayers s) = Some (settled_rows s policeId guessedId)).
  { apply mapM_fmap. intros i Hi. destruct (Hreg' i Hi) as [p Hp].
    rewrite Hp. simpl. rewrite (Hsettled i p Hp).
    rewrite Hm' in Hp. unfold role_of.
    destruct (obj_get (players s) i) as [q|]; [|done]. simpl in *.
    injection Hp as <-. done. }
  assert (Hscores : mapM (λ i, score <$> obj_get m' i) (currentPlayers s)
                    = Some (settled_score s policeId guessedId <$> currentPlayers s)).
  { apply mapM_fmap. intros i Hi. destruct (Hreg' i Hi) as [p Hp].
    rewrite Hp. simpl. by rewrite (Hsettled i p Hp). }
  assert (Hwinners : filterM
      (λ i, p ← obj_get m' i;
            Some (bool_decide (Some (score p)
                    = max_list (settled_score s policeId guessedId <$> currentPlayers s))))
      (currentPlayers s)
      = Some (filter (top_scorer s policeId guessedId) (currentPlayers s))).
  { apply ParityFacts.filterM_filter. intros i Hi. destruct (Hreg' i Hi) as [p Hp].
    rewrite Hp. simpl. f_equal. apply bool_decide_ext.
    rewrite (Hsettled i p Hp). unfold top_scorer. split.
    - intros Hmax. symmetry in Hmax. apply max_list_Some in Hmax as [_ Hall].
      by rewrite Forall_fmap in Hall.
    - intros Hall. symmetry. apply max_list_Some. split.
      + apply list_elem_of_fmap. by exists i.
      + by rewrite Forall_fmap. }
  assert (Hnames : mapM (λ i, name <$> obj_get m' i)
                     (filter (top_scorer s policeId guessedId) (currentPlayers s))
                   = Some ((λ j, default None (name <$> obj_get (players s) j))
                             <$> filter (top_scorer s policeId guessedId)
                                   (currentPlayers s))).
  { apply mapM_fmap. intros i [_ Hi]%list_elem_of_filter. rewrite Hm'.
    destruct (Hreg i Hi) as [p ->]. done. }
  pose proof (eq_refl (handleGuess policeId guessedId s)) as Hres.
  unfold handleGuess at 2 in Hres. rewrite Hgp, Hpp in Hres.
  assert (Hstep :
    (if decide (role gp = Some Chor) then
       Some (true,
             show_name (name pp) +:+ " correctly guessed that "
               +:+ show_name (name gp) +:+ " is the Chor.", s)
     else
       sa ← modify_player policeId (add_score (- ROLE_POINTS Police)) s;
       sb ← modify_player guessedId (add_score (ROLE_POINTS Police)) sa;
       Some (false,
             show_name (name pp) +:+ " guessed incorrectly; "
               +:+ show_name (name gp) +:+ " was the "
               +:+ show_role (role gp) +:+ ".", sb))
    = Some (ok, msg, set_players m' s)).
  { unfold msg, ok, m'. destruct (decide (role gp = Some Chor)) as [Hc|Hc].
    - rewrite bool_decide_eq_true_2 by done. by destruct s.
    - rewrite bool_decide_eq_false_2 by done.
      unfold modify_player. rewrite Hpp. simpl.
      destruct (decide (policeId = guessedId)) as [->|Hne].
      + rewrite obj_get_set_eq. simpl. by destruct s.
      + rewrite obj_get_set_ne, Hgp by done. simpl. by destruct s. }
  cbv zeta in Hres. rewrite Hstep in Hres. simpl in Hres.
  rewrite Hrows in Hres. simpl in Hres.
  rewrite simple_emit_each_out in Hres. simpl in Hres.
  exists (default s (handleGuess policeId guessedId s)).
  destruct (bool_decide (currentRound s < MAX_ROUNDS)).
  - rewrite Hres. simpl. split; [done|]. split; [exact Hscore|]. split; [done|].
    split; [intros i; rewrite Hm'; by destruct (obj_get (players s) i)|].
    split; [|done].
    intros i. unfold role_of. simpl. rewrite Hm'.
    by destruct (obj_get (players s) i).
  - rewrite Hscores in Hres. simpl in Hres. rewrite Hwinners in Hres.
    simpl in Hres. rewrite Hnames in Hres. simpl in Hres.
    rewrite simple_emit_each_out in Hres.
    rewrite Hres. simpl. split; [done|]. split.
    { intros i. unfold score_of. simpl. rewrite obj_get_fmap.
      rewrite <- Hscore. by destruct (obj_get m' i). }
    split; [by rewrite obj_keys_fmap|].
    split.
    { intros i. rewrite obj_get_fmap, Hm'. by destruct (obj_get (players s) i). }
    split.
    { intros i. unfold role_of. simpl. rewrite obj_get_fmap.
      by destruct (obj_get m' i). }
    repeat split; try done. by rewrite <- !app_assoc.
Qed.

Lemma Table_registered s a b c d pa pb pc pd i :
  Table s a b c d pa pb pc pd → i ∈ currentPlayers s →
  is_Some (obj_get (players s) i).
Proof.
  intros [Hros _ Ha Hb Hc Hd]. rewrite Hros, !elem_of_cons, elem_of_nil.
  intros [-> | [-> | [-> | [-> | []]]]]; by eexists.
Qed.

Lemma round_one_table :
  Table round_one "a" "b" "c" "d"
    (mkPlayer "a" (Some "Ann") 0 (Some Chor))
    (mkPlayer "b" (Some "Bob") 300 (Some Dakat))
    (mkPlayer "c" (Some "Cy") 500 (Some Police))
    (mkPlayer "d" (Some "Dee") 1000 (Some Babu)).
Proof.
  constructor; [by vm_compute|apply (bool_decide_unpack _); by vm_compute|by vm_compute..].
Defined.

Lemma round_ten_table :
  Table round_ten "a" "b" "c" "d"
    (mkPlayer "a" (Some "Ann") 0 (Some Chor))
    (mkPlayer "b" (Some "Bob") 3000 (Some Dakat))
    (mkPlayer "c" (Some "Cy") 5000 (Some Police))
    (mkPlayer "d" (Some "Dee") 10000 (Some Babu)).
Proof.
  constructor; [by vm_compute|apply (bool_decide_unpack _); by vm_compute|by vm_compute..].
Defined.

(** A guess never creates or destroys points in src/server/index.js: the
    500 points the Police loses on a wrong guess are the 500 points the
    accused receives, so the sum of the four scores is the same before and
    after [handleGuess], whoever is accused. *)
Theorem handleGuess_is_zero_sum s a b c d pa pb pc pd policeId guessedId :
  Table s a b c d pa pb pc pd →
  policeId ∈ [a; b; c; d] → guessedId ∈ [a; b; c; d] →
  ∃ s', handleGuess policeId guessedId s = Some s'
        ∧ total_score s' [a; b; c; d] = total_score s [a; b; c; d].
Proof.
  intros HT Hp Hg.
  pose proof (λ i, Table_registered s a b c d pa pb pc pd i HT) as Hreg.
  destruct HT as [Hros Hnd Ha Hb Hc Hd].
  pose proof (ParityFacts.NoDup_4 _ _ _ _ Hnd) as (Hab & Hac & Had & Hbc & Hbd & Hcd).
  destruct (Hreg policeId) as [pp Hpp]; [by rewrite Hros|].
  destruct (Hreg guessedId) as [gp Hgp]; [by rewrite Hros|].
  destruct (handleGuess_outcome s policeId guessedId pp gp Hpp Hgp Hreg)
    as (s' & Hres & Hscore & _).
  exists s'. split; [done|].
  unfold total_score. simpl. rewrite !Hscore.
  unfold score_of. rewrite Ha, Hb, Hc, Hd. simpl.
  unfold guess_delta. destruct (decide (role_of s guessedId = Some Chor)); [lia|].
  unfold transfer. simpl.
  repeat (apply elem_of_cons in Hp as [->|Hp]); [..|by apply elem_of_nil in Hp];
    (repeat (apply elem_of_cons in Hg as [->|Hg]); [..|by apply elem_of_nil in Hg]);
    repeat (case_decide; try congruence); lia.
Qed.

Lemma handleGuess_is_zero_sum_witness :
  Table round_one "a" "b" "c" "d"
    (mkPlayer "a" (Some "Ann") 0 (Some Chor))
    (mkPlayer "b" (Some "Bob") 300 (Some Dakat))
    (mkPlayer "c" (Some "Cy") 500 (Some Police))
    (mkPlayer "d" (Some "Dee") 1000 (Some Babu))
  ∧ "c" ∈ ["a"; "b"; "c"; "d"] ∧ "d" ∈ ["a"; "b"; "c"; "d"]
  ∧ ∃ s', handleGuess "c" "d" round_one = Some s'
        ∧ total_score s' ["a"; "b"; "c"; "d"]
          = total_score round_one ["a"; "b"; "c"; "d"].
Proof.
  assert (Hc : "c" ∈ ["a"; "b"; "c"; "d"]) by (apply (bool_decide_unpack _); by vm_compute).
  assert (Hd : "d" ∈ ["a"; "b"; "c"; "d"]) by (apply (bool_decide_unpack _); by vm_compute).
  split; [exact round_one_table|]. split; [exact Hc|]. split; [exact Hd|].
  exact (handleGuess_is_zero_sum round_one "a" "b" "c" "d" _ _ _ _ "c" "d"
           round_one_table Hc Hd).
Defined.

(** A correct guess in src/server/index.js changes no score: the Police
    keeps the 500 points of the role and the Chor, who was dealt 0 points,
    loses nothing.  Every current player is told so, with the roles of all
    four revealed. *)
Theorem correct_guess_changes_no_score s policeId guessedId pp gp :
  obj_get (players s) policeId = Some pp →
  obj_get (players s) guessedId = Some gp →
  (∀ i, i ∈ currentPlayers s → is_Some (obj_get (players s) i)) →
  role gp = Some Chor →
  ∃ s' tail,
    handleGuess policeId guessedId s = Some s'
    ∧ (∀ i, score_of s' i = score_of s i)
    ∧ out s' = out s
        ++ ((λ i, mkEmit (Some i)
                    (roundResult (correct_guess_message pp gp) true
                       ((λ j, mkResultRow j
                                (default None (name <$> obj_get (players s) j))
                                (role_of s j) (default 0 (score_of s j)))
                          <$> currentPlayers s)))
              <$> currentPlayers s)
        ++ tail.
Proof.
  intros Hpp Hgp Hreg Hrole.
  destruct (handleGuess_outcome s policeId guessedId pp gp Hpp Hgp Hreg)
    as (s' & Hres & Hscore & _ & _ & Hend).
  assert (Hdelta : ∀ i, guess_delta s policeId guessedId i = 0).
  { intros i. unfold guess_delta, role_of. rewrite Hgp. simpl.
    by rewrite decide_True. }
  assert (Hrows : settled_rows s policeId guessedId
                  = (λ j, mkResultRow j
                            (default None (name <$> obj_get (players s) j))
                            (role_of s j) (default 0 (score_of s j)))
                      <$> currentPlayers s).
  { unfold settled_rows, settled_score. apply list_fmap_ext. intros k i _.
    rewrite Hdelta. f_equal. lia. }
  rewrite (bool_decide_eq_true_2 _ Hrole), Hrows in Hend.
  exists s'.
  destruct (bool_decide (currentRound s < MAX_ROUNDS)).
  - exists []. split; [done|]. split.
    + intros i. rewrite Hscore, Hdelta. by destruct (score_of s i).
    + rewrite app_nil_r. by destruct Hend as (_ & _ & _ & _ & _ & _ & ->).
  - eexists. split; [done|]. split.
    + intros i. rewrite Hscore, Hdelta. by destruct (score_of s i).
    + by destruct Hend as (_ & _ & _ & _ & _ & _ & ->).
Qed.

Lemma correct_guess_changes_no_score_witness :
  obj_get (players round_one) "c" = Some (mkPlayer "c" (Some "Cy") 500 (Some Police))
  ∧ obj_get (players round_one) "a" = Some (mkPlayer "a" (Some "Ann") 0 (Some Chor))
  ∧ ∃ s' tail,
      handleGuess "c" "a" round_one = Some s'
      ∧ (∀ i, score_of s' i = score_of round_one i)
      ∧ out s' = out round_one
          ++ ((λ i, mkEmit (Some i)
                      (roundResult
                         (correct_guess_message
                            (mkPlayer "c" (Some "Cy") 500 (Some Police))
                            (mkPlayer "a" (Some "Ann") 0 (Some Chor))) true
                         ((λ j, mkResultRow j
                                  (default None (name <$> obj_get (players round_one) j))
                                  (role_of round_one j)
                                  (default 0 (score_of round_one j)))
                            <$> currentPlayers round_one)))
                <$> currentPlayers round_one)
          ++ tail.
Proof.
  assert (Hc : obj_get (players round_one) "c"
               = Some (mkPlayer "c" (Some "Cy") 500 (Some Police))) by (by vm_compute).
  assert (Ha : obj_get (players round_one) "a"
               = Some (mkPlayer "a" (Some "Ann") 0 (Some Chor))) by (by vm_compute).
  split; [exact Hc|]. split; [exact Ha|].
  exact (correct_guess_changes_no_score round_one "c" "a" _ _ Hc Ha
           (λ i, Table_registered round_one "a" "b" "c" "d" _ _ _ _ i round_one_table)
           eq_refl).
Defined.

(** A non-empty list has an element no other element exceeds. *)
Lemma exists_top {A} (f : A → Z) (l : list A) :
  l ≠ [] → ∃ i, i ∈ l ∧ Forall (λ j, f j ≤ f i) l.
Proof.
  induction l as [|x l IH]; [done|]. intros _.
  destruct l as [|y l].
  - exists x. split; [left|]. constructor; [lia|done].
  - destruct IH as (i & Hi & Hall); [done|].
    destruct (decide (f i ≤ f x)).
    + exists x. split; [left|]. constructor; [lia|].
      eapply Forall_impl; [exact Hall|]. simpl. lia.
    + exists i. split; [by right|]. constructor; [lia|done].
Qed.

(** The guess of the last round ends the game of src/server/index.js:
    after the result, every current player receives [gameOver] with the
    names of the players whose score no other player exceeds (at least one,
    several on a tie); then the game is reset with no timer scheduled, every
    registered socket is put back in the waiting queue in the order of
    connection, every role is cleared and every score is kept. *)
Theorem last_round_ends_the_game s policeId guessedId pp gp :
  obj_get (players s) policeId = Some pp →
  obj_get (players s) guessedId = Some gp →
  (∀ i, i ∈ currentPlayers s → is_Some (obj_get (players s) i)) →
  currentPlayers s ≠ [] →
  MAX_ROUNDS ≤ currentRound s →
  ∃ s' msg ok,
    let winners := (λ j, default None (name <$> obj_get (players s) j))
                     <$> filter (top_scorer s policeId guessedId) (currentPlayers s) in
    handleGuess policeId guessedId s = Some s'
    ∧ winners ≠ []
    ∧ out s' = out s
        ++ ((λ i, mkEmit (Some i)
                    (roundResult msg ok (settled_rows s policeId guessedId)))
              <$> currentPlayers s)
        ++ ((λ i, mkEmit (Some i)
                    (gameOver winners (settled_rows s policeId guessedId)))
              <$> currentPlayers s)
        ++ [mkEmit None gameReset]
    ∧ gameInProgress s' = false
    ∧ currentPlayers s' = []
    ∧ currentRound s' = 0
    ∧ waitingQueue s' = obj_keys (players s)
    ∧ timers s' = timers s
    ∧ (∀ i, role_of s' i = None)
    ∧ (∀ i, score_of s' i = Z.add (guess_delta s policeId guessedId i) <$> score_of s i).
Proof.
  intros Hpp Hgp Hreg Hne Hlast.
  destruct (handleGuess_outcome s policeId guessedId pp gp Hpp Hgp Hreg)
    as (s' & Hres & Hscore & _ & _ & Hend).
  rewrite bool_decide_eq_false_2 in Hend by lia.
  destruct Hend as (Hrole & Htimers & Hgame & Hcur & Hqueue & Hround & Hout).
  eexists s', _, _. cbv zeta. split; [exact Hres|]. split.
  { destruct (exists_top (settled_score s policeId guessedId) (currentPlayers s) Hne)
      as (i & Hi & Htop).
    intros Hnil%fmap_nil_inv.
    assert (i ∈ filter (top_scorer s policeId guessedId) (currentPlayers s)) as Hin
      by (by apply list_elem_of_filter).
    rewrite Hnil in Hin. by apply elem_of_nil in Hin. }
  split; [exact Hout|]. done.
Qed.

Lemma last_round_ends_the_game_witness :
  obj_get (players round_ten) "c" = Some (mkPlayer "c" (Some "Cy") 5000 (Some Police))
  ∧ obj_get (players round_ten) "b" = Some (mkPlayer "b" (Some "Bob") 3000 (Some Dakat))
  ∧ currentPlayers round_ten ≠ []
  ∧ MAX_ROUNDS ≤ currentRound round_ten
  ∧ ∃ s' msg ok,
      handleGuess "c" "b" round_ten = Some s'
      ∧ (λ j, default None (name <$> obj_get (players round_ten) j))
          <$> filter (top_scorer round_ten "c" "b") (currentPlayers round_ten) ≠ []
      ∧ out s' = out round_ten
          ++ ((λ i, mkEmit (Some i)
                      (roundResult msg ok (settled_rows round_ten "c" "b")))
                <$> currentPlayers round_ten)
          ++ ((λ i, mkEmit (Some i)
                      (gameOver
                         ((λ j, default None (name <$> obj_get (players round_ten) j))
                            <$> filter (top_scorer round_ten "c" "b")
                                  (currentPlayers round_ten))
                         (settled_rows round_ten "c" "b")))
                <$> currentPlayers round_ten)
          ++ [mkEmit None gameReset]
      ∧ gameInProgress s' = false
      ∧ currentPlayers s' = []
      ∧ currentRound s' = 0
      ∧ waitingQueue s' = obj_keys (players round_ten)
      ∧ timers s' = timers round_ten
      ∧ (∀ i, role_of s' i = None)
      ∧ (∀ i, score_of s' i
              = Z.add (guess_delta round_ten "c" "b" i) <$> score_of round_ten i).
Proof.
  assert (Hc : obj_get (players round_ten) "c"
               = Some (mkPlayer "c" (Some "Cy") 5000 (Some Police))) by (by vm_compute).
  assert (Hb : obj_get (players round_ten) "b"
               = Some (mkPlayer "b" (Some "Bob") 3000 (Some Dakat))) by (by vm_compute).
  assert (Hne : currentPlayers round_ten ≠ []) by (by vm_compute).
  assert (Hlast : MAX_ROUNDS ≤ currentRound round_ten) by (by vm_compute).
  split; [exact Hc|]. split; [exact Hb|]. split; [exact Hne|]. split; [exact Hlast|].
  exact (last_round_ends_the_game round_ten "c" "b" _ _ Hc Hb
           (λ i, Table_registered round_ten "a" "b" "c" "d" _ _ _ _ i round_ten_table)
           Hne Hlast).
Defined.

End SimpleFacts.

(** * The claims that span both servers *)

Lemma hits_closed_form {A} `{EqDecision A} cmp d plan (arr target : list A) :
  Z.of_nat (hits RESOLUTION cmp d plan arr target)
  = ways (count_sign cmp RESOLUTION Lt) (count_sign cmp RESOLUTION Eq)
      (count_sign cmp RESOLUTION Gt) d plan arr target.
Proof. symmetry. apply ways_hits. Qed.

Lemma hits_never_one_in_24 {A} `{EqDecision A} bits cmp d plan
    (arr target : list A) :
  24 * Z.of_nat (hits (2 ^ Z.of_nat bits) cmp d plan arr target)
  ≠ Z.of_nat (length (tapes (2 ^ Z.of_nat bits) d)).
Proof.
  rewrite tapes_power_of_two. intros Heq.
  apply (three_not_dividing_power_of_two (bits * d)
           (8 * Z.of_nat (hits (2 ^ Z.of_nat bits) cmp d plan arr target))).
  lia.
Qed.

(** C1 (fails on both servers): [shuffled = roles.sort(cmp)] with a
    comparator that answers by a fresh [Math.random()] is not a uniform
    shuffle.  Whatever the engine's sort does, whatever the resolution
    [2^bits] of [Math.random()] and however many draws [d] are considered,
    the number of draw sequences that produce a given arrangement is never
    one 24th of all sequences.  With insertion sort the bias is large: in
    src/server.js the array comes back unchanged on more than 1/8 of the draw
    sequences of length 6 and reversed on less than 1/48 of them; in
    src/server/index.js it comes back unchanged on exactly 1/8 of them.
    [assignRoles] gives [shuffled[idx]] to [currentPlayers[idx]]
    ([ParityFacts.assignRoles_eq], [SimpleFacts.simple_assignRoles_eq]). *)
Theorem sort_shuffle_not_uniform :
  (∀ bits cmp engine d (roles target : list Role),
     24 * Z.of_nat (hits (2 ^ Z.of_nat bits) cmp d engine roles target)
     ≠ Z.of_nat (length (tapes (2 ^ Z.of_nat bits) d)))
  ∧ (∀ engine d target,
       24 * Z.of_nat (hits RESOLUTION random_minus_half d engine ROLES target)
       ≠ Z.of_nat (length (tapes RESOLUTION d)))
  ∧ (∀ engine d target,
       24 * Z.of_nat (hits RESOLUTION half_minus_random d engine Simple.ROLES target)
       ≠ Z.of_nat (length (tapes RESOLUTION d)))
  ∧ 3 * Z.of_nat (length (tapes RESOLUTION 6))
    < 24 * Z.of_nat (hits RESOLUTION random_minus_half 6 insertion_plan ROLES
                       [Babu; Police; Chor; Dakat])
  ∧ 2 * (24 * Z.of_nat (hits RESOLUTION random_minus_half 6 insertion_plan ROLES
                          [Dakat; Chor; Police; Babu]))
    < Z.of_nat (length (tapes RESOLUTION 6))
  ∧ 24 * Z.of_nat (hits RESOLUTION half_minus_random 6 insertion_plan Simple.ROLES
                     [Babu; Police; Dakat; Chor])
    = 3 * Z.of_nat (length (tapes RESOLUTION 6)).
Proof.
  change RESOLUTION with (2 ^ Z.of_nat 53).
  split; [intros; apply hits_never_one_in_24|].
  split; [intros; apply hits_never_one_in_24|].
  split; [intros; apply hits_never_one_in_24|].
  rewrite tapes_power_of_two. change (2 ^ Z.of_nat 53) with RESOLUTION.
  rewrite !hits_closed_form.
  destruct count_random_minus_half as (-> & -> & ->).
  destruct count_half_minus_random as (-> & -> & ->).
  repeat split; by vm_compute.
Qed.

(** With V8's sort the shuffle of src/server.js is biased as follows, over
    the draw sequences of length 6: the array comes back unchanged on 3/16
    of them and reversed on 11/64, while [Dakat; Police; Chor; Babu] comes
    on 1/64 only. *)
Lemma v8_shuffle_is_biased :
  16 * Z.of_nat (hits RESOLUTION random_minus_half 6 v8_plan ROLES
                   [Babu; Police; Chor; Dakat])
  = 3 * Z.of_nat (length (tapes RESOLUTION 6))
  ∧ 64 * Z.of_nat (hits RESOLUTION random_minus_half 6 v8_plan ROLES
                     [Dakat; Chor; Police; Babu])
    = 11 * Z.of_nat (length (tapes RESOLUTION 6))
  ∧ 64 * Z.of_nat (hits RESOLUTION random_minus_half 6 v8_plan ROLES
                     [Dakat; Police; Chor; Babu])
    = Z.of_nat (length (tapes RESOLUTION 6)).
Proof.
  change RESOLUTION with (2 ^ Z.of_nat 53).
  rewrite tapes_power_of_two. change (2 ^ Z.of_nat 53) with RESOLUTION.
  rewrite !hits_closed_form.
  destruct count_random_minus_half as (-> & -> & ->).
  repeat split; vm_compute; reflexivity.
Qed.

(** The closed form agrees with the count on a source that is small enough
    to enumerate: 4 equally likely draws, 6 draws per sequence. *)
Example ways_hits_small :
  Z.of_nat (hits 4 (λ k, k ?= 2) 6 insertion_plan ROLES [Police; Babu; Chor; Dakat])
  = ways 2 1 1 6 insertion_plan ROLES [Police; Babu; Chor; Dakat]
  ∧ ways 2 1 1 6 insertion_plan ROLES [Police; Babu; Chor; Dakat] = 576
  ∧ Z.of_nat (length (tapes 4 6)) = 4096.
Proof. repeat split; by vm_compute. Qed.

(** C7: in both servers, a round started with four distinct registered
    players leaves a bijection between them and the four roles: every role
    has exactly one holder and every player holds a role. *)
Theorem startRound_deals_a_bijection engine
    (ps : Parity.State) (ss : Simple.State)
    (a b c d : string) (pa pb pc pd : Parity.Player)
    (a' b' c' d' : string) (qa qb qc qd : Simple.Player) :
  ParitySpec.Table ps a b c d pa pb pc pd →
  SimpleSpec.Table ss a' b' c' d' qa qb qc qd →
  (∃ ps', Parity.startRound engine ps = Some ps'
          ∧ Parity.currentPlayers ps' = [a; b; c; d]
          ∧ onto_roles (Parity.currentPlayers ps') (Parity.role_of ps'))
  ∧ (∃ ss', Simple.startRound engine ss = Some ss'
            ∧ Simple.currentPlayers ss' = [a'; b'; c'; d']
            ∧ onto_roles (Simple.currentPlayers ss') (Simple.role_of ss')).
Proof.
  intros HP HS. split.
  - destruct (ParityFacts.startRound_seated engine ps a b c d pa pb pc pd HP)
      as (ps' & babu & police & chor & dakat & Hstart & Hseated & Hcur & _).
    exists ps'. split; [done|]. split; [done|].
    by eapply ParityFacts.Seated_onto_roles.
  - destruct (SimpleFacts.startRound_onto_roles engine ss a' b' c' d' qa qb qc qd HS)
      as (ss' & Hstart & Hcur & _ & Honto).
    by exists ss'.
Qed.

Lemma simple_four_ready_table :
  SimpleSpec.Table SimpleSpec.four_ready "a" "b" "c" "d"
    (Simple.mkPlayer "a" (Some "Ann") 0 None) (Simple.mkPlayer "b" (Some "Bob") 0 None)
    (Simple.mkPlayer "c" (Some "Cy") 0 None) (Simple.mkPlayer "d" (Some "Dee") 0 None).
Proof.
  constructor; [by vm_compute|by apply (bool_decide_unpack _)|by vm_compute..].
Defined.

Lemma startRound_deals_a_bijection_witness :
  ParitySpec.Table ParitySpec.four_ready "a" "b" "c" "d"
    (Parity.mkPlayer "a" "Ann" 0 None 0) (Parity.mkPlayer "b" "Bob" 0 None 0)
    (Parity.mkPlayer "c" "Cy" 0 None 0) (Parity.mkPlayer "d" "Dee" 0 None 0)
  ∧ SimpleSpec.Table SimpleSpec.four_ready "a" "b" "c" "d"
      (Simple.mkPlayer "a" (Some "Ann") 0 None) (Simple.mkPlayer "b" (Some "Bob") 0 None)
      (Simple.mkPlayer "c" (Some "Cy") 0 None) (Simple.mkPlayer "d" (Some "Dee") 0 None)
  ∧ (∃ ps', Parity.startRound insertion_plan ParitySpec.four_ready = Some ps'
            ∧ Parity.currentPlayers ps' = ["a"; "b"; "c"; "d"]
            ∧ onto_roles (Parity.currentPlayers ps') (Parity.role_of ps'))
  ∧ (∃ ss', Simple.startRound insertion_plan SimpleSpec.four_ready = Some ss'
            ∧ Simple.currentPlayers ss' = ["a"; "b"; "c"; "d"]
            ∧ onto_roles (Simple.currentPlayers ss') (Simple.role_of ss')).
Proof.
  split; [exact ParityFacts.four_ready_table|].
  split; [exact simple_four_ready_table|].
  exact (startRound_deals_a_bijection insertion_plan
           ParitySpec.four_ready SimpleSpec.four_ready
           "a" "b" "c" "d" _ _ _ _ "a" "b" "c" "d" _ _ _ _
           ParityFacts.four_ready_table simple_four_ready_table).
Defined.

(** C6, amended: when one of the four players of the running game
    disconnects, both servers reset the game, return the three others to the
    waiting pool with their role cleared, notify them that a player left and
    send no round result; afterwards every guess is ignored.  src/server.js
    also sets the score of the three to 0; src/server/index.js keeps their
    scores. *)
Theorem disconnect_resets_the_game
    (ps : Parity.State) (ss : Simple.State) (sid sid' : string) :
  sid ∈ Parity.currentPlayers ps → sid ∉ Parity.waiting ps →
  NoDup (Parity.currentPlayers ps) → length (Parity.currentPlayers ps) = 4%nat →
  (∀ i, i ∈ Parity.currentPlayers ps → is_Some (Parity.players ps !! i)) →
  (∀ i, i ∈ Parity.waiting ps → is_Some (Parity.players ps !! i)) →
  sid' ∈ Simple.currentPlayers ss →
  NoDup (Simple.currentPlayers ss) → length (Simple.currentPlayers ss) = 4%nat →
  (∀ i, i ∈ Simple.currentPlayers ss → is_Some (obj_get (Simple.players ss) i)) →
  (∃ ps' msg names,
     let rest := filter (λ i, i ≠ sid) (Parity.currentPlayers ps) in
     Parity.disconnect sid ps = Some ps'
     ∧ length rest = 3%nat
     ∧ Parity.waiting ps' = Parity.waiting ps ++ rest
     ∧ (∀ i, i ∈ rest → ∃ p, Parity.players ps' !! i = Some p
                              ∧ Parity.score p = 0 ∧ Parity.role p = None)
     ∧ Parity.gameStarted ps' = false
     ∧ Parity.out ps' = Parity.out ps
         ++ [Parity.mkEmit None (Parity.playerLeft msg);
             Parity.mkEmit None (Parity.updatePlayers names)]
     ∧ ∀ sender data, Parity.guess sender data ps' = Some ps')
  ∧ (∃ ss',
       let rest := filter (λ i, i ≠ sid') (Simple.currentPlayers ss) in
       Simple.disconnect sid' ss = Some ss'
       ∧ length rest = 3%nat
       ∧ (∀ i, i ∈ rest →
            i ∈ Simple.waitingQueue ss'
            ∧ ∃ p p', obj_get (Simple.players ss) i = Some p
                      ∧ obj_get (Simple.players ss') i = Some p'
                      ∧ Simple.score p' = Simple.score p ∧ Simple.role p' = None)
       ∧ Simple.gameInProgress ss' = false
       ∧ Simple.out ss' = Simple.out ss
           ++ ((λ i, Simple.mkEmit (Some i) (Simple.playerLeft SimpleSpec.left_message))
                 <$> rest)
           ++ [Simple.mkEmit None Simple.gameReset]
       ∧ ∀ sender g, Simple.guess sender g ss' = Some ss').
Proof.
  intros Hin Hnw Hnd Hlen Hreg Hregw Hin' Hnd' Hlen' Hreg'. split.
  - destruct (ParityFacts.disconnect_in_game ps sid Hin Hnw Hnd Hreg Hregw)
      as (ps' & msg & names & Hres & Hwait & Hrest & _ & Hgs & _ & _ & Hout).
    exists ps', msg, names. cbv zeta.
    split; [done|]. split.
    { pose proof (ParityFacts.length_filter_ne _ sid Hnd Hin). lia. }
    split; [done|]. split.
    { intros i [Hne Hi]%list_elem_of_filter.
      destruct (Hrest i Hi Hne) as (p & _ & Hp). by eexists. }
    split; [done|]. split; [done|].
    intros sender data. apply ParityFacts.guess_no_round. by left.
  - destruct (SimpleFacts.simple_disconnect_in_game ss sid' Hin')
      as (ss' & Hres & Hgame & _ & _ & _ & Hout & _ & Hrest).
    exists ss'. cbv zeta.
    split; [done|]. split.
    { pose proof (ParityFacts.length_filter_ne _ sid' Hnd' Hin'). lia. }
    split.
    { intros i [Hne Hi]%list_elem_of_filter.
      destruct (Hreg' i Hi) as [p Hp].
      destruct (Hrest i p Hne Hp) as [Hq Hp']. split; [done|].
      by exists p, (Simple.clear_role p). }
    split; [done|]. split; [done|].
    intros sender g. by apply SimpleFacts.guess_not_in_progress.
Qed.

Lemma parity_four_seated_registered i :
  i ∈ Parity.currentPlayers ParitySpec.four_seated →
  is_Some (Parity.players ParitySpec.four_seated !! i).
Proof.
  replace (Parity.currentPlayers ParitySpec.four_seated)
    with ["a"; "b"; "c"; "d"] by (by vm_compute).
  intros Hi.
  repeat (apply elem_of_cons in Hi as [->|Hi]); [..|by apply elem_of_nil in Hi];
    vm_compute; by eexists.
Defined.

Lemma simple_round_one_registered i :
  i ∈ Simple.currentPlayers SimpleSpec.round_one →
  is_Some (obj_get (Simple.players SimpleSpec.round_one) i).
Proof.
  replace (Simple.currentPlayers SimpleSpec.round_one)
    with ["a"; "b"; "c"; "d"] by (by vm_compute).
  intros Hi.
  repeat (apply elem_of_cons in Hi as [->|Hi]); [..|by apply elem_of_nil in Hi];
    vm_compute; by eexists.
Defined.

(** ["a"] leaves while round 1 awaits its guess, in either server. *)
Lemma disconnect_resets_the_game_witness :
  "a" ∈ Parity.currentPlayers ParitySpec.four_seated
  ∧ ("a" ∉ Parity.waiting ParitySpec.four_seated)
  ∧ "a" ∈ Simple.currentPlayers SimpleSpec.round_one
  ∧ (∃ ps' msg names,
       let rest := filter (λ i, i ≠ "a") (Parity.currentPlayers ParitySpec.four_seated) in
       Parity.disconnect "a" ParitySpec.four_seated = Some ps'
       ∧ length rest = 3%nat
       ∧ Parity.waiting ps' = Parity.waiting ParitySpec.four_seated ++ rest
       ∧ (∀ i, i ∈ rest → ∃ p, Parity.players ps' !! i = Some p
                                ∧ Parity.score p = 0 ∧ Parity.role p = None)
       ∧ Parity.gameStarted ps' = false
       ∧ Parity.out ps' = Parity.out ParitySpec.four_seated
           ++ [Parity.mkEmit None (Parity.playerLeft msg);
               Parity.mkEmit None (Parity.updatePlayers names)]
       ∧ ∀ sender data, Parity.guess sender data ps' = Some ps')
  ∧ (∃ ss',
       let rest := filter (λ i, i ≠ "a") (Simple.currentPlayers SimpleSpec.round_one) in
       Simple.disconnect "a" SimpleSpec.round_one = Some ss'
       ∧ length rest = 3%nat
       ∧ (∀ i, i ∈ rest →
            i ∈ Simple.waitingQueue ss'
            ∧ ∃ p p', obj_get (Simple.players SimpleSpec.round_one) i = Some p
                      ∧ obj_get (Simple.players ss') i = Some p'
                      ∧ Simple.score p' = Simple.score p ∧ Simple.role p' = None)
       ∧ Simple.gameInProgress ss' = false
       ∧ Simple.out ss' = Simple.out SimpleSpec.round_one
           ++ ((λ i, Simple.mkEmit (Some i) (Simple.playerLeft SimpleSpec.left_message))
                 <$> rest)
           ++ [Simple.mkEmit None Simple.gameReset]
       ∧ ∀ sender g, Simple.guess sender g ss' = Some ss').
Proof.
  assert (Hin : "a" ∈ Parity.currentPlayers ParitySpec.four_seated).
  { apply (bool_decide_unpack _). by vm_compute. }
  assert (Hnw : "a" ∉ Parity.waiting ParitySpec.four_seated).
  { apply (bool_decide_unpack _). by vm_compute. }
  assert (Hnd : NoDup (Parity.currentPlayers ParitySpec.four_seated)).
  { apply (bool_decide_unpack _). by vm_compute. }
  assert (Hlen : length (Parity.currentPlayers ParitySpec.four_seated) = 4%nat)
    by (by vm_compute).
  assert (Hregw : ∀ i, i ∈ Parity.waiting ParitySpec.four_seated →
                       is_Some (Parity.players ParitySpec.four_seated !! i)).
  { replace (Parity.waiting ParitySpec.four_seated) with (@nil string)
      by (by vm_compute).
    intros i Hi. apply elem_of_nil in Hi. destruct Hi. }
  assert (Hin' : "a" ∈ Simple.currentPlayers SimpleSpec.round_one).
  { apply (bool_decide_unpack _). by vm_compute. }
  assert (Hnd' : NoDup (Simple.currentPlayers SimpleSpec.round_one)).
  { apply (bool_decide_unpack _). by vm_compute. }
  assert (Hlen' : length (Simple.currentPlayers SimpleSpec.round_one) = 4%nat)
    by (by vm_compute).
  split; [exact Hin|]. split; [exact Hnw|]. split; [exact Hin'|].
  exact (disconnect_resets_the_game ParitySpec.four_seated SimpleSpec.round_one
           "a" "a" Hin Hnw Hnd Hlen parity_four_seated_registered Hregw
           Hin' Hnd' Hlen' simple_round_one_registered).
Defined.
